(** * release-crawler: crawl orchestrator, fetch worker, query compiler and
  result cache, embedded from the Go sources and checked against the
  design document.

  Layout: the Go runtime pieces the code leans on ([GoInt], [GoStrings]),
  then the crawler ([Crawler], from the crawler's main package), the
  search server ([Search], from web-server.go), its JSON and Slack twin
  ([SearchAPI]), the release-notes crawler ([ReleaseNotes], from main.go)
  and the transfer program ([Transfer]), then the properties. *)

From Stdlib Require Import ZArith Lia Ascii String List Bool.
From stdpp Require Import base gmap strings list fin_maps pretty.

Local Open Scope Z_scope.

(* ===================================================================== *)
(** ** Go integers and durations *)
(* ===================================================================== *)

Module GoInt.

(** Go's [int] on the 64-bit targets the images are built for, and
    [int64] (hence [time.Duration]), are two's complement words. *)
Definition min_int64 : Z := - 2 ^ 63.
Definition max_int64 : Z := 2 ^ 63 - 1.

Definition in_int64 (z : Z) : Prop := min_int64 <= z <= max_int64.

(** Result of an [int64] operation whose mathematical value is [z]. *)
Definition wrap64 (z : Z) : Z := (z + 2 ^ 63) mod 2 ^ 64 - 2 ^ 63.

Definition add64 (a b : Z) : Z := wrap64 (a + b).
Definition mul64 (a b : Z) : Z := wrap64 (a * b).

(** [time.Duration] counts nanoseconds. *)
Definition Nanosecond : Z := 1.
Definition Millisecond : Z := 1000000.
Definition Second : Z := 1000 * Millisecond.
Definition Minute : Z := 60 * Second.

(** [t.Sub(u)]: the difference of two clock readings (nanoseconds),
    clamped to the range of a Duration as the time package does. *)
Definition Sub (t u : Z) : Z := Z.max min_int64 (Z.min max_int64 (t - u)).

(** [time.Since(t)] evaluated when the clock reads [now]. *)
Definition Since (now t : Z) : Z := Sub now t.

End GoInt.

(* ===================================================================== *)
(** ** The functions of package [strings] the sources call *)
(* ===================================================================== *)

Module GoStrings.

(** A Go string is a sequence of bytes; [string] is exactly that. *)

Definition dquote : ascii := Eval cbv in ascii_of_nat 34.
Definition newline : ascii := Eval cbv in ascii_of_nat 10.

Definition byte (n : nat) : ascii := ascii_of_nat n.

Fixpoint HasPrefix (s prefix : string) {struct prefix} : bool :=
  match prefix with
  | EmptyString => true
  | String p prefix' =>
      match s with
      | EmptyString => false
      | String c s' => Ascii.eqb c p && HasPrefix s' prefix'
      end
  end.

Fixpoint rev_onto (s acc : string) : string :=
  match s with
  | EmptyString => acc
  | String c s' => rev_onto s' (String c acc)
  end.

Definition reverse (s : string) : string := rev_onto s EmptyString.

(** [HasSuffix]: [len(s) >= len(suffix) && s[len(s)-len(suffix):] == suffix]. *)
Definition HasSuffix (s suffix : string) : bool :=
  (String.length suffix <=? String.length s)%nat
  && String.eqb
       (String.substring (String.length s - String.length suffix)
          (String.length suffix) s)
       suffix.

Fixpoint Contains (s substr : string) : bool :=
  HasPrefix s substr
  || match s with
     | EmptyString => false
     | String _ s' => Contains s' substr
     end.

Fixpoint in_cutset (c : ascii) (cutset : string) : bool :=
  match cutset with
  | EmptyString => false
  | String d cutset' => Ascii.eqb c d || in_cutset c cutset'
  end.

(** [TrimLeft], [TrimRight], [Trim] for a cutset of ASCII bytes (the only
    cutset the sources pass is the double quote). *)
Fixpoint TrimLeft (s cutset : string) : string :=
  match s with
  | EmptyString => EmptyString
  | String c s' => if in_cutset c cutset then TrimLeft s' cutset else s
  end.

Fixpoint TrimRight (s cutset : string) : string :=
  match s with
  | EmptyString => EmptyString
  | String c s' =>
      match TrimRight s' cutset with
      | EmptyString => if in_cutset c cutset then EmptyString
                       else String c EmptyString
      | t => String c t
      end
  end.

Definition Trim (s cutset : string) : string :=
  TrimLeft (TrimRight s cutset) cutset.

(** White space as [unicode.IsSpace] has it, on the UTF-8 encoding:
    the six ASCII bytes, U+0085, U+00A0, U+1680, U+2000..U+200A,
    U+2028, U+2029, U+202F, U+205F and U+3000. *)
Definition asciiSpace (c : ascii) : bool :=
  let n := nat_of_ascii c in
  ((9 <=? n) && (n <=? 13) || (n =? 32))%nat.

Definition space2 (a b : ascii) : bool :=
  ((nat_of_ascii a =? 194)
   && ((nat_of_ascii b =? 133) || (nat_of_ascii b =? 160)))%nat.

Definition space3 (a b c : ascii) : bool :=
  let '(x, y, z) := (nat_of_ascii a, nat_of_ascii b, nat_of_ascii c) in
  ((x =? 225) && (y =? 154) && (z =? 128)
   || (x =? 226) && (y =? 128)
      && ((128 <=? z) && (z <=? 138) || (z =? 168) || (z =? 169) || (z =? 175))
   || (x =? 226) && (y =? 129) && (z =? 159)
   || (x =? 227) && (y =? 128) && (z =? 128))%nat.

Fixpoint trimLeftSpace (s : string) : string :=
  match s with
  | EmptyString => EmptyString
  | String a s1 =>
      if asciiSpace a then trimLeftSpace s1
      else match s1 with
           | EmptyString => s
           | String b s2 =>
               if space2 a b then trimLeftSpace s2
               else match s2 with
                    | EmptyString => s
                    | String c s3 =>
                        if space3 a b c then trimLeftSpace s3 else s
                    end
           end
  end.

(** The same scan from the end, on the reversed bytes (the last rune is
    white space exactly when the string ends with one of the encodings). *)
Fixpoint trimLeftSpaceRev (s : string) : string :=
  match s with
  | EmptyString => EmptyString
  | String a s1 =>
      if asciiSpace a then trimLeftSpaceRev s1
      else match s1 with
           | EmptyString => s
           | String b s2 =>
               if space2 b a then trimLeftSpaceRev s2
               else match s2 with
                    | EmptyString => s
                    | String c s3 =>
                        if space3 c b a then trimLeftSpaceRev s3 else s
                    end
           end
  end.

Definition TrimSpace (s : string) : string :=
  reverse (trimLeftSpaceRev (reverse (trimLeftSpace s))).

(** [Split(s, sep)] for a non-empty separator: the pieces between the
    leftmost non-overlapping occurrences of [sep]. [skip] bytes of a
    separator already matched are still to be dropped; [cur] is the piece
    being read, reversed. *)
Fixpoint split_from (sep : string) (skip : nat) (cur : string) (s : string)
  : list string :=
  match s with
  | EmptyString => [reverse cur]
  | String c s' =>
      match skip with
      | S k => split_from sep k cur s'
      | O =>
          if HasPrefix s sep
          then reverse cur
                 :: split_from sep (String.length sep - 1) EmptyString s'
          else split_from sep O (String c cur) s'
      end
  end.

Definition Split (s sep : string) : list string :=
  split_from sep O EmptyString s.

(** [ReplaceAll(s, old, new)] for a non-empty [old] (every call in the
    sources): leftmost non-overlapping occurrences are replaced. *)
Fixpoint replace_from (old new : string) (skip : nat) (s : string) : string :=
  match s with
  | EmptyString => EmptyString
  | String c s' =>
      match skip with
      | S k => replace_from old new k s'
      | O =>
          if HasPrefix s old
          then new +:+ replace_from old new (String.length old - 1) s'
          else String c (replace_from old new O s')
      end
  end.

Definition ReplaceAll (s old new : string) : string :=
  replace_from old new O s.

(** [strings.Index]: the offset of the leftmost occurrence; [None] is
    the -1 of the library. *)
Fixpoint Index (s substr : string) : option nat :=
  if HasPrefix s substr then Some O
  else match s with
       | EmptyString => None
       | String _ s' => option_map S (Index s' substr)
       end.

(** [s[:n]] and [s[n:]], for [n <= len(s)]. *)
Fixpoint slice_to (n : nat) (s : string) : string :=
  match n, s with
  | S k, String c s' => String c (slice_to k s')
  | _, _ => EmptyString
  end.

Fixpoint slice_from (n : nat) (s : string) : string :=
  match n, s with
  | S k, String _ s' => slice_from k s'
  | _, _ => s
  end.

Fixpoint Join (elems : list string) (sep : string) : string :=
  match elems with
  | [] => EmptyString
  | [e] => e
  | e :: rest => e +:+ sep +:+ Join rest sep
  end.

(** *** Runes

    A [for range] loop over a string decodes UTF-8: a well-formed
    sequence of one to four bytes is one rune; any other byte is the rune
    U+FFFD on its own. [leadByte] gives, for the first byte of a longer
    sequence, its length and the range its second byte must be in. *)
Definition between (lo hi : nat) (c : ascii) : bool :=
  ((lo <=? nat_of_ascii c) && (nat_of_ascii c <=? hi))%nat.

Definition leadByte (c : ascii) : option (nat * nat * nat) :=
  if between 194 223 c then Some (2, 128, 191)%nat
  else if between 224 224 c then Some (3, 160, 191)%nat
  else if between 225 236 c then Some (3, 128, 191)%nat
  else if between 237 237 c then Some (3, 128, 159)%nat
  else if between 238 239 c then Some (3, 128, 191)%nat
  else if between 240 240 c then Some (4, 144, 191)%nat
  else if between 241 243 c then Some (4, 128, 191)%nat
  else if between 244 244 c then Some (4, 128, 143)%nat
  else None.

(** Number of bytes of the well-formed sequence [s] begins with; 0 if it
    begins with none. *)
Definition runeLen (s : string) : nat :=
  match s with
  | EmptyString => 0
  | String c0 s1 =>
      if between 0 127 c0 then 1
      else
        match leadByte c0, s1 with
        | Some (size, lo, hi), String c1 s2 =>
            if between lo hi c1 then
              if (size =? 2)%nat then 2
              else
                match s2 with
                | String c2 s3 =>
                    if between 128 191 c2 then
                      if (size =? 3)%nat then 3
                      else
                        match s3 with
                        | String c3 _ => if between 128 191 c3 then 4 else 0
                        | EmptyString => 0
                        end
                    else 0
                | EmptyString => 0
                end
            else 0
        | _, _ => 0
        end
  end%nat.

(** [string(utf8.RuneError)], the encoding of U+FFFD. *)
Definition RuneError : string :=
  String (byte 239) (String (byte 191) (String (byte 189) EmptyString)).

End GoStrings.

(* ===================================================================== *)
(** ** The crawler: fetch worker and crawl orchestrator *)
(* ===================================================================== *)

Module Crawler.
Import GoInt GoStrings.

(** A Go [error] is represented by its message; [None] is [nil]. *)
Definition error : Type := string.

Record Article := mkArticle {
  ID : string;
  Title : string;
  Body : string;
  URL : string;
  CreatedAt : string;
  UpdatedAt : string
}.

Record Config := mkConfig {
  FetchConcurrency : Z;
  FetchDelay : Z;        (* time.Duration *)
  MaxRetries : Z;
  RequestTimeout : Z     (* time.Duration *)
}.

Record FetchResult := mkFetchResult {
  fr_Article : option Article;   (* *Article *)
  fr_Error : option error;
  fr_URL : string;
  fr_Retries : Z
}.

(** The configuration [main] builds. *)
Definition mainConfig : Config :=
  {| FetchConcurrency := 15;
     FetchDelay := 200 * Millisecond;
     MaxRetries := 3;
     RequestTimeout := 30 * Second |}.

(** *** What the scraping collaborator hands to the callbacks

    colly runs the registered [OnHTML] callbacks in registration order,
    each over the elements its selector matches in document order; a
    [Page] lists, per callback, what those elements carry. *)
Record Page := mkPage {
  header_h3 : list string;                 (* e.Text, "header.article-header h3" *)
  title_elems : list (string * string);    (* style attribute and e.Text *)
  body_elems : list (option string);       (* e.DOM.Html(); None when it errs *)
  fallback_body_elems : list (option string);
  time_elems : list string                 (* the datetime attribute *)
}.

(** One visit: [c.Visit] refuses the target, or the collector runs, the
    callbacks see [p] and [OnError] has recorded [scrapeErr]. *)
Inductive Response :=
| VisitError (e : error)
| Visited (p : Page) (scrapeErr : option error).

(** What one call of [scrapeFullArticle] meets: the response, and the two
    readings of [time.Now().UTC().Format(time.RFC3339)]. *)
Record World := mkWorld {
  response : Response;
  nowCreated : string;
  nowUpdated : string
}.

Inductive result := Ok (a : Article) | Err (e : error).

Definition nl3 : string := String newline (String newline (String newline "")).
Definition nl2 : string := String newline (String newline "").
Definition bullet : string := String (byte 226) (String (byte 128) (String (byte 162) "")).

(** [for strings.Contains(html, old) { html = strings.ReplaceAll(html, old, new) }] *)
Fixpoint replace_while (fuel : nat) (html old new : string) : string :=
  match fuel with
  | O => html
  | S fuel' =>
      if Contains html old
      then replace_while fuel' (ReplaceAll html old new) old new
      else html
  end.

Definition cleanHTML (html : string) : string :=
  let html := ReplaceAll html "<div></div>" "" in
  let html := ReplaceAll html "<div> </div>" "" in
  let html := ReplaceAll html "<p></p>" "" in
  let html := ReplaceAll html "<p> </p>" "" in
  let html := ReplaceAll html "<span></span>" "" in
  let html := ReplaceAll html "<span> </span>" "" in
  let html := replace_while (String.length html) html nl3 nl2 in
  let html := replace_while (String.length html) html "  " " " in
  TrimSpace html.

(** [regexp.MustCompile(`/articles/(\d+)`).FindStringSubmatch]: the digits
    of the leftmost match, if any. *)
Definition is_digit (c : ascii) : bool :=
  ((48 <=? nat_of_ascii c) && (nat_of_ascii c <=? 57))%nat.

Fixpoint take_digits (s : string) : string :=
  match s with
  | EmptyString => EmptyString
  | String c s' => if is_digit c then String c (take_digits s') else EmptyString
  end.

Fixpoint drop_prefix (prefix s : string) : option string :=
  match prefix with
  | EmptyString => Some s
  | String p prefix' =>
      match s with
      | EmptyString => None
      | String c s' => if Ascii.eqb c p then drop_prefix prefix' s' else None
      end
  end.

Definition article_id_here (s : string) : option string :=
  match drop_prefix "/articles/" s with
  | Some rest =>
      match take_digits rest with
      | EmptyString => None
      | digits => Some digits
      end
  | None => None
  end.

Fixpoint find_article_id (s : string) : option string :=
  match article_id_here s with
  | Some digits => Some digits
  | None =>
      match s with
      | EmptyString => None
      | String _ s' => find_article_id s'
      end
  end.

Definition with_Title (t : string) (a : Article) : Article :=
  mkArticle (ID a) t (Body a) (URL a) (CreatedAt a) (UpdatedAt a).
Definition with_Body (b : string) (a : Article) : Article :=
  mkArticle (ID a) (Title a) b (URL a) (CreatedAt a) (UpdatedAt a).
Definition with_CreatedAt (t : string) (a : Article) : Article :=
  mkArticle (ID a) (Title a) (Body a) (URL a) t (UpdatedAt a).
Definition with_UpdatedAt (t : string) (a : Article) : Article :=
  mkArticle (ID a) (Title a) (Body a) (URL a) (CreatedAt a) t.

Definition is_empty (s : string) : bool := String.eqb s "".

(** The line filter of the header callback. *)
Definition title_line_ok (line : string) : bool :=
  negb (is_empty line)
  && negb (Contains line "Published")
  && negb (Contains line "Last Updated")
  && negb (Contains line bullet)
  && negb (String.eqb line "How can we help?")
  && negb (String.eqb line "Knowledge Base").

(** [for _, line := range lines { line = TrimSpace(line); if ... { break } }] *)
Fixpoint first_title_line (lines : list string) : option string :=
  match lines with
  | [] => None
  | line :: rest =>
      let line := TrimSpace line in
      if title_line_ok line then Some line else first_title_line rest
  end.

(** [c.OnHTML("header.article-header h3", ...)] *)
Definition onHeaderH3 (a : Article) (text : string) : Article :=
  if is_empty (Title a) then
    let fullText := TrimSpace text in
    if negb (is_empty fullText) then
      match first_title_line (Split fullText (String newline "")) with
      | Some line => with_Title line a
      | None => a
      end
    else a
  else a.

(** [c.OnHTML("h1, .article-title, [data-testid='article-title']", ...)] *)
Definition onTitle (a : Article) (e : string * string) : Article :=
  let '(style, text) := e in
  if is_empty (Title a) then
    if negb (Contains style "display: none") then
      let title := TrimSpace text in
      if negb (is_empty title)
         && negb (String.eqb title "How can we help?")
         && negb (String.eqb title "Knowledge Base")
      then with_Title title a
      else a
    else a
  else a.

(** [c.OnHTML(".article-body", ...)] and the fallback body selectors. *)
Definition onBody (a : Article) (html : option string) : Article :=
  if is_empty (Body a) then
    match html with
    | Some html => with_Body (cleanHTML html) a
    | None => a
    end
  else a.

(** [c.OnHTML("time[datetime], .article-created-at, .article-updated-at", ...)] *)
Definition onTime (a : Article) (datetime : string) : Article :=
  if negb (is_empty datetime) then
    let a := if is_empty (CreatedAt a) then with_CreatedAt datetime a else a in
    with_UpdatedAt datetime a
  else a.

Definition run_callbacks (p : Page) (a : Article) : Article :=
  let a := fold_left onHeaderH3 (header_h3 p) a in
  let a := fold_left onTitle (title_elems p) a in
  let a := fold_left onBody (body_elems p) a in
  let a := fold_left onBody (fallback_body_elems p) a in
  fold_left onTime (time_elems p) a.

Definition denylisted (title : string) : bool :=
  String.eqb title "How can we help?" || String.eqb title "Knowledge Base".

Definition scrapeFullArticle (articleURL : string) (timeout : Z) (w : World)
  : result :=
  let article :=
    mkArticle (match find_article_id articleURL with
               | Some id => id
               | None => ""
               end)
              "" "" articleURL "" "" in
  match response w with
  | VisitError e => Err ("error visiting page: " +:+ e)
  | Visited p scrapeErr =>
      let article := run_callbacks p article in
      match scrapeErr with
      | Some e => Err ("scraping error: " +:+ e)
      | None =>
          if is_empty (Title article) || denylisted (Title article)
          then Err "no meaningful title found on page"
          else if is_empty (Body article)
          then Err "no content found on page"
          else
            let article :=
              if is_empty (CreatedAt article)
              then with_CreatedAt (nowCreated w) article else article in
            let article :=
              if is_empty (UpdatedAt article)
              then with_UpdatedAt (nowUpdated w) article else article in
            Ok article
      end
  end.

(** *** The body of one worker goroutine *)

(** What a worker does that the outside can see. *)
Inductive Event :=
| Sleep (d : Z)                              (* time.Sleep(d) *)
| Retrying (url : string) (attempt max : Z)  (* the "Retrying ..." line *)
| Scrape (url : string) (timeout : Z)        (* one call of scrapeFullArticle *)
| Send (r : FetchResult).                    (* results <- r *)

(** The statements of the loop body before the call of
    [scrapeFullArticle]; [jitter] is what [rand.Intn(300)] returns. *)
Definition before_fetch (cfg : Config) (url : string) (jitter attempt : Z)
  : list Event :=
  (if 0 <? attempt
   then [Sleep (mul64 attempt (FetchDelay cfg));
         Retrying url attempt (MaxRetries cfg)]
   else [])
  ++ (if attempt =? 0
      then [Sleep (add64 (FetchDelay cfg) (mul64 jitter Millisecond))]
      else []).

Inductive Outcome :=
| Continue (attempt : Z) (lastErr : option error)   (* back to the loop head *)
| Deliver (r : FetchResult).                        (* results <- r; return *)

(** From the loop head with [attempt] and [lastErr]: one iteration, or the
    code after the loop when the condition fails. *)
Definition iteration (cfg : Config) (url : string) (jitter : Z) (w : World)
    (attempt : Z) (lastErr : option error) : list Event * Outcome :=
  if attempt <=? MaxRetries cfg then
    let evs := before_fetch cfg url jitter attempt
               ++ [Scrape url (RequestTimeout cfg)] in
    match scrapeFullArticle url (RequestTimeout cfg) w with
    | Ok article => (evs, Deliver (mkFetchResult (Some article) None url attempt))
    | Err err => (evs, Continue (add64 attempt 1) (Some err))
    end
  else ([], Deliver (mkFetchResult None lastErr url (MaxRetries cfg))).

(** The retry loop of one goroutine, run to its end; [world n] is what the
    [n]-th call of [scrapeFullArticle] meets. [None]: out of fuel. *)
Fixpoint worker_loop (cfg : Config) (url : string) (jitter : Z)
    (world : nat -> World) (fuel calls : nat) (attempt : Z)
    (lastErr : option error) : option (list Event) :=
  match fuel with
  | O => None
  | S fuel' =>
      match iteration cfg url jitter (world calls) attempt lastErr with
      | (evs, Deliver r) => Some (evs ++ [Send r])
      | (evs, Continue attempt' lastErr') =>
          match worker_loop cfg url jitter world fuel' (S calls)
                  attempt' lastErr' with
          | Some rest => Some (evs ++ rest)
          | None => None
          end
      end
  end.

Definition worker (cfg : Config) (url : string) (jitter : Z)
    (world : nat -> World) : option (list Event) :=
  worker_loop cfg url jitter world (Z.to_nat (MaxRetries cfg) + 2) 0 0 None.

(** Reading a trace. *)
Definition is_scrape (e : Event) : bool :=
  match e with Scrape _ _ => true | _ => false end.

Definition attempts_made (tr : list Event) : nat :=
  length (filter (fun e => is_scrape e = true) tr).

Fixpoint sends (tr : list Event) : list FetchResult :=
  match tr with
  | [] => []
  | Send r :: tr' => r :: sends tr'
  | _ :: tr' => sends tr'
  end.

(** For each fetch of the trace, in order, the durations slept since the
    previous fetch (or since the start). *)
Fixpoint sleeps_from (acc : list Z) (tr : list Event) : list (list Z) :=
  match tr with
  | [] => []
  | Sleep d :: tr' => sleeps_from (acc ++ [d]) tr'
  | Scrape _ _ :: tr' => acc :: sleeps_from [] tr'
  | _ :: tr' => sleeps_from acc tr'
  end.

Definition sleeps_before_fetch (tr : list Event) : list (list Z) :=
  sleeps_from [] tr.

Fixpoint sleeps_of (tr : list Event) : list Z :=
  match tr with
  | [] => []
  | Sleep d :: tr' => d :: sleeps_of tr'
  | _ :: tr' => sleeps_of tr'
  end.

Definition total (ds : list Z) : Z := fold_right Z.add 0 ds.

(** *** The orchestrator: goroutines, the semaphore and the results channel *)

Inductive Goroutine :=
| Blocked (url : string)                     (* at [semaphore <- struct{}{}] *)
| Running (url : string) (attempt : Z) (lastErr : option error)
| Sent (url : string)                        (* result sent; deferred receive pending *)
| Exited.

Record Crawl := mkCrawl {
  sem_cap : Z;                     (* cap(semaphore) *)
  sem_len : Z;                     (* len(semaphore) *)
  pending : list string;           (* targets the range loop has not reached *)
  goroutines : list Goroutine;     (* one per target reached, in order *)
  results : list FetchResult;      (* what was sent on [results] *)
  closed : bool                    (* close(results) done *)
}.

(** [make(chan struct{}, n)] panics for a negative [n]; then nothing runs. *)
Definition fetchArticlesConcurrently (articleURLs : list string) (cfg : Config)
  : option Crawl :=
  if FetchConcurrency cfg <? 0 then None
  else Some (mkCrawl (FetchConcurrency cfg) 0 articleURLs [] [] false).

(** The moves of the scheduler. *)
Inductive Label :=
| Spawn                                     (* next [go func(articleURL)] *)
| Acquire (i : nat)                         (* goroutine i's send on the semaphore *)
| Attempt (i : nat) (jitter : Z) (w : World)  (* goroutine i, one pass from the loop head *)
| Release (i : nat)                         (* deferred [<-semaphore], [wg.Done()] *)
| Close.                                    (* [wg.Wait()] returns, [close(results)] *)

Definition is_exited (g : Goroutine) : bool :=
  match g with Exited => true | _ => false end.

Definition set_goroutine (i : nat) (g : Goroutine) (s : Crawl) : list Goroutine :=
  <[i := g]> (goroutines s).

(** One move; [None] when the move is not enabled. A send on the
    semaphore goes through only while the buffer has room: nothing ever
    receives from it except a goroutine that has sent before. *)
Definition step (cfg : Config) (l : Label) (s : Crawl) : option Crawl :=
  match l with
  | Spawn =>
      match pending s with
      | [] => None
      | url :: rest =>
          Some (mkCrawl (sem_cap s) (sem_len s) rest
                  (goroutines s ++ [Blocked url]) (results s) (closed s))
      end
  | Acquire i =>
      match goroutines s !! i with
      | Some (Blocked url) =>
          if sem_len s <? sem_cap s
          then Some (mkCrawl (sem_cap s) (sem_len s + 1) (pending s)
                       (set_goroutine i (Running url 0 None) s)
                       (results s) (closed s))
          else None
      | _ => None
      end
  | Attempt i jitter w =>
      match goroutines s !! i with
      | Some (Running url attempt lastErr) =>
          match snd (iteration cfg url jitter w attempt lastErr) with
          | Continue attempt' lastErr' =>
              Some (mkCrawl (sem_cap s) (sem_len s) (pending s)
                      (set_goroutine i (Running url attempt' lastErr') s)
                      (results s) (closed s))
          | Deliver r =>
              Some (mkCrawl (sem_cap s) (sem_len s) (pending s)
                      (set_goroutine i (Sent url) s)
                      (results s ++ [r]) (closed s))
          end
      | _ => None
      end
  | Release i =>
      match goroutines s !! i with
      | Some (Sent url) =>
          Some (mkCrawl (sem_cap s) (sem_len s - 1) (pending s)
                  (set_goroutine i Exited s) (results s) (closed s))
      | _ => None
      end
  | Close =>
      match pending s with
      | [] =>
          if forallb is_exited (goroutines s) && negb (closed s)
          then Some (mkCrawl (sem_cap s) (sem_len s) (pending s)
                       (goroutines s) (results s) true)
          else None
      | _ => None
      end
  end.

Fixpoint run (cfg : Config) (ls : list Label) (s : Crawl) : option Crawl :=
  match ls with
  | [] => Some s
  | l :: ls' =>
      match step cfg l s with
      | Some s' => run cfg ls' s'
      | None => None
      end
  end.

(** A goroutine is in flight from its send on the semaphore to its
    deferred receive. *)
Definition holds_slot (g : Goroutine) : bool :=
  match g with
  | Running _ _ _ | Sent _ => true
  | _ => false
  end.

Definition in_flight (s : Crawl) : nat :=
  length (filter (fun g => holds_slot g = true) (goroutines s)).

(** *** [filterEnglishArticles] *)

Fixpoint drop_digits (s : string) : string :=
  match s with
  | EmptyString => EmptyString
  | String c s' => if is_digit c then drop_digits s' else s
  end.

(** A match of [/hc/en-us/articles/\d+-.+] starting at the first byte: the
    digits can only be the whole run ([-] is no digit), and [.] is any
    character but a newline. *)
Definition articlePattern_here (s : string) : bool :=
  match drop_prefix "/hc/en-us/articles/" s with
  | Some rest =>
      negb (is_empty (take_digits rest))
      && match drop_digits rest with
         | String dash (String c _) =>
             Ascii.eqb dash "-"%char && negb (Ascii.eqb c newline)
         | _ => false
         end
  | None => false
  end.

(** A match of [/hc/en-us/articles/\d+$] starting at the first byte. *)
Definition untitledPattern_here (s : string) : bool :=
  match drop_prefix "/hc/en-us/articles/" s with
  | Some rest => negb (is_empty (take_digits rest)) && is_empty (drop_digits rest)
  | None => false
  end.

(** [MatchString]: a match starting anywhere. *)
Fixpoint matches_somewhere (here : string -> bool) (s : string) : bool :=
  here s
  || match s with
     | EmptyString => false
     | String _ s' => matches_somewhere here s'
     end.

Definition articlePattern (url : string) : bool :=
  matches_somewhere articlePattern_here url.

Definition excludePatterns : list (string -> bool) :=
  [matches_somewhere untitledPattern_here;
   (fun url => Contains url "/sections/");
   (fun url => Contains url "/categories/");
   (fun url => Contains url "/community/")].

(** The inner loop: [shouldExclude]. *)
Definition shouldExclude (url : string) : bool :=
  existsb (fun excludePattern => excludePattern url) excludePatterns.

Fixpoint filterEnglishArticles (urls : list string) : list string :=
  match urls with
  | [] => []
  | url :: rest =>
      if articlePattern url
      then if negb (shouldExclude url)
           then url :: filterEnglishArticles rest
           else filterEnglishArticles rest
      else filterEnglishArticles rest
  end.

(** *** The loop of [main] over the results

    [successfulArticles] and [errors] as the loop leaves them (the
    processors are called on the same articles, in the same order). [None]:
    the loop read [*result.Article] of a result with a nil article. *)
Definition fetchError (r : FetchResult) (err : error) : error :=
  "failed to fetch " +:+ fr_URL r +:+ " after " +:+ pretty (fr_Retries r)
  +:+ " retries: " +:+ err.

Fixpoint collectResults (rs : list FetchResult)
    (successfulArticles : list Article) (errors : list error)
  : option (list Article * list error) :=
  match rs with
  | [] => Some (successfulArticles, errors)
  | result :: rest =>
      match fr_Error result with
      | Some err =>
          collectResults rest successfulArticles
            (errors ++ [fetchError result err])
      | None =>
          match fr_Article result with
          | Some article =>
              collectResults rest (successfulArticles ++ [article]) errors
          | None => None
          end
      end
  end.

(** The errors the summary prints: all of them up to ten, else the first
    ten. *)
Definition shownErrors (errors : list error) : list error :=
  if (0 <? Z.of_nat (length errors)) && (Z.of_nat (length errors) <=? 10)
  then errors
  else if 10 <? Z.of_nat (length errors) then take 10 errors
  else [].

End Crawler.

(* ===================================================================== *)
(** ** The search server: query compiler, result cache, search facade *)
(* ===================================================================== *)

Module Search.
Import GoInt GoStrings.

Definition error : Type := string.

(** The request body, a [map[string]interface{}] tree that
    [json.Marshal] turns into the engine's JSON. Objects keep the fields
    in the order of the source literal; [JDec m e] is the decimal
    constant [m * 10^e] of the source (0.5, 1.2). *)
#[local] Set Warnings "-register-all".
Inductive json :=
| JInt (z : Z)
| JDec (mantissa exponent : Z)
| JStr (s : string)
| JArr (items : list json)
| JObj (fields : list (string * json)).

Definition strs (l : list string) : json := JArr (map JStr l).

Definition quote : string := String dquote "".

Definition buildPhraseQuery (query : string) (from size : Z) : json :=
  JObj [
    ("query", JObj [
      ("multi_match", JObj [
        ("query", JStr query);
        ("fields", strs ["title^3"; "body^1"]);
        ("type", JStr "phrase")])]);
    ("from", JInt from);
    ("size", JInt size);
    ("sort", JArr [
      JObj [("_score", JObj [("order", JStr "desc")])];
      JObj [("updated_at", JObj [("order", JStr "desc")])]]);
    ("highlight", JObj [
      ("fields", JObj [
        ("title", JObj []);
        ("body", JObj [])]);
      ("pre_tags", strs ["<mark>"]);
      ("post_tags", strs ["</mark>"])])].

Definition buildEnhancedQuery (query : string) (from size : Z) : json :=
  let isPhrase := HasPrefix query quote && HasSuffix query quote in
  if isPhrase then
    let query := Trim query quote in
    buildPhraseQuery query from size
  else
    JObj [
      ("query", JObj [
        ("function_score", JObj [
          ("query", JObj [
            ("bool", JObj [
              ("should", JArr [
                JObj [("multi_match", JObj [
                  ("query", JStr query);
                  ("fields", strs ["title^5"; "body^2"]);
                  ("type", JStr "phrase");
                  ("boost", JInt 10)])];
                JObj [("multi_match", JObj [
                  ("query", JStr query);
                  ("fields", strs ["title^3"; "body^1"]);
                  ("fuzziness", JStr "AUTO");
                  ("boost", JInt 5)])];
                JObj [("multi_match", JObj [
                  ("query", JStr query);
                  ("fields", strs ["title^2"; "body^1"]);
                  ("type", JStr "phrase_prefix");
                  ("boost", JInt 3)])]]);
              ("minimum_should_match", JInt 1)])]);
          ("boost_mode", JStr "multiply");
          ("functions", JArr [
            JObj [
              ("gauss", JObj [
                ("updated_at", JObj [
                  ("scale", JStr "30d");
                  ("decay", JDec 5 (-1))])]);
              ("weight", JDec 12 (-1))]])])]);
      ("from", JInt from);
      ("size", JInt size);
      ("sort", JArr [
        JObj [("_score", JObj [("order", JStr "desc")])]]);
      ("highlight", JObj [
        ("fields", JObj [
          ("title", JObj [("fragment_size", JInt 150)]);
          ("body", JObj [("fragment_size", JInt 300)])]);
        ("pre_tags", strs ["<mark>"]);
        ("post_tags", strs ["</mark>"])])].

(** Reading a request: the value under a key, along a path of keys. *)
Fixpoint assoc (key : string) (fields : list (string * json)) : option json :=
  match fields with
  | [] => None
  | (k, v) :: rest => if String.eqb k key then Some v else assoc key rest
  end.

Definition member (key : string) (j : json) : option json :=
  match j with
  | JObj fields => assoc key fields
  | _ => None
  end.

Fixpoint at_path (path : list string) (j : json) : option json :=
  match path with
  | [] => Some j
  | key :: rest =>
      match member key j with
      | Some v => at_path rest v
      | None => None
      end
  end.

(** *** The result cache *)

Record Article := mkArticle {
  ID : string;
  Title : string;
  Body : string;
  CreatedAt : string;
  UpdatedAt : string;
  HTMLURL : string;
  SectionID : Z
}.

Record SearchResult := mkSearchResult {
  Articles : list Article;
  Total : Z;
  Query : string;
  CurrentPage : Z;
  TotalPages : Z;
  HasPrev : bool;
  HasNext : bool;
  PrevPage : Z;
  NextPage : Z;
  ResultsPerPage : Z;
  Suggestions : list string;
  SearchTime : string
}.

(** [SearchResult{}] *)
Definition zeroSearchResult : SearchResult :=
  mkSearchResult [] 0 "" 0 0 false false 0 0 0 [] "".

Record CacheEntry := mkCacheEntry {
  Result : SearchResult;
  Timestamp : Z            (* a clock reading, nanoseconds *)
}.

(** [searchCache.cache]; the lock around every access makes each call one
    atomic step. The clock readings a call takes are its arguments. *)
Abbreviation Cache := (gmap string CacheEntry).

Definition TTL : Z := 5 * Minute.

(** [time.Since(entry.Timestamp) > 5*time.Minute] *)
Definition expired (now : Z) (entry : CacheEntry) : bool :=
  TTL <? Since now (Timestamp entry).

Definition getCachedResult (now : Z) (key : string) (cache : Cache)
  : (SearchResult * bool) * Cache :=
  match cache !! key with
  | None => ((zeroSearchResult, false), cache)
  | Some entry =>
      if expired now entry
      then ((zeroSearchResult, false), delete key cache)
      else ((Result entry, true), cache)
  end.

(** [for k, v := range cache { if expired { delete(cache, k) } }];
    [clock k] is what the clock reads when the loop looks at key [k]. *)
Definition sweep (clock : string -> Z) (cache : Cache) : Cache :=
  map_fold (fun k v acc => if expired (clock k) v then delete k acc else acc)
    cache cache.

(** [now] is the reading of [time.Now()] for the new entry. *)
Definition cacheResult (clock : string -> Z) (now : Z) (key : string)
    (result : SearchResult) (cache : Cache) : Cache :=
  let cache :=
    if 1000 <? Z.of_nat (size cache) then sweep clock cache else cache in
  <[key := mkCacheEntry result now]> cache.

(** *** The search facade *)

Record Hit := mkHit {
  Source : Article;
  Score : Z                (* float64, by its bits; never read *)
}.

(** [SearchResponse]: [Hits.Total.Value] and [Hits.Hits]. *)
Record SearchResponse := mkSearchResponse {
  TotalValue : Z;
  Hits : list Hit
}.

(** What [json.NewDecoder(resp.Body).Decode(&searchResp)] gives. *)
Inductive Decoded :=
| DecodeError (e : error)
| DecodedOk (r : SearchResponse).

(** What the engine does with a request: [client.Post] fails, or a
    response with an HTTP status comes back and its body is decoded. *)
Inductive EngineReply :=
| PostError (e : error)
| Responded (status : Z) (body : Decoded).

Section Facade.

(** [fmt.Sprintf("%x", md5.Sum([]byte(fmt.Sprintf("%s-%d-%d", query, from, size))))] *)
Variable cacheKeyOf : string -> Z -> Z -> string.

(** The engine behind [ELASTICSEARCH_URL]. *)
Variable engine : json -> EngineReply.

(** [tLookup] is the clock reading of the lookup, [tSweep] and [tStore]
    are those of the store. [json.Marshal] cannot fail on the trees built
    above. *)
Definition searchElasticsearch (query : string) (from size : Z)
    (tLookup : Z) (tSweep : string -> Z) (tStore : Z) (cache : Cache)
  : (list Article * Z * option error) * Cache :=
  let cacheKey := cacheKeyOf query from size in
  let '((cachedResult, found), cache) := getCachedResult tLookup cacheKey cache in
  if found then ((Articles cachedResult, Total cachedResult, None), cache)
  else
    let esQuery := buildEnhancedQuery query from size in
    match engine esQuery with
    | PostError err => (([], 0, Some err), cache)
    | Responded _ (DecodeError err) => (([], 0, Some err), cache)
    | Responded _ (DecodedOk searchResp) =>
        let articles := map Source (Hits searchResp) in
        let result :=
          mkSearchResult articles (TotalValue searchResp)
            "" 0 0 false false 0 0 0 [] "" in
        ((articles, TotalValue searchResp, None),
         cacheResult tSweep tStore cacheKey result cache)
    end.

End Facade.

(** *** The text shown for a hit *)

Definition styleAttr : string := " style=" +:+ String dquote EmptyString.

(** The loop of [removeStyleAttributes], for at most [fuel] rounds. *)
Fixpoint removeStyle (fuel : nat) (text : string) : string :=
  match fuel with
  | O => text
  | S fuel' =>
      match Index text styleAttr with
      | None => text
      | Some start =>
          match Index (slice_from (start + 8) text) (String dquote EmptyString) with
          | None => text
          | Some end_ =>
              removeStyle fuel'
                (slice_to start text +:+ slice_from (start + 8 + end_ + 1) text)
          end
      end
  end.

Definition removeStyleAttributes (text : string) : string :=
  removeStyle (String.length text) text.

(** The loop of [removeHTMLTags] over the runes of [text]: [skip] bytes
    of the rune being handled are still ahead, and they are copied if the
    rune is. *)
Fixpoint removeTags (skip : nat) (inTag : bool) (text : string) : string :=
  match text with
  | EmptyString => EmptyString
  | String c text' =>
      match skip with
      | S k => (if inTag then EmptyString else String c EmptyString)
               +:+ removeTags k inTag text'
      | O =>
          match runeLen text with
          | O => (if inTag then EmptyString else RuneError)
                 +:+ removeTags O inTag text'
          | S k =>
              if Ascii.eqb c "<" then removeTags O true text'
              else if Ascii.eqb c ">" then removeTags O false text'
              else (if inTag then EmptyString else String c EmptyString)
                   +:+ removeTags k inTag text'
          end
      end
  end.

Definition removeHTMLTags (text : string) : string := removeTags O false text.

Definition nl : string := String newline EmptyString.
Definition nl2 : string := nl +:+ nl.
Definition nl3 : string := nl +:+ nl2.
Definition bullet : string :=
  String (byte 226) (String (byte 128) (String (byte 162) EmptyString)).

(** The replacements [truncateHTML] makes before it strips the tags, in
    the order of the source. *)
Definition replacements : list (string * string) :=
  [("&lt;", "<"); ("&gt;", ">"); ("&amp;", "&");
   ("&quot;", String dquote EmptyString); ("&nbsp;", " ");
   ("<div>", ""); ("</div>", nl);
   ("<section>", ""); ("</section>", nl);
   ("<nav>", ""); ("</nav>", "");
   ("<header>", ""); ("</header>", nl);
   ("<footer>", ""); ("</footer>", "");
   ("<p>", ""); ("</p>", nl2);
   ("<br>", nl); ("<br/>", nl); ("<br />", nl);
   ("<h1>", ""); ("</h1>", nl2);
   ("<h2>", ""); ("</h2>", nl2);
   ("<h3>", ""); ("</h3>", nl2);
   ("<ul>", ""); ("</ul>", nl);
   ("<ol>", ""); ("</ol>", nl);
   ("<li>", bullet +:+ " "); ("</li>", nl);
   ("<strong>", "**"); ("</strong>", "**");
   ("<em>", "*"); ("</em>", "*")].

Definition replaceEach (pairs : list (string * string)) (text : string) : string :=
  fold_left (fun text '(old, new) => ReplaceAll text old new) pairs text.

(** The lines of [text], trimmed, without the empty ones, joined again. *)
Definition cleanLines (text : string) : string :=
  Join (List.filter (fun line => negb (String.eqb line EmptyString))
          (map TrimSpace (Split text nl)))
       nl.

(** [for strings.Contains(text, old) { text = strings.ReplaceAll(text, old, new) }] *)
Fixpoint replace_while (fuel : nat) (text old new : string) : string :=
  match fuel with
  | O => text
  | S fuel' =>
      if Contains text old
      then replace_while fuel' (ReplaceAll text old new) old new
      else text
  end.

(** The text before the line breaks are made HTML again. *)
Definition truncated (text : string) : string :=
  let text := replaceEach replacements text in
  let text := removeStyleAttributes text in
  let text := removeHTMLTags text in
  let text := cleanLines text in
  let text := replace_while (String.length text) text nl3 nl2 in
  let text := TrimSpace text in
  if (800 <? String.length text)%nat then slice_to 800 text +:+ "..." else text.

Definition truncateHTML (text : string) : string :=
  ReplaceAll (truncated text) nl "<br>".

(** *** The HTML search handler *)

(** [strconv.Atoi]: an optional sign and at least one decimal digit,
    nothing else, and a value that fits an [int]; [None] stands for a
    non-nil error. *)
Definition isDigit (c : ascii) : bool :=
  ((48 <=? nat_of_ascii c) && (nat_of_ascii c <=? 57))%nat.

Fixpoint decimal (acc : Z) (s : string) : option Z :=
  match s with
  | EmptyString => Some acc
  | String c s' =>
      if isDigit c
      then decimal (10 * acc + (Z.of_nat (nat_of_ascii c) - 48)) s'
      else None
  end.

Definition Atoi (s : string) : option Z :=
  let '(neg, digits) :=
    match s with
    | String "-" rest => (true, rest)
    | String "+" rest => (false, rest)
    | _ => (false, s)
    end in
  match digits with
  | EmptyString => None
  | _ =>
      match decimal 0 digits with
      | None => None
      | Some n =>
          let v := if neg then - n else n in
          if (min_int64 <=? v) && (v <=? max_int64) then Some v else None
      end
  end.

(** What the handler answers: [http.Error] with status 500 and the given
    message, or the page rendered from a [SearchResult]. *)
Inductive Reply :=
| InternalServerError (message : string)
| Rendered (result : SearchResult).

(** [q] and [pageStr] are the values of the URL parameters [q] and
    [page]; the clock readings are those of [searchElasticsearch]. *)
Definition searchHandler (cacheKeyOf : string -> Z -> Z -> string)
    (engine : json -> EngineReply) (q pageStr : string)
    (tLookup : Z) (tSweep : string -> Z) (tStore : Z) (cache : Cache)
  : Reply * Cache :=
  let query := TrimSpace q in
  let page :=
    match pageStr with
    | EmptyString => 1
    | _ =>
        match Atoi pageStr with
        | Some p => if 0 <? p then p else 1
        | None => 1
        end
    end in
  let resultsPerPage := 10 in
  let from := mul64 (add64 page (-1)) resultsPerPage in
  let result := mkSearchResult [] 0 query page 0 false false 0 0 resultsPerPage [] "" in
  match query with
  | EmptyString => (Rendered result, cache)
  | _ =>
      match searchElasticsearch cacheKeyOf engine query from resultsPerPage
              tLookup tSweep tStore cache with
      | ((_, _, Some err), cache) =>
          (InternalServerError ("Search error: " +:+ err), cache)
      | ((articles, total, None), cache) =>
          let totalPages :=
            Z.quot (add64 (add64 total resultsPerPage) (-1)) resultsPerPage in
          (Rendered
             (mkSearchResult articles total query page totalPages
                (1 <? page) (page <? totalPages)
                (add64 page (-1)) (add64 page 1) resultsPerPage [] ""),
           cache)
      end
  end.

End Search.

(* ===================================================================== *)
(** ** The JSON search API *)
(* ===================================================================== *)

Module SearchAPI.
Import GoInt GoStrings.

Definition error : Type := string.

Record SearchRequest := mkSearchRequest {
  ReqQuery : string;
  From : Z;
  Size : Z
}.

Record SearchAPIResponse := mkSearchAPIResponse {
  Articles : list Search.Article;
  Total : Z;
  Query : string;
  CurrentPage : Z;
  TotalPages : Z;
  HasPrev : bool;
  HasNext : bool;
  PrevPage : Z;
  NextPage : Z;
  ResultsPerPage : Z;
  SearchTime : string
}.

(** [c.ShouldBind(&req)] *)
Inductive Binding :=
| BindError (details : string)
| Bound (req : SearchRequest).

(** [c.JSON(status, gin.H{"error": ..., "details": ...})] and
    [c.JSON(200, response)]. *)
Inductive Reply :=
| Failure (status : Z) (message : string) (details : option string)
| OK (response : SearchAPIResponse).

Section Handler.

(** [searchElasticsearch] of this server, the function of the same name
    above with [SearchAPIResponse] as the cached record; [Store] is its
    cache and clock. *)
Context {Store : Type}.
Variable searchElasticsearch :
  string -> Z -> Z -> Store -> (list Search.Article * Z * option error) * Store.

(** [searchTime] is the formatted time the request took. *)
Definition searchHandler (bound : Binding) (searchTime : string) (st : Store)
  : Reply * Store :=
  match bound with
  | BindError details =>
      (Failure 400 "Invalid request parameters" (Some details), st)
  | Bound req =>
      match ReqQuery req with
      | EmptyString => (Failure 400 "Query parameter is required" None, st)
      | _ =>
          let size := if (Size req <=? 0) || (50 <? Size req) then 10 else Size req in
          let from := if From req <? 0 then 0 else From req in
          let page := add64 (Z.quot from size) 1 in
          let page := if page <=? 0 then 1 else page in
          match searchElasticsearch (ReqQuery req) from size st with
          | ((_, _, Some err), st) => (Failure 500 "Search failed" (Some err), st)
          | ((articles, total, None), st) =>
              let totalPages := Z.quot (add64 (add64 total size) (-1)) size in
              let totalPages := if totalPages =? 0 then 1 else totalPages in
              (OK (mkSearchAPIResponse articles total (ReqQuery req) page totalPages
                     (1 <? page) (page <? totalPages)
                     (add64 page (-1)) (add64 page 1) size searchTime),
               st)
          end
      end
  end.

End Handler.

(** *** The text sent to Slack *)

Definition entities : list (string * string) :=
  [("&lt;", "<"); ("&gt;", ">"); ("&amp;", "&");
   ("&quot;", String dquote EmptyString); ("&nbsp;", " ")].

(** [removeHTMLTags] of this server is the function of the same name
    above, line for line. *)
Definition cleanTextForSlack (text : string) : string :=
  let text := Search.replaceEach entities text in
  let text := Search.removeHTMLTags text in
  let text := Search.cleanLines text in
  let text := Search.replace_while (String.length text) text Search.nl3 Search.nl2 in
  TrimSpace text.

(** The attachment text [performSlackSearch] makes of an article body. *)
Definition attachmentText (body : string) : string :=
  let body := cleanTextForSlack body in
  if (300 <? String.length body)%nat then slice_to 300 body +:+ "..." else body.

End SearchAPI.

(* ===================================================================== *)
(** ** The release-notes crawler ([main.go]) *)
(* ===================================================================== *)

Module ReleaseNotes.
Import GoStrings.

(** The link as it is stored: a relative one is made absolute. *)
Definition absolute (href : string) : string :=
  if HasPrefix href "/" then "https://support.talkdesk.com" +:+ href else href.

(** The callback of [c.OnHTML("a[href*='/articles/']", ...)] on the
    [href] of one link, with the URLs collected so far. *)
Definition onLink (articleURLs : list string) (href : string) : list string :=
  let href := absolute href in
  if existsb (String.eqb href) articleURLs then articleURLs
  else articleURLs ++ [href].

(** The URLs collected from the links the visited pages hold, in the
    order the collector meets them. *)
Definition collect (hrefs : list string) : list string :=
  fold_left onLink hrefs [].

End ReleaseNotes.

(* ===================================================================== *)
(** ** The transfer to the second index *)
(* ===================================================================== *)

Module Transfer.
Import GoInt GoStrings.

Definition error : Type := string.

Section Batches.

Context {Hit : Type}.
Variable processBatch : list Hit -> option error.

Definition batchSize : nat := 50.

(** [for i := 0; i < len(allArticles); i += batchSize { ... }], for at
    most [fuel] rounds: the batches handed to [processBatch], in order,
    and the two counters. *)
Fixpoint batchLoop (fuel i : nat) (allArticles : list Hit)
    (successCount errorCount : Z) : list (list Hit) * Z * Z :=
  match fuel with
  | O => ([], successCount, errorCount)
  | S fuel' =>
      if (i <? length allArticles)%nat then
        let end_ := (i + batchSize)%nat in
        let end_ := if (length allArticles <? end_)%nat
                    then length allArticles else end_ in
        let batch := firstn (end_ - i) (skipn i allArticles) in
        let '(successCount, errorCount) :=
          match processBatch batch with
          | Some _ => (successCount, errorCount + 1)
          | None => (successCount + 1, errorCount)
          end in
        let '(batches, successCount, errorCount) :=
          batchLoop fuel' (i + batchSize) allArticles successCount errorCount in
        (batch :: batches, successCount, errorCount)
      else ([], successCount, errorCount)
  end.

Definition transfer (allArticles : list Hit) : list (list Hit) * Z * Z :=
  batchLoop (length allArticles) O allArticles 0 0.

End Batches.

End Transfer.

(* ===================================================================== *)
(** ** The vocabulary of the design document *)
(* ===================================================================== *)

Module Design.
Import GoInt GoStrings.

(** [n] double quotes in a row. *)
Fixpoint quotes (n : nat) : string :=
  match n with
  | O => EmptyString
  | S n' => String dquote (quotes n')
  end.

Definition begins_with_quote (s : string) : Prop := exists t, s = String dquote t.
Definition ends_with_quote (s : string) : Prop := exists t, s = t +:+ String dquote "".

(** The last byte of a string, tested against [c]. *)
Fixpoint last_is (c : ascii) (s : string) : bool :=
  match s with
  | EmptyString => false
  | String a EmptyString => Ascii.eqb a c
  | String _ s' => last_is c s'
  end.

(** *** Compiled queries *)
Import Search.

(** "wrapped in a matching pair of double quotes": an opening quote, the
    text, a closing quote. *)
Definition wrapped_in_quote_pair (query text : string) : Prop :=
  query = quote +:+ text +:+ quote.

Definition desc : json := JObj [("order", JStr "desc")].

(** A strict phrase request for [text]: exact phrase on title (weight 3)
    and body (weight 1), by score then recency, both fields highlighted. *)
Definition strict_phrase_request (text : string) (from size : Z) (j : json) : Prop :=
  at_path ["query"; "multi_match"; "query"] j = Some (JStr text)
  /\ at_path ["query"; "multi_match"; "type"] j = Some (JStr "phrase")
  /\ at_path ["query"; "multi_match"; "fields"] j = Some (strs ["title^3"; "body^1"])
  /\ at_path ["sort"] j
     = Some (JArr [JObj [("_score", desc)]; JObj [("updated_at", desc)]])
  /\ is_Some (at_path ["highlight"; "fields"; "title"] j)
  /\ is_Some (at_path ["highlight"; "fields"; "body"] j)
  /\ at_path ["from"] j = Some (JInt from)
  /\ at_path ["size"] j = Some (JInt size).

(** One scored strategy over [query]: a multi_match carrying [key: value]. *)
Definition strategy (query key value : string) (clause : json) : Prop :=
  at_path ["multi_match"; "query"] clause = Some (JStr query)
  /\ at_path ["multi_match"; key] clause = Some (JStr value).

(** The blended request: phrase, fuzzy and phrase-prefix under [should]
    with [minimum_should_match] 1, the score multiplied by a Gaussian
    decay on [updated_at] of scale 30 days. *)
Definition blended_request (query : string) (from size : Z) (j : json) : Prop :=
  (exists c1 c2 c3,
      at_path ["query"; "function_score"; "query"; "bool"; "should"] j
      = Some (JArr [c1; c2; c3])
      /\ strategy query "type" "phrase" c1
      /\ strategy query "fuzziness" "AUTO" c2
      /\ strategy query "type" "phrase_prefix" c3)
  /\ at_path ["query"; "function_score"; "query"; "bool"; "minimum_should_match"] j
     = Some (JInt 1)
  /\ at_path ["query"; "function_score"; "boost_mode"] j = Some (JStr "multiply")
  /\ (exists f,
         at_path ["query"; "function_score"; "functions"] j = Some (JArr [f])
         /\ at_path ["gauss"; "updated_at"; "scale"] f = Some (JStr "30d"))
  /\ at_path ["from"] j = Some (JInt from)
  /\ at_path ["size"] j = Some (JInt size).

(** The phrase rule as the document words it: a query wrapped in a
    matching pair of quotes compiles to the strict phrase request for the
    text between them, any other query to the blended request. *)
Definition phrase_rule_as_written (query : string) (from size : Z) : Prop :=
  (forall text, wrapped_in_quote_pair query text ->
                strict_phrase_request text from size
                  (buildEnhancedQuery query from size))
  /\ ((~ exists text, wrapped_in_quote_pair query text) ->
      blended_request query from size (buildEnhancedQuery query from size)).

(** *** Crawling *)
Import Crawler.

(** The trace of a worker that still has [n] attempts in its budget,
    written by recursion on [n]; [a] is the number of the next attempt
    and [calls] the number of fetches so far. *)
Fixpoint attempts_trace (cfg : Config) (url : string) (jitter : Z)
    (world : nat -> World) (n calls : nat) (a : Z) (lastErr : option Crawler.error)
  : list Event :=
  match n with
  | O => [Send (mkFetchResult None lastErr url (MaxRetries cfg))]
  | S n' =>
      before_fetch cfg url jitter a
      ++ Scrape url (RequestTimeout cfg)
      :: match scrapeFullArticle url (RequestTimeout cfg) (world calls) with
         | Ok article => [Send (mkFetchResult (Some article) None url a)]
         | Err err => attempts_trace cfg url jitter world n' (S calls) (a + 1) (Some err)
         end
  end.

(** The delays as the document words them: before every fetch the
    courtesy delay with its jitter, and before retry [k] the backoff
    [k * FetchDelay] on top of it. *)
Definition delays_as_written (cfg : Config) (url : string) (jitter : Z)
    (world : nat -> World) : Prop :=
  forall tr, worker cfg url jitter world = Some tr ->
  forall (k : nat) (ds : list Z),
    sleeps_before_fetch tr !! k = Some ds ->
    exists j, 0 <= j < 300
              /\ total ds
                 = Z.of_nat k * FetchDelay cfg
                   + (FetchDelay cfg + j * Millisecond).

(** The terminal failure as the document words it: a target that
    [c.Visit] refuses is tried once and never again. *)
Definition terminal_failure_as_written (cfg : Config) (url : string)
    (jitter : Z) (world : nat -> World) : Prop :=
  forall e tr,
    response (world O) = VisitError e ->
    worker cfg url jitter world = Some tr ->
    attempts_made tr = 1%nat.

(** A target that [c.Visit] refuses on every call. *)
Definition malformed : World := mkWorld (VisitError "invalid URL") "" "".

(** The goroutines of a list that hold a slot of the semaphore. *)
Definition slots (l : list Goroutine) : nat :=
  length (filter (fun g => holds_slot g = true) l).

(** The semaphore counts the goroutines in flight and is never over its
    capacity. *)
Definition gate_ok (cfg : Config) (s : Crawl) : Prop :=
  Z.of_nat (in_flight s) = sem_len s
  /\ sem_len s <= sem_cap s
  /\ sem_cap s = FetchConcurrency cfg.

(** Two slots for three targets, and a schedule: all three goroutines are
    started, the first and the third get a slot, the first fails its
    first attempt. *)
Definition two_slots : Config := mkConfig 2 (200 * Millisecond) 3 (30 * Second).

Definition three_targets : list string := ["u0"; "u1"; "u2"].

Definition sample_schedule : list Label :=
  [Spawn; Spawn; Spawn; Acquire 0; Acquire 2; Attempt 0 17 malformed].

(** A page whose only title candidate is a placeholder, with a body. *)
Definition placeholder_page : Page :=
  mkPage [] [("", " Knowledge Base ")] [Some "<p>Body text</p>"] [] [].

Definition titled_page : Page :=
  mkPage ["Release notes"] [] [Some "<p>Body text</p>"] [] [].

(** *** A full cache

    1001 entries under the keys "0" .. "1000"; the first five were stored
    at clock reading 0, the others at [TTL]. At reading [TTL + 1] the
    first five are older than the TTL and the others are not. *)
Definition full_cache : Cache :=
  list_to_map
    (map (fun i : nat =>
            (pretty i,
             mkCacheEntry zeroSearchResult (if (i <? 5)%nat then 0 else TTL)))
       (seq 0 1001)).

(** *** An engine in trouble

    It answers every request with HTTP status 500 and a JSON body without
    hits (an error document decodes to that: the decoder skips the fields
    it does not know). *)
Definition failing_engine (_ : json) : EngineReply :=
  Responded 500 (DecodedOk (mkSearchResponse 0 [])).

(** *** Reading the state of a crawl *)

(** A schedule's weight: what a goroutine may still do. A waiting goroutine
    has its send on the semaphore, its passes through the loop and its
    release before it; [budget] is [MaxRetries + 1] as a count. *)
Definition budget (cfg : Config) : nat := Z.to_nat (MaxRetries cfg + 1).

Definition steps_left (cfg : Config) (g : Goroutine) : nat :=
  match g with
  | Blocked _ => budget cfg + 3
  | Running _ attempt _ => Z.to_nat (MaxRetries cfg + 1 - attempt) + 2
  | Sent _ => 1
  | Exited => 0
  end.

Definition moves_left (cfg : Config) (s : Crawl) : nat :=
  length (pending s) * (budget cfg + 4)
  + list_sum (map (steps_left cfg) (goroutines s))
  + (if closed s then 0 else 1).

(** Every goroutine at the loop head has a non-negative attempt number. *)
Definition attempts_nonneg (s : Crawl) : Prop :=
  Forall (fun g => match g with
                   | Running _ attempt _ => 0 <= attempt
                   | _ => True
                   end) (goroutines s).

(** Goroutines whose result is on the channel. *)
Definition has_sent (g : Goroutine) : bool :=
  match g with
  | Sent _ | Exited => true
  | _ => false
  end.

(** One result per goroutine that got to its send; one goroutine or one
    pending target per target; closed only when all have exited. *)
Definition delivery_ok (targets : list string) (s : Crawl) : Prop :=
  length (results s) = length (filter (fun g => has_sent g = true) (goroutines s))
  /\ (length (goroutines s) + length (pending s))%nat = length targets
  /\ (closed s = true ->
      pending s = [] /\ forallb is_exited (goroutines s) = true).

(** What a consumer of the channel relies on. *)
Definition result_ok (cfg : Config) (targets : list string) (r : FetchResult) : Prop :=
  In (fr_URL r) targets
  /\ 0 <= fr_Retries r <= MaxRetries cfg
  /\ match fr_Article r with
     | Some article =>
         fr_Error r = None
         /\ URL article = fr_URL r
         /\ Title article <> "" /\ Title article <> "How can we help?"
         /\ Title article <> "Knowledge Base" /\ Body article <> ""
     | None => fr_Error r <> None
     end.

Definition goroutine_ok (cfg : Config) (targets : list string) (g : Goroutine) : Prop :=
  match g with
  | Blocked url | Sent url => In url targets
  | Running url attempt lastErr =>
      In url targets
      /\ 0 <= attempt <= MaxRetries cfg + 1
      /\ (0 < attempt -> lastErr <> None)
  | Exited => True
  end.

Definition results_ok (cfg : Config) (targets : list string) (s : Crawl) : Prop :=
  Forall (result_ok cfg targets) (results s)
  /\ Forall (goroutine_ok cfg targets) (goroutines s)
  /\ Forall (fun url => In url targets) (pending s).

(** A crawl that cannot start: no slot, every goroutine waiting. *)
Definition stalled (s : Crawl) : Prop :=
  sem_cap s = 0 /\ results s = [] /\ closed s = false
  /\ Forall (fun g => match g with Blocked _ => True | _ => False end)
       (goroutines s)
  /\ (pending s <> [] \/ goroutines s <> []).

(** The goroutines of a list that satisfy [p]. *)
Definition countp (p : Goroutine -> bool) (l : list Goroutine) : nat :=
  length (filter (fun g => p g = true) l).

(** A move that is always there while the channel is open: start the next
    goroutine, else let a goroutine in flight go on, else admit a waiting
    one, else close. *)
Fixpoint first_index (p : Goroutine -> bool) (l : list Goroutine) : option nat :=
  match l with
  | [] => None
  | g :: l' => if p g then Some O else option_map S (first_index p l')
  end.

Definition is_running (g : Goroutine) : bool :=
  match g with Running _ _ _ => true | _ => false end.
Definition is_sent (g : Goroutine) : bool :=
  match g with Sent _ => true | _ => false end.
Definition is_blocked (g : Goroutine) : bool :=
  match g with Blocked _ => true | _ => false end.

Definition next_move (w : World) (s : Crawl) : Label :=
  match pending s with
  | _ :: _ => Spawn
  | [] =>
      match first_index is_running (goroutines s) with
      | Some i => Attempt i 0 w
      | None =>
          match first_index is_sent (goroutines s) with
          | Some i => Release i
          | None =>
              match first_index is_blocked (goroutines s) with
              | Some i => Acquire i
              | None => Close
              end
          end
      end
  end.

(** *** A crawl of three targets on two slots, to its end *)

Definition good_world : World :=
  mkWorld (Visited titled_page None) "2024-01-01T00:00:00Z" "2024-01-02T00:00:00Z".

Definition crawl_start : Crawl := mkCrawl 2 0 three_targets [] [] false.

(** The state the sample schedule leads to. *)
Definition sample_state : Crawl :=
  Eval vm_compute in
    match run two_slots sample_schedule crawl_start with
    | Some s => s
    | None => crawl_start
    end.

(** The first target succeeds at once, the second is refused on every
    attempt, the third succeeds after the first has released its slot. *)
Definition complete_schedule : list Label :=
  [Spawn; Spawn; Spawn; Acquire 0; Acquire 1;
   Attempt 0 17 good_world; Release 0; Acquire 2;
   Attempt 1 5 malformed; Attempt 1 5 malformed; Attempt 1 5 malformed;
   Attempt 1 5 malformed; Attempt 1 5 malformed; Release 1;
   Attempt 2 250 good_world; Release 2; Close].

Definition complete_state : Crawl :=
  Eval vm_compute in
    match run two_slots complete_schedule crawl_start with
    | Some s => s
    | None => crawl_start
    end.

(** No slot at all. *)
Definition no_slots : Config := mkConfig 0 (200 * Millisecond) 3 (30 * Second).

(** *** URLs *)

Fixpoint all_digits (s : string) : bool :=
  match s with
  | EmptyString => true
  | String c s' => is_digit c && all_digits s'
  end.

(** An article worth indexing. *)
Definition article_ok (a : Article) : Prop :=
  Title a <> "" /\ Title a <> "How can we help?"
  /\ Title a <> "Knowledge Base" /\ Body a <> "".

Definition sitemap_sample : list string :=
  ["https://support.talkdesk.com/hc/en-us/articles/206196766-Release-Notes";
   "https://support.talkdesk.com/hc/en-us/articles/206196766";
   "https://support.talkdesk.com/hc/en-us/sections/200263245-Release-Notes";
   "https://support.talkdesk.com/hc/pt-br/articles/206196766-Notas";
   "https://support.talkdesk.com/hc/en-us/community/posts/1-a/hc/en-us/articles/2-b";
   "https://support.talkdesk.com/hc/en-us/articles/7411707908635-Polly"].

(** *** Candidates of a page *)

(** What one header can give as a title. *)
Definition header_candidate (text : string) : option string :=
  let fullText := TrimSpace text in
  if negb (is_empty fullText)
  then first_title_line (Split fullText (String newline ""))
  else None.

(** What one fallback title element can give. *)
Definition title_candidate (e : string * string) : option string :=
  if negb (Contains (fst e) "display: none")
  then let title := TrimSpace (snd e) in
       if negb (is_empty title) && negb (denylisted title) then Some title else None
  else None.

(** What one body element can give. *)
Definition body_candidate (html : option string) : option string :=
  match html with
  | Some html => if is_empty (cleanHTML html) then None else Some (cleanHTML html)
  | None => None
  end.

Fixpoint first_some (l : list (option string)) : option string :=
  match l with
  | [] => None
  | Some x :: _ => Some x
  | None :: l' => first_some l'
  end.

Definition title_of (p : Page) : option string :=
  first_some (map header_candidate (header_h3 p) ++ map title_candidate (title_elems p)).

Definition body_of (p : Page) : option string :=
  first_some (map body_candidate (body_elems p ++ fallback_body_elems p)).

Definition nonempty (s : string) : bool := negb (is_empty s).

(** A page with a hidden title element, a placeholder and two headers, an
    empty first body and three datetimes. *)
Definition busy_page : Page :=
  mkPage ["Knowledge Base"; " Release 12 " +:+ String newline "Published today";
          "Second header"]
    [("display: none", "Hidden"); ("", "Fallback title")]
    [Some "<p></p>"; None; Some "<p>First body</p>"]
    [Some "<p>Fallback body</p>"]
    [""; "2024-05-01T10:00:00Z"; "2024-06-01T10:00:00Z"; ""].

(** *** Filling the cache *)

(** Results stored one after the other under [keys], all at clock reading
    [now]. *)
Definition store_all (now : Z) (r : SearchResult) (keys : list string)
    (cache : Cache) : Cache :=
  fold_left (fun c k => cacheResult (fun _ => now) now k r c) keys cache.

(** An engine that answers with two hits out of 12. *)
Definition sample_hits : SearchResponse :=
  mkSearchResponse 12
    [mkHit (Search.mkArticle "1" "Release notes" "<p>a</p>" "c1" "u1" "https://x/1" 0) 0;
     mkHit (Search.mkArticle "2" "Release 12" "<p>b</p>" "c2" "u2" "https://x/2" 0) 0].

Definition working_engine (_ : json) : EngineReply :=
  Responded 200 (DecodedOk sample_hits).

Definition broken_engine (_ : json) : EngineReply := PostError "connection refused".

Definition sample_key (query : string) (from size : Z) : string :=
  query +:+ "-" +:+ pretty from +:+ "-" +:+ pretty size.

(** *** Requests to the handlers *)

(** A stand-in for the search behind the JSON API that fails outside the
    limits of the API and reports 12 hits inside. *)
Definition strict_search (q : string) (from size : Z) (st : unit)
  : (list Search.Article * Z * option SearchAPI.error) * unit :=
  if (0 <=? from) && (1 <=? size) && (size <=? 50)
  then (([], 12, None), st)
  else (([], 0, Some "window out of range"), st).

Definition lenient_search (q : string) (from size : Z) (st : unit)
  : (list Search.Article * Z * option SearchAPI.error) * unit :=
  (([], 12, None), st).

Definition oversized_request : SearchAPI.Binding :=
  SearchAPI.Bound (SearchAPI.mkSearchRequest "release" (-5) 1000).

Definition second_page_request : SearchAPI.Binding :=
  SearchAPI.Bound (SearchAPI.mkSearchRequest "release" 5 5).

(** *** Bytes of a text *)

Fixpoint all_bytes (P : ascii -> bool) (s : string) : bool :=
  match s with
  | EmptyString => true
  | String c s' => P c && all_bytes P s'
  end.

Definition angle (c : ascii) : bool := Ascii.eqb c "<" || Ascii.eqb c ">".

(** No [<] and no [>]. *)
Definition no_angle (s : string) : bool := all_bytes (fun c => negb (angle c)) s.

Definition high (c : ascii) : bool := (128 <=? nat_of_ascii c)%nat.

Definition not_newline (c : ascii) : bool := negb (Ascii.eqb c newline).

Definition starts_with_newline (s : string) : bool :=
  match s with
  | String c _ => Ascii.eqb c newline
  | EmptyString => false
  end.

(** No two newlines in a row. *)
Fixpoint no_blank_line (s : string) : bool :=
  match s with
  | EmptyString => true
  | String c s' =>
      negb (Ascii.eqb c newline && starts_with_newline s') && no_blank_line s'
  end.

(** Every [<] of [s] opens a [<br>] and every [>] closes one; [skip]
    bytes of a [<br>] are still ahead. *)
Fixpoint only_breaks (skip : nat) (s : string) : bool :=
  match s with
  | EmptyString => true
  | String c s' =>
      match skip with
      | S k => only_breaks k s'
      | O =>
          if HasPrefix s "<br>" then only_breaks 3 s'
          else negb (angle c) && only_breaks O s'
      end
  end.

(** The exit condition of the loop of [removeStyleAttributes]. *)
Definition no_closed_style (text : string) : Prop :=
  match Index text Search.styleAttr with
  | None => True
  | Some start =>
      Index (slice_from (start + 8) text) (String dquote EmptyString) = None
  end.

Definition not_space (c : ascii) : bool := negb (Ascii.eqb c " ").

(** *** Links and batches *)

Definition sample_links : list string :=
  ["/hc/en-us/articles/1-A"; "https://support.talkdesk.com/hc/en-us/articles/1-A";
   "/hc/en-us/articles/2-B"; "/hc/en-us/articles/1-A"].

(** A [processBatch] that fails on batches of fewer than 50 hits. *)
Definition picky_batch (batch : list nat) : option Transfer.error :=
  if (length batch <? 50)%nat then Some "Azure returned status 503" else None.

End Design.

(* ===================================================================== *)
(** * Properties *)
(* ===================================================================== *)

(** ** The embedding on small inputs *)

Section Examples.
Import GoInt GoStrings.

Example Split_lines :
  Split ("a" +:+ String newline ("b" +:+ String newline (String newline "c")))
    (String newline "")
  = ["a"; "b"; ""; "c"].
Proof. reflexivity. Qed.

Example Split_empty : Split "" (String newline "") = [""].
Proof. reflexivity. Qed.

Example ReplaceAll_leftmost : ReplaceAll "aXXXbXXc" "XX" "Y" = "aYXbYc".
Proof. reflexivity. Qed.

Example TrimSpace_ascii :
  TrimSpace ("  How can we help? " +:+ String newline " ") = "How can we help?".
Proof. reflexivity. Qed.

(** A no-break space (U+00A0) in front and a line separator (U+2028)
    behind are white space too. *)
Example TrimSpace_unicode :
  TrimSpace (String (byte 194) (String (byte 160)
               ("x" +:+ String (byte 226) (String (byte 128) (String (byte 168) "")))))
  = "x".
Proof. reflexivity. Qed.

(** A lone continuation byte is not white space. *)
Example TrimSpace_stray_byte :
  TrimSpace (String (byte 133) "x") = String (byte 133) "x".
Proof. reflexivity. Qed.

Example Trim_quotes :
  Trim (String dquote (String dquote ("a b" +:+ String dquote ""))) (String dquote "")
  = "a b".
Proof. reflexivity. Qed.

Example HasSuffix_short : HasSuffix "c" "bc" = false.
Proof. reflexivity. Qed.

Example wrap64_overflow : mul64 (2 ^ 62) 2 = - 2 ^ 63.
Proof. reflexivity. Qed.

Example Since_clamped : Since (2 ^ 63 - 1) (- 2 ^ 63) = max_int64.
Proof. reflexivity. Qed.

Import Crawler Design.

Example cleanHTML_sample :
  cleanHTML ("<p></p><div>hi   there</div>  " +:+ nl3 +:+ nl3 +:+ "<span> </span>x ")
  = "<div>hi there</div> " +:+ nl2 +:+ "x".
Proof. vm_compute. reflexivity. Qed.

Example find_article_id_leftmost :
  find_article_id "https://x/articles/new/articles/7411707908635-Polly"
  = Some "7411707908635".
Proof. vm_compute. reflexivity. Qed.

(** The header's first line is a placeholder, the second is the title. *)
Example scrape_header_lines :
  scrapeFullArticle "https://x/hc/en-us/articles/12-a" (30 * Second)
    (mkWorld
       (Visited
          (mkPage [" Knowledge Base" +:+ String newline "  Release notes "
                   +:+ String newline "Published today"]
             [("", "Other title")] [None; Some "<p>Body</p>"] [Some "<p>Late</p>"]
             ["2024-05-01T10:00:00Z"; ""; "2024-06-01T10:00:00Z"])
          None)
       "now1" "now2")
  = Ok (mkArticle "12" "Release notes" "<p>Body</p>"
          "https://x/hc/en-us/articles/12-a"
          "2024-05-01T10:00:00Z" "2024-06-01T10:00:00Z").
Proof. vm_compute. reflexivity. Qed.

(** A success on the third fetch: two backoffs, result with [Retries = 2]. *)
Example worker_third_time_lucky :
  option_map sleeps_before_fetch
    (worker mainConfig "u" 250
       (fun n => if (n <? 2)%nat then malformed
                 else mkWorld (Visited titled_page None) "now1" "now2"))
  = Some [[450 * Millisecond]; [200 * Millisecond]; [400 * Millisecond]].
Proof. vm_compute. reflexivity. Qed.

(** With a negative [MaxRetries] the loop body never runs: no fetch, and a
    result without article and without error. *)
Example worker_negative_retries :
  worker (mkConfig 1 (200 * Millisecond) (-2) (30 * Second)) "u" 0
    (fun _ => malformed)
  = Some [Send (mkFetchResult None None "u" (-2))].
Proof. reflexivity. Qed.

(** A negative capacity: [make] panics and there is no crawl. *)
Example negative_concurrency :
  fetchArticlesConcurrently three_targets
    (mkConfig (-1) (200 * Millisecond) 3 (30 * Second)) = None.
Proof. reflexivity. Qed.

(** With two slots taken the third goroutine cannot pass the semaphore;
    after a release it can. *)
Example third_goroutine_waits :
  run two_slots [Spawn; Spawn; Spawn; Acquire 0; Acquire 1; Acquire 2]
    (mkCrawl 2 0 three_targets [] [] false) = None
  /\ option_map in_flight
       (run two_slots
          [Spawn; Spawn; Spawn; Acquire 0; Acquire 1;
           Attempt 0 17 (mkWorld (Visited titled_page None) "now1" "now2");
           Release 0; Acquire 2]
          (mkCrawl 2 0 three_targets [] [] false))
     = Some 2%nat.
Proof. split; vm_compute; reflexivity. Qed.

End Examples.

(** ** Strings *)

Section StringFacts.
Import GoStrings Design.

Lemma append_nil (t : string) : "" +:+ t = t.
Proof. reflexivity. Qed.

Lemma append_cons (c : ascii) (s t : string) :
  String c s +:+ t = String c (s +:+ t).
Proof. reflexivity. Qed.

Ltac sapp := cbn [quotes] in *; rewrite ?append_cons, ?append_nil in *.

Lemma app_empty_r (s : string) : s +:+ "" = s.
Proof. induction s as [|c s IH]; sapp; congruence. Qed.

Lemma app_assoc_s (a b c : string) : (a +:+ b) +:+ c = a +:+ b +:+ c.
Proof. induction a as [|x a IH]; sapp; congruence. Qed.

Lemma HasPrefix_quote (s : string) :
  HasPrefix s (String dquote "") = true <-> begins_with_quote s.
Proof.
  split.
  - destruct s as [|c s]; simpl; [discriminate |].
    rewrite andb_true_r. intros H. apply Ascii.eqb_eq in H. subst c. now exists s.
  - intros [t ->]. reflexivity.
Qed.

Lemma substring_last (s : string) (a : ascii) :
  String.substring (String.length s) 1 (String a s)
  = match s with
    | EmptyString => String a ""
    | String b s' => String.substring (String.length s') 1 (String b s')
    end.
Proof. destruct s; reflexivity. Qed.

Lemma HasSuffix_last (c : ascii) (s : string) :
  HasSuffix s (String c "") = last_is c s.
Proof.
  unfold HasSuffix. destruct s as [|a s]; [reflexivity |].
  change (String.length (String c "")) with 1%nat.
  change (String.length (String a s)) with (S (String.length s)).
  replace (S (String.length s) - 1)%nat with (String.length s) by lia.
  change (1 <=? S (String.length s))%nat with true. rewrite andb_true_l.
  revert a. induction s as [|b s IH]; intros a.
  - simpl. now destruct (Ascii.eqb a c).
  - rewrite substring_last. rewrite IH. reflexivity.
Qed.

Lemma last_is_snoc (c : ascii) (s : string) :
  last_is c s = true <-> exists t, s = t +:+ String c "".
Proof.
  split.
  - induction s as [|a s IH]; simpl; [discriminate |].
    destruct s as [|b s'].
    + intros H. apply Ascii.eqb_eq in H. subst a. now exists EmptyString.
    + intros H. destruct (IH H) as [t Ht]. exists (String a t).
      sapp. now rewrite <- Ht.
  - intros [t ->]. induction t as [|a t IH]; sapp.
    + apply Ascii.eqb_refl.
    + cbn [last_is]. destruct (t +:+ String c "") eqn:E; [| exact IH].
      destruct t; discriminate.
Qed.

Lemma HasSuffix_quote (s : string) :
  HasSuffix s (String dquote "") = true <-> ends_with_quote s.
Proof. rewrite HasSuffix_last. apply last_is_snoc. Qed.

Lemma in_cutset_quote (c : ascii) :
  in_cutset c (String dquote "") = Ascii.eqb c dquote.
Proof. simpl. apply orb_false_r. Qed.

(** [TrimRight] cuts a run of quotes off the end and leaves a string that
    does not end with one. *)
Lemma TrimRight_quote (s : string) :
  (exists m, s = TrimRight s (String dquote "") +:+ quotes m)
  /\ last_is dquote (TrimRight s (String dquote "")) = false.
Proof.
  induction s as [|c s [[m Hm] Hlast]].
  - split; [now exists O | reflexivity].
  - cbn [TrimRight]. destruct (TrimRight s (String dquote "")) as [|d t] eqn:E.
    + rewrite in_cutset_quote. destruct (Ascii.eqb_spec c dquote) as [->|Hne].
      * split; [| reflexivity]. exists (S m). sapp. now rewrite <- Hm.
      * split.
        -- exists m. sapp. now rewrite <- Hm.
        -- simpl. now apply Ascii.eqb_neq.
    + split.
      * exists m. sapp. now rewrite <- Hm.
      * exact Hlast.
Qed.

(** [TrimLeft] cuts a run of quotes off the front, leaves a string that
    does not begin with one, and keeps the end as it was. *)
Lemma TrimLeft_quote (s : string) :
  (exists n, s = quotes n +:+ TrimLeft s (String dquote ""))
  /\ HasPrefix (TrimLeft s (String dquote "")) (String dquote "") = false
  /\ (last_is dquote s = false ->
      last_is dquote (TrimLeft s (String dquote "")) = false).
Proof.
  induction s as [|c s [[n Hn] [Hfirst Hlast]]].
  - repeat split; try reflexivity. now exists O.
  - cbn [TrimLeft]. rewrite in_cutset_quote.
    destruct (Ascii.eqb_spec c dquote) as [->|Hne].
    + split; [| split].
      * exists (S n). sapp. now rewrite <- Hn.
      * exact Hfirst.
      * intros H. destruct s as [|b s']; [reflexivity |]. apply Hlast. exact H.
    + split; [| split].
      * now exists O.
      * simpl. rewrite andb_true_r. now apply Ascii.eqb_neq.
      * trivial.
Qed.

(** [Trim] with the double quote as cutset gives the query without its
    leading and trailing quotes. *)
Lemma Trim_quote (q : string) :
  exists n m,
    q = quotes n +:+ Trim q (String dquote "") +:+ quotes m
    /\ ~ begins_with_quote (Trim q (String dquote ""))
    /\ ~ ends_with_quote (Trim q (String dquote "")).
Proof.
  unfold Trim.
  destruct (TrimRight_quote q) as [[m Hm] Hlast].
  destruct (TrimLeft_quote (TrimRight q (String dquote ""))) as [[n Hn] [Hfirst Hkeep]].
  exists n, m. split; [| split].
  - rewrite <- app_assoc_s, <- Hn. exact Hm.
  - intros H. apply HasPrefix_quote in H. congruence.
  - intros H. apply HasSuffix_quote in H. rewrite HasSuffix_last in H.
    rewrite (Hkeep Hlast) in H. discriminate.
Qed.

End StringFacts.

(** ** The relevance query compiler *)

Section QueryCompiler.
Import GoStrings Search Design.

Lemma TrimRight_quotes (m : nat) : TrimRight (quotes m) quote = "".
Proof.
  unfold quote. induction m as [|m IH]; [reflexivity |].
  cbn [quotes TrimRight]. now rewrite IH.
Qed.

Lemma TrimRight_app_quotes (s : string) (m : nat) :
  TrimRight (s +:+ quotes m) quote = TrimRight s quote.
Proof.
  induction s as [|c s IH].
  - rewrite append_nil. apply TrimRight_quotes.
  - rewrite append_cons. unfold quote in *. cbn [TrimRight]. now rewrite IH.
Qed.

Lemma TrimRight_id (s : string) :
  last_is dquote s = false -> TrimRight s quote = s.
Proof.
  unfold quote. induction s as [|c s IH]; [reflexivity |].
  cbn [last_is TrimRight]. destruct s as [|b s'].
  - intros H. cbn [TrimRight]. now rewrite in_cutset_quote, H.
  - intros H. rewrite (IH H). reflexivity.
Qed.

Lemma TrimLeft_quotes_app (n : nat) (t : string) :
  TrimLeft (quotes n +:+ t) quote = TrimLeft t quote.
Proof.
  unfold quote. induction n as [|n IH]; [reflexivity |].
  cbn [quotes]. rewrite append_cons. cbn [TrimLeft].
  rewrite in_cutset_quote, Ascii.eqb_refl. exact IH.
Qed.

Lemma TrimLeft_id (t : string) :
  ~ begins_with_quote t -> TrimLeft t quote = t.
Proof.
  destruct t as [|c t]; [reflexivity |]. intros H. cbn [TrimLeft].
  unfold quote. rewrite in_cutset_quote.
  destruct (Ascii.eqb_spec c dquote) as [->|Hne]; [| reflexivity].
  exfalso. apply H. now exists t.
Qed.

Lemma last_is_quotes_app (n : nat) (t : string) :
  t <> "" -> last_is dquote (quotes n +:+ t) = last_is dquote t.
Proof.
  intros Ht. induction n as [|n IH]; [reflexivity |].
  cbn [quotes]. rewrite append_cons. cbn [last_is].
  destruct (quotes n +:+ t) eqn:E; [| exact IH].
  destruct n; [rewrite append_nil in E; congruence | discriminate].
Qed.

(** The text between the runs of quotes is what [Trim] returns. *)
Lemma Trim_between (n m : nat) (text : string) :
  ~ begins_with_quote text -> ~ ends_with_quote text ->
  Trim (quotes n +:+ text +:+ quotes m) quote = text.
Proof.
  intros Hb He. unfold Trim.
  rewrite <- app_assoc_s, TrimRight_app_quotes.
  destruct text as [|c text].
  - rewrite app_empty_r, TrimRight_quotes. reflexivity.
  - assert (Hl : last_is dquote (String c text) = false).
    { destruct (last_is dquote (String c text)) eqn:E; [| reflexivity].
      exfalso. apply He. now apply last_is_snoc. }
    rewrite TrimRight_id by (rewrite last_is_quotes_app; [exact Hl | discriminate]).
    rewrite TrimLeft_quotes_app. now apply TrimLeft_id.
Qed.

Lemma buildPhraseQuery_strict (text : string) (from size : Z) :
  strict_phrase_request text from size (buildPhraseQuery text from size).
Proof. unfold strict_phrase_request. cbn. repeat split; eauto. Qed.

Lemma isPhrase_iff (q : string) :
  HasPrefix q quote && HasSuffix q quote = true
  <-> begins_with_quote q /\ ends_with_quote q.
Proof.
  rewrite andb_true_iff. unfold quote.
  now rewrite HasPrefix_quote, HasSuffix_quote.
Qed.

Lemma buildEnhancedQuery_phrase (q : string) (from size : Z) :
  begins_with_quote q -> ends_with_quote q ->
  buildEnhancedQuery q from size = buildPhraseQuery (Trim q quote) from size.
Proof.
  intros Hb He. unfold buildEnhancedQuery.
  destruct (HasPrefix q quote && HasSuffix q quote) eqn:E; [reflexivity |].
  assert (H : HasPrefix q quote && HasSuffix q quote = true) by now apply isPhrase_iff.
  congruence.
Qed.

Lemma buildEnhancedQuery_blended (q : string) (from size : Z) :
  ~ (begins_with_quote q /\ ends_with_quote q) ->
  blended_request q from size (buildEnhancedQuery q from size).
Proof.
  intros H. unfold buildEnhancedQuery.
  destruct (HasPrefix q quote && HasSuffix q quote) eqn:E.
  - exfalso. apply H. now apply isPhrase_iff.
  - unfold blended_request, strategy.
    split; [| split; [| split; [| split; [| split]]]]; try reflexivity.
    + do 3 eexists. cbn. repeat split; reflexivity.
    + eexists. cbn. split; reflexivity.
Qed.

(** C10. Phrase detection looks only at the first and the last byte: a
    query that begins and ends with a double quote compiles to the strict
    phrase request for the query without any of its leading and trailing
    quotes. The one-byte query made of a single quote is such a query and
    compiles to the phrase request for the empty string; a text inside two
    pairs of quotes compiles to the phrase request for the bare text. *)
Theorem phrase_detection_strips_every_quote :
  (forall (q : string) (from size : Z),
      begins_with_quote q -> ends_with_quote q ->
      exists (n m : nat) (text : string),
        q = quotes n +:+ text +:+ quotes m
        /\ ~ begins_with_quote text /\ ~ ends_with_quote text
        /\ buildEnhancedQuery q from size = buildPhraseQuery text from size
        /\ strict_phrase_request text from size (buildEnhancedQuery q from size))
  /\ (forall from size : Z,
         buildEnhancedQuery quote from size = buildPhraseQuery "" from size)
  /\ (forall (text : string) (from size : Z),
         ~ begins_with_quote text -> ~ ends_with_quote text ->
         buildEnhancedQuery (quotes 2 +:+ text +:+ quotes 2) from size
         = buildPhraseQuery text from size).
Proof.
  split; [| split].
  - intros q from size Hb He.
    destruct (Trim_quote q) as (n & m & Hq & Hnb & Hne).
    exists n, m, (Trim q quote).
    split; [exact Hq |]. split; [exact Hnb |]. split; [exact Hne |]. split.
    + now apply buildEnhancedQuery_phrase.
    + rewrite buildEnhancedQuery_phrase by assumption.
      apply buildPhraseQuery_strict.
  - reflexivity.
  - intros text from size Hb He.
    rewrite buildEnhancedQuery_phrase.
    + now rewrite Trim_between.
    + now exists (String dquote (text +:+ quotes 2)).
    + exists (quotes 2 +:+ text +:+ quote). cbn [quotes].
      rewrite !append_cons, !append_nil. f_equal. f_equal.
      now rewrite app_assoc_s.
Qed.

Lemma phrase_detection_strips_every_quote_witness :
  exists (n m : nat) (text : string),
    String dquote ("exact phrase" +:+ quote) = quotes n +:+ text +:+ quotes m
    /\ ~ begins_with_quote text /\ ~ ends_with_quote text
    /\ buildEnhancedQuery (String dquote ("exact phrase" +:+ quote)) 0 10
       = buildPhraseQuery text 0 10
    /\ strict_phrase_request text 0 10
         (buildEnhancedQuery (String dquote ("exact phrase" +:+ quote)) 0 10).
Proof.
  apply (proj1 phrase_detection_strips_every_quote).
  - eexists; reflexivity.
  - exists (String dquote "exact phrase"); reflexivity.
Defined.

Lemma single_quote_not_wrapped : ~ exists text, wrapped_in_quote_pair quote text.
Proof.
  intros [text H]. unfold wrapped_in_quote_pair, quote in H.
  rewrite append_cons, append_nil in H. injection H as H.
  destruct text; discriminate.
Qed.

(** C5, as written, fails on the query made of one double quote: it is
    not wrapped in a pair of quotes, yet it does not compile to the
    blended request. *)
Lemma phrase_rule_as_written_fails_on_single_quote :
  ~ phrase_rule_as_written quote 0 10.
Proof.
  intros [_ H]. specialize (H single_quote_not_wrapped).
  destruct H as [(c1 & c2 & c3 & Hshould & _) _].
  cbn in Hshould. discriminate.
Qed.

(** C5, amended. A query that begins and ends with a double quote (the
    one-byte query of a single quote included) compiles to the strict
    phrase request for the query without its leading and trailing quotes:
    exact phrase on title (weight 3) and body (weight 1), by score then
    recency, both fields highlighted; when the text between one pair of
    quotes has no quote at either end, that text is the phrase. Every
    other query compiles to the blended request: phrase, fuzzy and
    phrase-prefix strategies under should with minimum_should_match 1 and
    a multiplicative Gaussian decay of scale 30 days. *)
Theorem compile_phrase_or_blended (q : string) (from size : Z) :
  (begins_with_quote q /\ ends_with_quote q ->
   exists (n m : nat) (text : string),
     q = quotes n +:+ text +:+ quotes m
     /\ ~ begins_with_quote text /\ ~ ends_with_quote text
     /\ strict_phrase_request text from size (buildEnhancedQuery q from size))
  /\ (forall text,
         wrapped_in_quote_pair q text ->
         ~ begins_with_quote text -> ~ ends_with_quote text ->
         strict_phrase_request text from size (buildEnhancedQuery q from size))
  /\ (~ (begins_with_quote q /\ ends_with_quote q) ->
      blended_request q from size (buildEnhancedQuery q from size)).
Proof.
  split; [| split].
  - intros [Hb He].
    destruct (Trim_quote q) as (n & m & Hq & Hnb & Hne).
    exists n, m, (Trim q quote).
    split; [exact Hq |]. split; [exact Hnb |]. split; [exact Hne |].
    rewrite buildEnhancedQuery_phrase by assumption.
    apply buildPhraseQuery_strict.
  - intros text Hw Hnb Hne. unfold wrapped_in_quote_pair in Hw. subst q.
    rewrite buildEnhancedQuery_phrase.
    + change quote with (quotes 1). rewrite Trim_between by assumption.
      apply buildPhraseQuery_strict.
    + now exists (text +:+ quote).
    + exists (quote +:+ text). now rewrite app_assoc_s.
  - apply buildEnhancedQuery_blended.
Qed.

Lemma compile_phrase_or_blended_witness :
  strict_phrase_request "exact phrase" 0 10
    (buildEnhancedQuery (quote +:+ "exact phrase" +:+ quote) 0 10)
  /\ blended_request "exact phrase" 0 10 (buildEnhancedQuery "exact phrase" 0 10).
Proof.
  split.
  - apply (proj1 (proj2 (compile_phrase_or_blended
                           (quote +:+ "exact phrase" +:+ quote) 0 10))).
    + reflexivity.
    + intros [t H]; discriminate.
    + intros H. apply HasSuffix_quote in H. vm_compute in H. discriminate.
  - apply (proj2 (proj2 (compile_phrase_or_blended "exact phrase" 0 10))).
    intros [[t H] _]; discriminate.
Defined.

End QueryCompiler.

(** ** The result cache *)

Section ResultCache.
Import GoInt Search Design.

Lemma expired_true (now : Z) (entry : CacheEntry) :
  expired now entry = true <-> TTL < now - Timestamp entry.
Proof.
  unfold expired, Since, Sub. rewrite Z.ltb_lt.
  unfold TTL, Minute, Second, Millisecond, min_int64, max_int64.
  change (2 ^ 63) with 9223372036854775808. lia.
Qed.

Lemma expired_false (now : Z) (entry : CacheEntry) :
  expired now entry = false <-> now - Timestamp entry <= TTL.
Proof.
  rewrite <- not_true_iff_false, expired_true. lia.
Qed.

(** The range loop deletes from an accumulator [acc] the expired entries
    of the map it ranges over. *)
Lemma sweep_loop_lookup (clock : string -> Z) (acc cache : Cache) (k : string) :
  map_fold (fun k v acc => if expired (clock k) v then delete k acc else acc)
    acc cache !! k
  = match cache !! k with
    | Some entry => if expired (clock k) entry then None else acc !! k
    | None => acc !! k
    end.
Proof.
  revert k.
  apply (map_fold_weak_ind
           (fun (r : Cache) (m : Cache) =>
              forall k, r !! k = match m !! k with
                                 | Some entry =>
                                     if expired (clock k) entry then None
                                     else acc !! k
                                 | None => acc !! k
                                 end)).
  - intros k. now rewrite lookup_empty.
  - intros i x m r Hi IH k.
    destruct (decide (k = i)) as [->|Hne].
    + rewrite lookup_insert_eq. destruct (expired (clock i) x).
      * apply lookup_delete_eq.
      * rewrite IH, Hi. reflexivity.
    + rewrite lookup_insert_ne by congruence.
      destruct (expired (clock i) x).
      * rewrite lookup_delete_ne by congruence. apply IH.
      * apply IH.
Qed.

Lemma sweep_lookup (clock : string -> Z) (cache : Cache) (k : string) :
  sweep clock cache !! k
  = match cache !! k with
    | Some entry => if expired (clock k) entry then None else Some entry
    | None => None
    end.
Proof.
  unfold sweep. rewrite sweep_loop_lookup.
  destruct (cache !! k) as [entry|] eqn:E; [| reflexivity].
  now destruct (expired (clock k) entry).
Qed.

(** The sweep keeps exactly the entries that are still fresh when the loop
    looks at them. *)
Lemma sweep_filter (clock : string -> Z) (cache : Cache) :
  sweep clock cache
  = filter (fun kv : string * CacheEntry => ~ TTL < clock kv.1 - Timestamp kv.2)
      cache.
Proof.
  apply map_eq. intros k. rewrite sweep_lookup, map_lookup_filter.
  destruct (cache !! k) as [entry|] eqn:E; simpl; [| reflexivity].
  destruct (expired (clock k) entry) eqn:Hx.
  - apply expired_true in Hx. rewrite option_guard_False; [reflexivity |].
    simpl. lia.
  - apply expired_false in Hx. rewrite option_guard_True; [reflexivity |].
    simpl. lia.
Qed.

Lemma sweep_size (clock : string -> Z) (cache : Cache) :
  (size (sweep clock cache)
   + size (filter (fun kv : string * CacheEntry =>
                     (TTL < clock kv.1 - Timestamp kv.2)%Z) cache)
   = size cache)%nat.
Proof.
  rewrite sweep_filter.
  rewrite <- (map_filter_union_complement
                (fun kv : string * CacheEntry => TTL < clock kv.1 - Timestamp kv.2)
                cache)
    at 3.
  rewrite map_size_disj_union by apply map_disjoint_filter_complement.
  lia.
Qed.

Lemma cacheResult_lookup_key (clock : string -> Z) (now : Z) (key : string)
    (result : SearchResult) (cache : Cache) :
  cacheResult clock now key result cache !! key = Some (mkCacheEntry result now).
Proof. unfold cacheResult. apply lookup_insert_eq. Qed.

(** C6. A store of [r] under [k] at clock reading [t0], followed by a
    lookup of [k] at reading [t1] with nothing in between: when no more
    than the TTL of five minutes has passed the lookup is a hit and
    returns [r] itself, leaving the cache as it was; when more than the
    TTL has passed it is a miss (and the entry is dropped). *)
Theorem store_then_lookup (cache : Cache) (k : string) (r : SearchResult)
    (tSweep : string -> Z) (t0 t1 : Z) :
  let stored := cacheResult tSweep t0 k r cache in
  (t1 - t0 <= TTL -> getCachedResult t1 k stored = ((r, true), stored))
  /\ (TTL < t1 - t0 ->
      getCachedResult t1 k stored = ((zeroSearchResult, false), delete k stored)).
Proof.
  intros stored. subst stored. unfold getCachedResult.
  rewrite cacheResult_lookup_key. split; intros H.
  - assert (Hx : expired t1 (mkCacheEntry r t0) = false)
      by (apply expired_false; exact H).
    now rewrite Hx.
  - assert (Hx : expired t1 (mkCacheEntry r t0) = true)
      by (apply expired_true; exact H).
    now rewrite Hx.
Qed.

Lemma store_then_lookup_witness :
  getCachedResult (4 * Minute) "k"
    (cacheResult (fun _ => 0) 0 "k" zeroSearchResult ∅)
  = ((zeroSearchResult, true), cacheResult (fun _ => 0) 0 "k" zeroSearchResult ∅)
  /\ getCachedResult (5 * Minute + 1) "k"
       (cacheResult (fun _ => 0) 0 "k" zeroSearchResult ∅)
     = ((zeroSearchResult, false),
        delete "k" (cacheResult (fun _ => 0) 0 "k" zeroSearchResult ∅)).
Proof.
  split.
  - apply (proj1 (store_then_lookup ∅ "k" zeroSearchResult (fun _ => 0) 0
                    (4 * Minute))).
    vm_compute. discriminate.
  - apply (proj2 (store_then_lookup ∅ "k" zeroSearchResult (fun _ => 0) 0
                    (5 * Minute + 1))).
    vm_compute. reflexivity.
Defined.

(** C7. A store into a cache that holds more than 1000 entries first
    sweeps it: every entry that is older than the TTL when the sweep
    looks at it is removed, every entry that is not older stays as it is,
    nothing else appears, and then the new entry is put under its key. A
    cache of 1001 entries of which 5 are older than the TTL, receiving a
    store under a new key, ends with those 5 gone and 997 entries, the new
    one among them. *)
Theorem store_sweeps_expired_entries (clock : string -> Z) (now : Z)
    (key : string) (result : SearchResult) (cache : Cache) :
  1000 < Z.of_nat (size cache) ->
  let cache' := cacheResult clock now key result cache in
  cache' !! key = Some (mkCacheEntry result now)
  /\ (forall k entry, k <> key -> cache !! k = Some entry ->
                      TTL < clock k - Timestamp entry -> cache' !! k = None)
  /\ (forall k entry, k <> key -> cache !! k = Some entry ->
                      clock k - Timestamp entry <= TTL -> cache' !! k = Some entry)
  /\ (forall k, k <> key -> cache !! k = None -> cache' !! k = None)
  /\ (size cache = 1001%nat ->
      size (filter (fun kv : string * CacheEntry =>
                      TTL < clock kv.1 - Timestamp kv.2) cache) = 5%nat ->
      cache !! key = None ->
      size cache' = 997%nat).
Proof.
  intros Hfull cache'. subst cache'. unfold cacheResult.
  apply Z.ltb_lt in Hfull. rewrite Hfull.
  split; [apply lookup_insert_eq |].
  split; [| split; [| split]].
  - intros k entry Hk Hin Hold.
    rewrite lookup_insert_ne by congruence. rewrite sweep_lookup, Hin.
    apply expired_true in Hold. now rewrite Hold.
  - intros k entry Hk Hin Hfresh.
    rewrite lookup_insert_ne by congruence. rewrite sweep_lookup, Hin.
    apply expired_false in Hfresh. now rewrite Hfresh.
  - intros k Hk Hout.
    rewrite lookup_insert_ne by congruence. now rewrite sweep_lookup, Hout.
  - intros Hsize Hold Hnew.
    rewrite map_size_insert_None by (now rewrite sweep_lookup, Hnew).
    pose proof (sweep_size clock cache) as Hsum. lia.
Qed.

Lemma store_sweeps_expired_entries_witness :
  cacheResult (fun _ => TTL + 1) (TTL + 2) "new" zeroSearchResult full_cache !! "new"
  = Some (mkCacheEntry zeroSearchResult (TTL + 2))
  /\ cacheResult (fun _ => TTL + 1) (TTL + 2) "new" zeroSearchResult full_cache !! "3"
     = None
  /\ cacheResult (fun _ => TTL + 1) (TTL + 2) "new" zeroSearchResult full_cache !! "7"
     = Some (mkCacheEntry zeroSearchResult TTL)
  /\ size (cacheResult (fun _ => TTL + 1) (TTL + 2) "new" zeroSearchResult full_cache)
     = 997%nat.
Proof.
  destruct (store_sweeps_expired_entries (fun _ => TTL + 1) (TTL + 2) "new"
              zeroSearchResult full_cache ltac:(vm_compute; reflexivity))
    as (Hnew & Hold & Hfresh & _ & Hsize).
  split; [exact Hnew |]. split; [| split].
  - apply (Hold "3" (mkCacheEntry zeroSearchResult 0));
      [discriminate | vm_compute; reflexivity | vm_compute; reflexivity].
  - apply (Hfresh "7" (mkCacheEntry zeroSearchResult TTL));
      [discriminate | vm_compute; reflexivity | vm_compute; discriminate].
  - apply Hsize; vm_compute; reflexivity.
Defined.

End ResultCache.

(** ** The search facade *)

Section SearchFacade.
Import GoInt Search Design.

Variable cacheKeyOf : string -> Z -> Z -> string.

Lemma getCachedResult_shrinks (now : Z) (key : string) (cache : Cache) :
  snd (getCachedResult now key cache) ⊆ cache.
Proof.
  unfold getCachedResult. destruct (cache !! key) as [entry|]; [| reflexivity].
  destruct (expired now entry); [apply delete_subseteq | reflexivity].
Qed.

(** When [client.Post] fails or the body does not decode, the error goes
    back to the caller and no entry is put into the cache. *)
Lemma search_failure_is_not_cached (engine : json -> EngineReply)
    (query : string) (from size tLookup : Z) (tSweep : string -> Z) (tStore : Z)
    (cache : Cache) (err : error) :
  snd (fst (getCachedResult tLookup (cacheKeyOf query from size) cache)) = false ->
  (engine (buildEnhancedQuery query from size) = PostError err
   \/ exists status,
       engine (buildEnhancedQuery query from size)
       = Responded status (DecodeError err)) ->
  exists cache',
    searchElasticsearch cacheKeyOf engine query from size tLookup tSweep tStore cache
    = (([], 0, Some err), cache')
    /\ cache' ⊆ cache.
Proof.
  intros Hmiss Hreply. unfold searchElasticsearch.
  pose proof (getCachedResult_shrinks tLookup (cacheKeyOf query from size) cache) as Hsub.
  destruct (getCachedResult tLookup (cacheKeyOf query from size) cache)
    as [[cached found] cache1].
  simpl in Hmiss, Hsub. subst found.
  destruct Hreply as [-> | [status ->]]; eauto.
Qed.

(** C8, at the failing input. Against an engine that answers with status
    500 and a decodable body, a search on an empty cache returns no error,
    an empty result, and stores that empty result in the cache. *)
Theorem search_caches_error_status_reply (query : string)
    (from size tLookup : Z) (tSweep : string -> Z) (tStore : Z) :
  searchElasticsearch cacheKeyOf failing_engine query from size
    tLookup tSweep tStore ∅
  = (([], 0, None),
     {[ cacheKeyOf query from size := mkCacheEntry zeroSearchResult tStore ]}).
Proof. reflexivity. Qed.

(** The poisoned entry is served to the next search within the TTL,
    whatever the engine would answer then. *)
Lemma poisoned_entry_is_served (engine : json -> EngineReply) (query : string)
    (from size tLookup : Z) (tSweep : string -> Z) (tStore t : Z) :
  t - tStore <= TTL ->
  fst (searchElasticsearch cacheKeyOf engine query from size t tSweep t
         (snd (searchElasticsearch cacheKeyOf failing_engine query from size
                 tLookup tSweep tStore ∅)))
  = ([], 0, None).
Proof.
  intros Hfresh.
  change (snd (searchElasticsearch cacheKeyOf failing_engine query from size
                 tLookup tSweep tStore ∅))
    with ({[ cacheKeyOf query from size := mkCacheEntry zeroSearchResult tStore ]}
          : Cache).
  unfold searchElasticsearch, getCachedResult.
  rewrite lookup_singleton_eq.
  assert (Hx : expired t (mkCacheEntry zeroSearchResult tStore) = false)
    by (apply expired_false; exact Hfresh).
  now rewrite Hx.
Qed.

End SearchFacade.

(** ** The fetch worker *)

Section FetchWorker.
Import GoStrings Crawler Design.

Lemma denylisted_cases (s : string) :
  denylisted s = true -> s = "How can we help?" \/ s = "Knowledge Base".
Proof.
  unfold denylisted. rewrite orb_true_iff, !String.eqb_eq. tauto.
Qed.

Lemma is_empty_true (s : string) : is_empty s = true <-> s = "".
Proof. unfold is_empty. apply String.eqb_eq. Qed.

Lemma is_empty_false (s : string) : is_empty s = false <-> s <> "".
Proof. unfold is_empty. apply String.eqb_neq. Qed.

(** A header whose text is a placeholder sets no title. *)
Lemma onHeaderH3_placeholder (a : Article) (text : string) :
  denylisted (TrimSpace text) = true -> onHeaderH3 a text = a.
Proof.
  intros H. unfold onHeaderH3. destruct (is_empty (Title a)); [| reflexivity].
  destruct (denylisted_cases _ H) as [-> | ->]; reflexivity.
Qed.

Lemma onTitle_placeholder (a : Article) (e : string * string) :
  denylisted (TrimSpace (snd e)) = true -> onTitle a e = a.
Proof.
  destruct e as [style text]. simpl. intros H.
  destruct (is_empty (Title a)); [| reflexivity].
  destruct (negb (Contains style "display: none")); [| reflexivity].
  destruct (denylisted_cases _ H) as [-> | ->]; reflexivity.
Qed.

Lemma fold_left_unchanged {A B : Type} (f : A -> B -> A) (P : B -> Prop) :
  (forall a b, P b -> f a b = a) ->
  forall (l : list B) (a : A), Forall P l -> fold_left f l a = a.
Proof.
  intros Hf l. induction l as [|b l IH]; intros a Hl; [reflexivity |].
  inversion Hl; subst. simpl. rewrite Hf by assumption. now apply IH.
Qed.

Lemma fold_left_keeps {A B C : Type} (f : A -> B -> A) (g : A -> C) :
  (forall a b, g (f a b) = g a) ->
  forall (l : list B) (a : A), g (fold_left f l a) = g a.
Proof.
  intros Hf l. induction l as [|b l IH]; intros a; [reflexivity |].
  simpl. now rewrite IH, Hf.
Qed.

Lemma onBody_Title (a : Article) (html : option string) :
  Title (onBody a html) = Title a.
Proof. unfold onBody. destruct (is_empty (Body a)), html; reflexivity. Qed.

Lemma onTime_Title (a : Article) (datetime : string) :
  Title (onTime a datetime) = Title a.
Proof.
  unfold onTime. destruct (negb (is_empty datetime)); [| reflexivity].
  destruct (is_empty (CreatedAt a)); reflexivity.
Qed.

(** With placeholders as the only title candidates the callbacks leave
    the title as they found it. *)
Lemma run_callbacks_no_title (p : Page) (a : Article) :
  Forall (fun text => denylisted (TrimSpace text) = true) (header_h3 p) ->
  Forall (fun e => denylisted (TrimSpace (snd e)) = true) (title_elems p) ->
  Title (run_callbacks p a) = Title a.
Proof.
  intros Hh Ht. unfold run_callbacks.
  rewrite (fold_left_keeps onTime Title onTime_Title).
  rewrite !(fold_left_keeps onBody Title onBody_Title).
  rewrite (fold_left_unchanged onTitle _ onTitle_placeholder _ _ Ht).
  now rewrite (fold_left_unchanged onHeaderH3 _ onHeaderH3_placeholder _ _ Hh).
Qed.

(** C4. An article that [scrapeFullArticle] returns has a title that is
    neither empty nor one of the placeholders "How can we help?" and
    "Knowledge Base", and a body that is not empty. A page whose title
    candidates are all placeholders gives the error "no meaningful title
    found on page" and no article, whatever bodies it carries. *)
Theorem fetched_article_is_valid (articleURL : string) (timeout : Z) (w : World) :
  (forall a, scrapeFullArticle articleURL timeout w = Ok a ->
             Title a <> "" /\ Title a <> "How can we help?"
             /\ Title a <> "Knowledge Base" /\ Body a <> "")
  /\ (forall p,
         response w = Visited p None ->
         Forall (fun text => denylisted (TrimSpace text) = true) (header_h3 p) ->
         Forall (fun e => denylisted (TrimSpace (snd e)) = true) (title_elems p) ->
         scrapeFullArticle articleURL timeout w
         = Err "no meaningful title found on page").
Proof.
  split.
  - intros a. unfold scrapeFullArticle.
    destruct (response w) as [e | p [e|]]; try discriminate.
    set (art := run_callbacks p _).
    destruct (is_empty (Title art) || denylisted (Title art)) eqn:Ht;
      [discriminate |].
    destruct (is_empty (Body art)) eqn:Hb; [discriminate |].
    intros H. injection H as <-.
    apply orb_false_iff in Ht. destruct Ht as [Hne Hdeny].
    unfold denylisted in Hdeny. apply orb_false_iff in Hdeny.
    destruct Hdeny as [H1 H2].
    assert (HT : forall a0 : Article,
               Title a0 = Title art -> Body a0 = Body art ->
               Title a0 <> "" /\ Title a0 <> "How can we help?"
               /\ Title a0 <> "Knowledge Base" /\ Body a0 <> "").
    { intros a0 -> ->. split; [now apply is_empty_false |].
      split; [now apply String.eqb_neq |].
      split; [now apply String.eqb_neq | now apply is_empty_false]. }
    destruct (is_empty (CreatedAt art));
      cbn [with_CreatedAt UpdatedAt];
      destruct (is_empty (UpdatedAt art)); apply HT; reflexivity.
  - intros p Hresp Hh Ht. unfold scrapeFullArticle. rewrite Hresp.
    rewrite (run_callbacks_no_title p _ Hh Ht). reflexivity.
Qed.

Lemma fetched_article_is_valid_witness :
  scrapeFullArticle "https://x/hc/en-us/articles/1-a" 0
    (mkWorld (Visited placeholder_page None) "" "")
  = Err "no meaningful title found on page"
  /\ (Title (mkArticle "1" "Release notes" "<p>Body text</p>"
               "https://x/hc/en-us/articles/1-a" "t1" "t2") <> ""
      /\ Title (mkArticle "1" "Release notes" "<p>Body text</p>"
                  "https://x/hc/en-us/articles/1-a" "t1" "t2")
         <> "How can we help?"
      /\ Title (mkArticle "1" "Release notes" "<p>Body text</p>"
                  "https://x/hc/en-us/articles/1-a" "t1" "t2")
         <> "Knowledge Base"
      /\ Body (mkArticle "1" "Release notes" "<p>Body text</p>"
                 "https://x/hc/en-us/articles/1-a" "t1" "t2") <> "").
Proof.
  split.
  - apply (proj2 (fetched_article_is_valid "https://x/hc/en-us/articles/1-a" 0
                    (mkWorld (Visited placeholder_page None) "" ""))
             placeholder_page).
    + reflexivity.
    + constructor.
    + repeat constructor.
  - apply (proj1 (fetched_article_is_valid "https://x/hc/en-us/articles/1-a" 0
                    (mkWorld (Visited titled_page None) "t1" "t2"))).
    vm_compute. reflexivity.
Defined.

End FetchWorker.

(** ** The loops of [cleanHTML] end within their fuel *)

Section CleanHTML.
Import GoStrings Crawler.

Variables old new : string.

Lemma HasPrefix_length (s prefix : string) :
  HasPrefix s prefix = true -> (String.length prefix <= String.length s)%nat.
Proof.
  revert s. induction prefix as [|p prefix IH]; intros s; simpl; [lia |].
  destruct s as [|c s]; [discriminate |].
  rewrite andb_true_iff. intros [_ H]. apply IH in H. simpl. lia.
Qed.

Lemma length_append (a b : string) :
  String.length (a +:+ b) = (String.length a + String.length b)%nat.
Proof. induction a as [|c a IH]; simpl; [reflexivity | now rewrite IH]. Qed.

Hypothesis shorter : (String.length new < String.length old)%nat.

Lemma replace_from_length (s : string) :
  forall skip,
    (String.length (replace_from old new skip s) <= String.length s - skip)%nat.
Proof.
  induction s as [|c s IH]; intros skip; [simpl; lia |].
  cbn [replace_from]. destruct skip as [|k].
  - destruct (HasPrefix (String c s) old) eqn:E.
    + apply HasPrefix_length in E. rewrite length_append.
      specialize (IH (String.length old - 1)%nat). simpl in E |- *. lia.
    + specialize (IH O). simpl. lia.
  - specialize (IH k). simpl. lia.
Qed.

Lemma ReplaceAll_shrinks (s : string) :
  Contains s old = true ->
  (String.length (ReplaceAll s old new) < String.length s)%nat.
Proof.
  unfold ReplaceAll. induction s as [|c s IH]; cbn [Contains replace_from].
  - rewrite orb_false_r. intros E. apply HasPrefix_length in E. simpl in E. lia.
  - destruct (HasPrefix (String c s) old) eqn:E.
    + intros _. apply HasPrefix_length in E. rewrite length_append.
      pose proof (replace_from_length s (String.length old - 1)) as H.
      simpl in E |- *. lia.
    + rewrite orb_false_l. intros H. apply IH in H. simpl. lia.
Qed.

(** A loop given at least [length html] rounds stops because no [old] is
    left, not because the rounds ran out. *)
Lemma replace_while_done (fuel : nat) :
  forall html,
    (String.length html <= fuel)%nat ->
    Contains (replace_while fuel html old new) old = false.
Proof.
  induction fuel as [|fuel IH]; intros html Hlen; cbn [replace_while].
  - destruct html; [| simpl in Hlen; lia].
    destruct old; [simpl in shorter; lia | reflexivity].
  - destruct (Contains html old) eqn:E; [| exact E].
    apply IH. apply ReplaceAll_shrinks in E. lia.
Qed.

End CleanHTML.

(** ** The retry loop of one worker *)

Section RetryLoop.
Import GoInt GoStrings Crawler Design.

Lemma wrap64_small (z : Z) : in_int64 z -> wrap64 z = z.
Proof.
  unfold in_int64, min_int64, max_int64, wrap64.
  change (2 ^ 63) with 9223372036854775808.
  change (2 ^ 64) with 18446744073709551616.
  intros H. rewrite Z.mod_small; lia.
Qed.

Variable cfg : Config.
Variable url : string.
Variable jitter : Z.
Variable world : nat -> World.

Lemma attempts_made_app (tr1 tr2 : list Event) :
  attempts_made (tr1 ++ tr2) = (attempts_made tr1 + attempts_made tr2)%nat.
Proof. unfold attempts_made. now rewrite filter_app, length_app. Qed.

Lemma attempts_made_before_fetch (a : Z) :
  attempts_made (before_fetch cfg url jitter a) = 0%nat.
Proof. unfold before_fetch. destruct (0 <? a), (a =? 0); reflexivity. Qed.

Lemma attempts_made_scrape (u : string) (t : Z) (tr : list Event) :
  attempts_made (Scrape u t :: tr) = S (attempts_made tr).
Proof. reflexivity. Qed.

Lemma attempts_made_send (r : FetchResult) : attempts_made [Send r] = 0%nat.
Proof. reflexivity. Qed.

Lemma sends_app (tr1 tr2 : list Event) : sends (tr1 ++ tr2) = sends tr1 ++ sends tr2.
Proof.
  induction tr1 as [|e tr1 IH]; [reflexivity |].
  destruct e; simpl; now rewrite ?IH.
Qed.

Lemma sends_before_fetch (a : Z) : sends (before_fetch cfg url jitter a) = [].
Proof. unfold before_fetch. destruct (0 <? a), (a =? 0); reflexivity. Qed.

(** No more fetches than the budget, and one result. *)
Lemma attempts_trace_bound (n : nat) :
  forall (calls : nat) (a : Z) (lastErr : option Crawler.error),
    (attempts_made (attempts_trace cfg url jitter world n calls a lastErr) <= n)%nat
    /\ length (sends (attempts_trace cfg url jitter world n calls a lastErr)) = 1%nat.
Proof.
  induction n as [|n IH]; intros calls a lastErr; cbn [attempts_trace].
  - split; [apply Nat.le_refl | reflexivity].
  - rewrite attempts_made_app, attempts_made_before_fetch.
    rewrite sends_app, sends_before_fetch.
    destruct (scrapeFullArticle url (RequestTimeout cfg) (world calls)) as [art|err].
    + rewrite attempts_made_scrape, attempts_made_send.
      split; [lia | reflexivity].
    + destruct (IH (S calls) (a + 1) (Some err)) as [Hle Hone].
      split; [| exact Hone].
      rewrite attempts_made_scrape. lia.
Qed.

(** When every fetch of the budget fails, the budget is used up and the
    result carries the error of the last fetch (or, with no budget at
    all, the error the loop was entered with). *)
Lemma attempts_trace_all_fail (n : nat) :
  forall (calls : nat) (a : Z) (lastErr : option Crawler.error),
    (forall i, (i < n)%nat ->
               exists e, scrapeFullArticle url (RequestTimeout cfg)
                           (world (calls + i)%nat) = Err e) ->
    attempts_made (attempts_trace cfg url jitter world n calls a lastErr) = n
    /\ exists last,
        sends (attempts_trace cfg url jitter world n calls a lastErr)
        = [mkFetchResult None last url (MaxRetries cfg)]
        /\ match n with
           | O => last = lastErr
           | S n' =>
               exists e, scrapeFullArticle url (RequestTimeout cfg)
                           (world (calls + n')%nat) = Err e
                         /\ last = Some e
           end.
Proof.
  induction n as [|n IH]; intros calls a lastErr Hfail; cbn [attempts_trace].
  - split; [reflexivity |]. now exists lastErr.
  - rewrite attempts_made_app, attempts_made_before_fetch.
    rewrite sends_app, sends_before_fetch.
    destruct (Hfail O ltac:(lia)) as [e0 He0].
    rewrite Nat.add_0_r in He0. rewrite He0.
    destruct (IH (S calls) (a + 1) (Some e0)) as [Hmade (last & Hsend & Hlast)].
    { intros i Hi. destruct (Hfail (S i) ltac:(lia)) as [e He].
      exists e. now replace (S calls + i)%nat with (calls + S i)%nat by lia. }
    split.
    + rewrite attempts_made_scrape. cbn [Nat.add]. now rewrite Hmade.
    + exists last. split; [exact Hsend |].
      destruct n as [|n'].
      * subst last. exists e0. now rewrite Nat.add_0_r.
      * destruct Hlast as (e & He & ->). exists e. split; [| reflexivity].
        now replace (calls + S n')%nat with (S calls + n')%nat by lia.
Qed.

Lemma sleeps_from_before_fetch (acc : list Z) (a : Z) (u : string) (t : Z)
    (rest : list Event) :
  sleeps_from acc (before_fetch cfg url jitter a ++ Scrape u t :: rest)
  = (acc ++ sleeps_of (before_fetch cfg url jitter a)) :: sleeps_from [] rest.
Proof.
  unfold before_fetch. destruct (0 <? a), (a =? 0); cbn;
    rewrite <- ?app_assoc, ?app_nil_r; reflexivity.
Qed.

(** The sleeps before the [k]-th fetch of the trace are those of the
    loop body entered with attempt number [a + k]. *)
Lemma attempts_trace_sleeps (n : nat) :
  forall (calls : nat) (a : Z) (lastErr : option Crawler.error)
         (k : nat) (ds : list Z),
    sleeps_before_fetch (attempts_trace cfg url jitter world n calls a lastErr) !! k
    = Some ds ->
    (k < n)%nat
    /\ ds = sleeps_of (before_fetch cfg url jitter (a + Z.of_nat k)).
Proof.
  unfold sleeps_before_fetch.
  induction n as [|n IH]; intros calls a lastErr k ds; cbn [attempts_trace].
  - cbn. discriminate.
  - rewrite sleeps_from_before_fetch. destruct k as [|k]; cbn [lookup list_lookup].
    + intros H. injection H as <-. split; [lia |].
      now rewrite Z.add_0_r.
    + destruct (scrapeFullArticle url (RequestTimeout cfg) (world calls)) as [art|err].
      * cbn. discriminate.
      * intros H. apply IH in H. destruct H as [Hk ->]. split; [lia |].
        f_equal. f_equal. lia.
Qed.

Hypothesis retries_in_range : 0 <= MaxRetries cfg < max_int64.

(** With fuel for every attempt, the loop runs to its end and its trace is
    [attempts_trace]. *)
Lemma worker_loop_trace (n : nat) :
  forall (fuel calls : nat) (a : Z) (lastErr : option Crawler.error),
    0 <= a -> a + Z.of_nat n = MaxRetries cfg + 1 -> (n < fuel)%nat ->
    worker_loop cfg url jitter world fuel calls a lastErr
    = Some (attempts_trace cfg url jitter world n calls a lastErr).
Proof.
  induction n as [|n IH]; intros fuel calls a lastErr Ha Hn Hfuel;
    (destruct fuel as [|fuel]; [lia |]); cbn [worker_loop attempts_trace];
    unfold iteration.
  - replace (a <=? MaxRetries cfg) with false by (symmetry; apply Z.leb_gt; lia).
    reflexivity.
  - replace (a <=? MaxRetries cfg) with true by (symmetry; apply Z.leb_le; lia).
    destruct (scrapeFullArticle url (RequestTimeout cfg) (world calls)) as [art|err].
    + now rewrite <- app_assoc.
    + unfold add64. rewrite wrap64_small
        by (unfold in_int64, min_int64, max_int64 in *;
            change (2 ^ 63) with 9223372036854775808 in *; lia).
      rewrite (IH fuel (S calls) (a + 1) (Some err)) by lia.
      now rewrite <- app_assoc.
Qed.

Lemma worker_trace :
  worker cfg url jitter world
  = Some (attempts_trace cfg url jitter world
            (Z.to_nat (MaxRetries cfg + 1)) 0 0 None).
Proof. unfold worker. apply worker_loop_trace; lia. Qed.

End RetryLoop.

(** ** Retry policy *)

Section RetryPolicy.
Import GoInt GoStrings Crawler Design.

(** C2. A worker makes at most [MaxRetries + 1] fetch attempts for its
    target and sends one result; when every attempt fails, that result has
    no article, carries the error of the last attempt, and all
    [MaxRetries + 1] attempts were made. *)
Theorem attempts_bounded_and_last_error_reported (cfg : Config) (url : string)
    (jitter : Z) (world : nat -> World) :
  0 <= MaxRetries cfg < max_int64 ->
  exists tr,
    worker cfg url jitter world = Some tr
    /\ Z.of_nat (attempts_made tr) <= MaxRetries cfg + 1
    /\ length (sends tr) = 1%nat
    /\ ((forall i : nat,
            Z.of_nat i <= MaxRetries cfg ->
            exists e, scrapeFullArticle url (RequestTimeout cfg) (world i) = Err e) ->
        exists last,
          scrapeFullArticle url (RequestTimeout cfg)
            (world (Z.to_nat (MaxRetries cfg))) = Err last
          /\ sends tr = [mkFetchResult None (Some last) url (MaxRetries cfg)]
          /\ Z.of_nat (attempts_made tr) = MaxRetries cfg + 1).
Proof.
  intros Hrange. eexists. split; [now apply worker_trace |].
  set (n := Z.to_nat (MaxRetries cfg + 1)).
  destruct (attempts_trace_bound cfg url jitter world n 0 0 None) as [Hle Hone].
  split; [lia |]. split; [exact Hone |].
  intros Hfail.
  destruct (attempts_trace_all_fail cfg url jitter world n 0 0 None)
    as [Hmade (last & Hsend & Hlast)].
  { intros i Hi. apply Hfail. lia. }
  replace n with (S (Z.to_nat (MaxRetries cfg))) in Hlast by lia.
  destruct Hlast as (e & He & ->). exists e.
  split; [exact He |]. split; [exact Hsend | lia].
Qed.

Lemma attempts_bounded_and_last_error_reported_witness :
  exists tr,
    worker mainConfig "https://x/hc/en-us/articles/1-a" 17 (fun _ => malformed)
    = Some tr
    /\ Z.of_nat (attempts_made tr) <= 3 + 1
    /\ length (sends tr) = 1%nat
    /\ ((forall i : nat,
            Z.of_nat i <= 3 ->
            exists e, scrapeFullArticle "https://x/hc/en-us/articles/1-a"
                        (30 * Second) malformed = Err e) ->
        exists last,
          scrapeFullArticle "https://x/hc/en-us/articles/1-a" (30 * Second)
            malformed = Err last
          /\ sends tr = [mkFetchResult None (Some last)
                           "https://x/hc/en-us/articles/1-a" 3]
          /\ Z.of_nat (attempts_made tr) = 3 + 1).
Proof.
  apply (attempts_bounded_and_last_error_reported mainConfig
           "https://x/hc/en-us/articles/1-a" 17 (fun _ => malformed)).
  vm_compute. split; [discriminate | reflexivity].
Defined.

(** What the worker of [main]'s configuration does on a target that is
    refused on every call, with jitter 17. *)
Lemma worker_on_malformed :
  worker mainConfig "https://x/hc/en-us/articles/1-a" 17 (fun _ => malformed)
  = Some [Sleep (217 * Millisecond);
          Scrape "https://x/hc/en-us/articles/1-a" (30 * Second);
          Sleep (200 * Millisecond);
          Retrying "https://x/hc/en-us/articles/1-a" 1 3;
          Scrape "https://x/hc/en-us/articles/1-a" (30 * Second);
          Sleep (400 * Millisecond);
          Retrying "https://x/hc/en-us/articles/1-a" 2 3;
          Scrape "https://x/hc/en-us/articles/1-a" (30 * Second);
          Sleep (600 * Millisecond);
          Retrying "https://x/hc/en-us/articles/1-a" 3 3;
          Scrape "https://x/hc/en-us/articles/1-a" (30 * Second);
          Send (mkFetchResult None (Some "error visiting page: invalid URL")
                  "https://x/hc/en-us/articles/1-a" 3)].
Proof. vm_compute. reflexivity. Qed.

(** C3, as written, fails on that run: before the second fetch the worker
    sleeps 200ms in all, the backoff alone, where the document's courtesy
    delay on top of it would make at least 400ms. *)
Lemma delays_as_written_fail_on_retry :
  ~ delays_as_written mainConfig "https://x/hc/en-us/articles/1-a" 17
      (fun _ => malformed).
Proof.
  intros H.
  destruct (H _ worker_on_malformed 1%nat [200 * Millisecond] eq_refl)
    as (j & Hj & Htotal).
  unfold total in Htotal. cbn [fold_right FetchDelay mainConfig] in Htotal.
  unfold Millisecond in *. lia.
Qed.

(** C3, amended. Before the first fetch of a target the worker sleeps
    once, for [FetchDelay] plus a jitter of [0..299] milliseconds; before
    retry [k >= 1] it sleeps once, for [k * FetchDelay], with no courtesy
    delay and no jitter (durations within the range of a Duration). *)
Theorem delays_before_each_fetch (cfg : Config) (url : string) (jitter : Z)
    (world : nat -> World) :
  0 <= MaxRetries cfg < max_int64 ->
  0 <= jitter < 300 ->
  0 <= FetchDelay cfg ->
  FetchDelay cfg + 300 * Millisecond <= max_int64 ->
  MaxRetries cfg * FetchDelay cfg <= max_int64 ->
  exists tr,
    worker cfg url jitter world = Some tr
    /\ forall (k : nat) (ds : list Z),
        sleeps_before_fetch tr !! k = Some ds ->
        (k = 0%nat -> ds = [FetchDelay cfg + jitter * Millisecond])
        /\ ((1 <= k)%nat -> ds = [Z.of_nat k * FetchDelay cfg]).
Proof.
  intros Hrange Hj Hd Hcourtesy Hbackoff.
  eexists. split; [now apply worker_trace |].
  intros k ds Hk. apply attempts_trace_sleeps in Hk. destruct Hk as [Hlt ->].
  rewrite Z.add_0_l. unfold before_fetch.
  assert (Hin : forall z, 0 <= z <= max_int64 -> in_int64 z).
  { unfold in_int64, min_int64, max_int64.
    change (2 ^ 63) with 9223372036854775808. lia. }
  split.
  - intros ->.
    change (0 <? Z.of_nat 0) with false. change (Z.of_nat 0 =? 0) with true.
    cbn [app sleeps_of]. unfold add64, mul64.
    rewrite (wrap64_small (jitter * Millisecond)).
    + rewrite wrap64_small; [reflexivity |].
      apply Hin. unfold Millisecond in *. lia.
    + apply Hin. unfold max_int64, Millisecond.
      change (2 ^ 63) with 9223372036854775808. lia.
  - intros Hk.
    replace (0 <? Z.of_nat k) with true by (symmetry; apply Z.ltb_lt; lia).
    replace (Z.of_nat k =? 0) with false by (symmetry; apply Z.eqb_neq; lia).
    cbn [app sleeps_of]. unfold mul64. rewrite wrap64_small; [reflexivity |].
    apply Hin. nia.
Qed.

Lemma delays_before_each_fetch_witness :
  exists tr,
    worker mainConfig "https://x/hc/en-us/articles/1-a" 17 (fun _ => malformed)
    = Some tr
    /\ forall (k : nat) (ds : list Z),
        sleeps_before_fetch tr !! k = Some ds ->
        (k = 0%nat -> ds = [200 * Millisecond + 17 * Millisecond])
        /\ ((1 <= k)%nat -> ds = [Z.of_nat k * (200 * Millisecond)]).
Proof.
  apply (delays_before_each_fetch mainConfig
           "https://x/hc/en-us/articles/1-a" 17 (fun _ => malformed));
    vm_compute; try (split; [discriminate | reflexivity]); discriminate.
Defined.

(** C9, as written, fails on the same run: the target is refused by
    [c.Visit] on attempt 0 and is fetched four times. *)
Lemma terminal_failure_as_written_fails :
  ~ terminal_failure_as_written mainConfig "https://x/hc/en-us/articles/1-a" 17
      (fun _ => malformed).
Proof.
  intros H. specialize (H "invalid URL" _ eq_refl worker_on_malformed).
  vm_compute in H. discriminate.
Qed.

(** C9, amended. No failure is terminal: a target that [c.Visit] refuses
    on every call is fetched [MaxRetries + 1] times like any other failing
    target, and its one result carries the last refusal with
    [Retries = MaxRetries]. *)
Theorem refused_target_uses_whole_budget (cfg : Config) (url : string)
    (jitter : Z) (world : nat -> World) :
  0 <= MaxRetries cfg < max_int64 ->
  (forall i : nat, exists e, response (world i) = VisitError e) ->
  exists tr last,
    worker cfg url jitter world = Some tr
    /\ Z.of_nat (attempts_made tr) = MaxRetries cfg + 1
    /\ response (world (Z.to_nat (MaxRetries cfg))) = VisitError last
    /\ sends tr
       = [mkFetchResult None (Some ("error visiting page: " +:+ last)) url
            (MaxRetries cfg)].
Proof.
  intros Hrange Hrefused.
  set (n := Z.to_nat (MaxRetries cfg + 1)).
  destruct (attempts_trace_all_fail cfg url jitter world n 0 0 None)
    as [Hmade (last & Hsend & Hlast)].
  { intros i _. destruct (Hrefused (0 + i)%nat) as [e He].
    exists ("error visiting page: " +:+ e).
    unfold scrapeFullArticle. now rewrite He. }
  replace n with (S (Z.to_nat (MaxRetries cfg))) in Hlast by lia.
  destruct Hlast as (e & He & ->).
  destruct (Hrefused (Z.to_nat (MaxRetries cfg))) as [r Hr].
  unfold scrapeFullArticle in He. cbn [Nat.add] in He. rewrite Hr in He.
  injection He as <-.
  exists (attempts_trace cfg url jitter world n 0 0 None), r.
  split; [now apply worker_trace |]. split; [lia |]. split; [exact Hr | exact Hsend].
Qed.

Lemma refused_target_uses_whole_budget_witness :
  exists tr last,
    worker mainConfig "https://x/hc/en-us/articles/1-a" 17 (fun _ => malformed)
    = Some tr
    /\ Z.of_nat (attempts_made tr) = 3 + 1
    /\ response malformed = VisitError last
    /\ sends tr
       = [mkFetchResult None (Some ("error visiting page: " +:+ last))
            "https://x/hc/en-us/articles/1-a" 3].
Proof.
  apply (refused_target_uses_whole_budget mainConfig
           "https://x/hc/en-us/articles/1-a" 17 (fun _ => malformed)).
  - vm_compute. split; [discriminate | reflexivity].
  - intros _. now exists "invalid URL".
Defined.

End RetryPolicy.

(** ** The crawl orchestrator *)

Section Orchestrator.
Import GoInt GoStrings Crawler Design.

Lemma slots_cons (g : Goroutine) (l : list Goroutine) :
  slots (g :: l) = ((if holds_slot g then 1 else 0) + slots l)%nat.
Proof.
  unfold slots. rewrite filter_cons.
  destruct (decide (holds_slot g = true)) as [H|H].
  - now rewrite H.
  - apply not_true_is_false in H. now rewrite H.
Qed.

Lemma slots_app (l1 l2 : list Goroutine) :
  slots (l1 ++ l2) = (slots l1 + slots l2)%nat.
Proof. unfold slots. now rewrite filter_app, length_app. Qed.

(** Replacing goroutine [i]: its old state leaves the count, the new one
    enters it. *)
Lemma slots_insert (l : list Goroutine) :
  forall (i : nat) (old new : Goroutine),
    l !! i = Some old ->
    (slots (<[i := new]> l) + (if holds_slot old then 1 else 0)
     = slots l + (if holds_slot new then 1 else 0))%nat.
Proof.
  induction l as [|g l IH]; intros i old new Hi; [discriminate |].
  destruct i as [|i]; simpl in Hi.
  - injection Hi as ->.
    change (<[0%nat := new]> (old :: l)) with (new :: l).
    rewrite !slots_cons. lia.
  - change (<[S i := new]> (g :: l)) with (g :: <[i := new]> l).
    rewrite !slots_cons. specialize (IH i old new Hi). lia.
Qed.

Lemma gate_ok_init (articleURLs : list string) (cfg : Config) (s0 : Crawl) :
  fetchArticlesConcurrently articleURLs cfg = Some s0 -> gate_ok cfg s0.
Proof.
  unfold fetchArticlesConcurrently.
  destruct (FetchConcurrency cfg <? 0) eqn:E; [discriminate |].
  intros H. injection H as <-. apply Z.ltb_ge in E.
  unfold gate_ok. change (in_flight _) with 0%nat. cbn [sem_len sem_cap]. lia.
Qed.

Lemma in_flight_slots (s : Crawl) : in_flight s = slots (goroutines s).
Proof. reflexivity. Qed.

Ltac crawl_fields := cbn [goroutines sem_len sem_cap pending results closed].

Lemma gate_ok_step (cfg : Config) (l : Label) (s s' : Crawl) :
  gate_ok cfg s -> step cfg l s = Some s' -> gate_ok cfg s'.
Proof.
  unfold gate_ok. rewrite !in_flight_slots.
  intros (Hcount & Hle & Hcap) Hstep.
  destruct l as [| i | i j w | i |]; cbn [step] in Hstep.
  - destruct (pending s) as [|u rest]; [discriminate |].
    injection Hstep as <-. crawl_fields. rewrite slots_app.
    change (slots [Blocked u]) with 0%nat. lia.
  - destruct (goroutines s !! i) as [[u | | |]|] eqn:Hi; try discriminate.
    destruct (sem_len s <? sem_cap s) eqn:Hroom; [| discriminate].
    injection Hstep as <-. crawl_fields. apply Z.ltb_lt in Hroom.
    pose proof (slots_insert _ i _ (Running u 0 None) Hi) as H.
    unfold set_goroutine. cbn [holds_slot] in H. lia.
  - destruct (goroutines s !! i) as [[| u a e | |]|] eqn:Hi; try discriminate.
    destruct (snd (iteration cfg u j w a e)) as [a' e' | r];
      injection Hstep as <-; crawl_fields; unfold set_goroutine.
    + pose proof (slots_insert _ i _ (Running u a' e') Hi) as H.
      cbn [holds_slot] in H. lia.
    + pose proof (slots_insert _ i _ (Sent u) Hi) as H.
      cbn [holds_slot] in H. lia.
  - destruct (goroutines s !! i) as [[| | u |]|] eqn:Hi; try discriminate.
    injection Hstep as <-. crawl_fields. unfold set_goroutine.
    pose proof (slots_insert _ i _ Exited Hi) as H. cbn [holds_slot] in H. lia.
  - destruct (pending s); [| discriminate].
    destruct (forallb is_exited (goroutines s) && negb (closed s));
      [| discriminate].
    injection Hstep as <-. crawl_fields. lia.
Qed.

Lemma gate_ok_run (cfg : Config) (ls : list Label) :
  forall s s', gate_ok cfg s -> run cfg ls s = Some s' -> gate_ok cfg s'.
Proof.
  induction ls as [|l ls IH]; intros s s' Hok Hrun; cbn [run] in Hrun.
  - now injection Hrun as <-.
  - destruct (step cfg l s) as [s1|] eqn:Hstep; [| discriminate].
    eapply IH; [| exact Hrun]. eapply gate_ok_step; eassumption.
Qed.

(** C1. In every state a crawl can reach, under any schedule and for any
    number of targets, the goroutines in flight are exactly the ones
    counted by the semaphore and there are no more than
    [FetchConcurrency] of them; once that many are in flight, no other
    goroutine gets past its send on the semaphore. *)
Theorem in_flight_never_exceeds_concurrency (articleURLs : list string)
    (cfg : Config) (ls : list Label) (s0 s : Crawl) :
  fetchArticlesConcurrently articleURLs cfg = Some s0 ->
  run cfg ls s0 = Some s ->
  Z.of_nat (in_flight s) <= FetchConcurrency cfg
  /\ Z.of_nat (in_flight s) = sem_len s
  /\ (Z.of_nat (in_flight s) = FetchConcurrency cfg ->
      forall i, step cfg (Acquire i) s = None).
Proof.
  intros Hinit Hrun.
  destruct (gate_ok_run cfg ls s0 s (gate_ok_init _ _ _ Hinit) Hrun)
    as (Hcount & Hle & Hcap).
  split; [lia |]. split; [exact Hcount |].
  intros Hfull i. cbn [step].
  destruct (goroutines s !! i) as [[u | | |]|]; try reflexivity.
  replace (sem_len s <? sem_cap s) with false; [reflexivity |].
  symmetry. apply Z.ltb_ge. lia.
Qed.

Lemma in_flight_never_exceeds_concurrency_witness :
  exists s,
    run two_slots sample_schedule
      (mkCrawl 2 0 three_targets [] [] false) = Some s
    /\ in_flight s = 2%nat
    /\ Z.of_nat (in_flight s) <= 2
    /\ step two_slots (Acquire 1) s = None.
Proof.
  eexists. split; [vm_compute; reflexivity |].
  split; [vm_compute; reflexivity |].
  match goal with
  | |- Z.of_nat (in_flight ?s) <= 2 /\ _ =>
      destruct (in_flight_never_exceeds_concurrency three_targets two_slots
                  sample_schedule (mkCrawl 2 0 three_targets [] [] false) s
                  eq_refl ltac:(vm_compute; reflexivity))
        as (Hle & _ & Hfull)
  end.
  split; [exact Hle |]. apply Hfull. vm_compute. reflexivity.
Defined.

End Orchestrator.

(** ** The crawl as a whole *)

Section CrawlRuns.
Import GoInt GoStrings Crawler Design.

Lemma countp_cons (p : Goroutine -> bool) (g : Goroutine) (l : list Goroutine) :
  countp p (g :: l) = ((if p g then 1 else 0) + countp p l)%nat.
Proof.
  unfold countp. rewrite filter_cons.
  destruct (decide (p g = true)) as [H|H].
  - now rewrite H.
  - apply not_true_is_false in H. now rewrite H.
Qed.

Lemma countp_app (p : Goroutine -> bool) (l1 l2 : list Goroutine) :
  countp p (l1 ++ l2) = (countp p l1 + countp p l2)%nat.
Proof. unfold countp. now rewrite filter_app, length_app. Qed.

Lemma countp_insert (p : Goroutine -> bool) (l : list Goroutine) :
  forall (i : nat) (old new : Goroutine),
    l !! i = Some old ->
    (countp p (<[i := new]> l) + (if p old then 1 else 0)
     = countp p l + (if p new then 1 else 0))%nat.
Proof.
  induction l as [|g l IH]; intros i old new Hi; [discriminate |].
  destruct i as [|i]; simpl in Hi.
  - injection Hi as ->.
    change (<[0%nat := new]> (old :: l)) with (new :: l).
    rewrite !countp_cons. lia.
  - change (<[S i := new]> (g :: l)) with (g :: <[i := new]> l).
    rewrite !countp_cons. specialize (IH i old new Hi). lia.
Qed.


Lemma countp_none (p : Goroutine -> bool) (l : list Goroutine) :
  Forall (fun g => p g = false) l -> countp p l = 0%nat.
Proof.
  induction 1 as [|g l Hg _ IH]; [reflexivity |].
  rewrite countp_cons, Hg, IH. reflexivity.
Qed.

Lemma countp_all (p : Goroutine -> bool) (l : list Goroutine) :
  Forall (fun g => p g = true) l -> countp p l = length l.
Proof.
  induction 1 as [|g l Hg _ IH]; [reflexivity |].
  rewrite countp_cons, Hg, IH. reflexivity.
Qed.

Lemma first_index_some (p : Goroutine -> bool) (l : list Goroutine) :
  forall i, first_index p l = Some i -> exists g, l !! i = Some g /\ p g = true.
Proof.
  induction l as [|g l IH]; intros i; [discriminate |].
  cbn [first_index]. destruct (p g) eqn:Hp.
  - intros H. injection H as <-. now exists g.
  - destruct (first_index p l) as [j|]; [| discriminate].
    intros H. injection H as <-. destruct (IH j eq_refl) as (g' & Hl & Hg').
    now exists g'.
Qed.

Lemma first_index_none (p : Goroutine -> bool) (l : list Goroutine) :
  first_index p l = None -> Forall (fun g => p g = false) l.
Proof.
  induction l as [|g l IH]; [constructor |].
  cbn [first_index]. destruct (p g) eqn:Hp; [discriminate |].
  destruct (first_index p l); [discriminate |].
  intros _. constructor; [exact Hp | now apply IH].
Qed.

(** Reachable states keep the gate's count (as for C1, from the start). *)
Lemma reachable_gate_ok (articleURLs : list string) (cfg : Config)
    (ls : list Label) (s0 s : Crawl) :
  fetchArticlesConcurrently articleURLs cfg = Some s0 ->
  run cfg ls s0 = Some s -> gate_ok cfg s.
Proof.
  intros Hinit Hrun. eapply gate_ok_run; [| exact Hrun].
  eapply gate_ok_init. exact Hinit.
Qed.

(** X1. A crawl with at least one slot is never stuck: in every reachable
    state whose results channel is still open, [next_move] is enabled. *)
Theorem crawl_is_never_stuck (articleURLs : list string) (cfg : Config)
    (ls : list Label) (s0 s : Crawl) (w : World) :
  fetchArticlesConcurrently articleURLs cfg = Some s0 ->
  run cfg ls s0 = Some s ->
  1 <= FetchConcurrency cfg ->
  closed s = false ->
  exists s', step cfg (next_move w s) s = Some s'.
Proof.
  intros Hinit Hrun Hslots Hopen.
  destruct (reachable_gate_ok _ _ _ _ _ Hinit Hrun) as (Hcount & Hle & Hcap).
  unfold next_move. destruct (pending s) as [|u rest] eqn:Hp.
  2:{ cbn [step]. rewrite Hp. eauto. }
  destruct (first_index is_running (goroutines s)) as [i|] eqn:Hrunning.
  { apply first_index_some in Hrunning. destruct Hrunning as (g & Hi & Hg).
    destruct g; try discriminate. cbn [step]. rewrite Hi.
    destruct (snd _); eauto. }
  destruct (first_index is_sent (goroutines s)) as [i|] eqn:Hsent.
  { apply first_index_some in Hsent. destruct Hsent as (g & Hi & Hg).
    destruct g; try discriminate. cbn [step]. rewrite Hi. eauto. }
  apply first_index_none in Hrunning. apply first_index_none in Hsent.
  assert (Hfree : in_flight s = 0%nat).
  { change (in_flight s) with (countp holds_slot (goroutines s)).
    apply countp_none. rewrite Forall_forall in *. intros g Hg.
    specialize (Hrunning g Hg). specialize (Hsent g Hg).
    destruct g; simpl in *; congruence. }
  destruct (first_index is_blocked (goroutines s)) as [i|] eqn:Hblocked.
  { apply first_index_some in Hblocked. destruct Hblocked as (g & Hi & Hg).
    destruct g; try discriminate. cbn [step]. rewrite Hi.
    replace (sem_len s <? sem_cap s) with true; [eauto |].
    symmetry. apply Z.ltb_lt. lia. }
  apply first_index_none in Hblocked.
  cbn [step]. rewrite Hp, Hopen.
  replace (forallb is_exited (goroutines s)) with true; [eauto |].
  symmetry. apply forallb_forall. intros g Hg. apply list_elem_of_In in Hg.
  rewrite Forall_forall in *.
  specialize (Hrunning g Hg). specialize (Hsent g Hg). specialize (Hblocked g Hg).
  destruct g; simpl in *; congruence.
Qed.

Lemma iteration_continue (cfg : Config) (u : string) (j : Z) (w : World)
    (a : Z) (e : option Crawler.error) (a' : Z) (e' : option Crawler.error) :
  snd (iteration cfg u j w a e) = Continue a' e' ->
  a <= MaxRetries cfg /\ a' = add64 a 1
  /\ exists err, e' = Some err
                 /\ scrapeFullArticle u (RequestTimeout cfg) w = Err err.
Proof.
  unfold iteration. destruct (a <=? MaxRetries cfg) eqn:Ha; [| discriminate].
  apply Z.leb_le in Ha.
  destruct (scrapeFullArticle u (RequestTimeout cfg) w) as [art|err];
    [discriminate |].
  cbn [snd]. intros H. injection H as <- <-. eauto.
Qed.

Lemma iteration_deliver (cfg : Config) (u : string) (j : Z) (w : World)
    (a : Z) (e : option Crawler.error) (r : FetchResult) :
  snd (iteration cfg u j w a e) = Deliver r ->
  (a <= MaxRetries cfg
   /\ exists article,
       scrapeFullArticle u (RequestTimeout cfg) w = Ok article
       /\ r = mkFetchResult (Some article) None u a)
  \/ (MaxRetries cfg < a /\ r = mkFetchResult None e u (MaxRetries cfg)).
Proof.
  unfold iteration. destruct (a <=? MaxRetries cfg) eqn:Ha.
  - apply Z.leb_le in Ha.
    destruct (scrapeFullArticle u (RequestTimeout cfg) w) as [art|err];
      [| discriminate].
    cbn [snd]. intros H. injection H as <-. left. eauto.
  - apply Z.leb_gt in Ha. cbn [snd]. intros H. injection H as <-. now right.
Qed.

Ltac crawl_fields := cbn [goroutines sem_len sem_cap pending results closed].

(** The cases of one enabled move. *)
Ltac step_cases Hstep :=
  match type of Hstep with
  | step _ ?l ?s = Some _ =>
      let i := fresh "i" in
      let j := fresh "j" in
      let w := fresh "w" in
      let u := fresh "u" in
      destruct l as [| i | i j w | i |]; cbn [step] in Hstep;
      [ destruct (pending s) as [|u ?rest] eqn:Hpend; [discriminate |];
        injection Hstep as <-
      | destruct (goroutines s !! i) as [[u | | |]|] eqn:Hi; try discriminate;
        destruct (sem_len s <? sem_cap s) eqn:Hroom; [| discriminate];
        injection Hstep as <-
      | destruct (goroutines s !! i) as [[| u ?a ?e | |]|] eqn:Hi;
        try discriminate;
        destruct (snd (iteration _ u j w _ _)) as [?a' ?e' | ?r] eqn:Hiter;
        injection Hstep as <-
      | destruct (goroutines s !! i) as [[| | u |]|] eqn:Hi; try discriminate;
        injection Hstep as <-
      | destruct (pending s) eqn:Hpend; [| discriminate];
        destruct (forallb is_exited (goroutines s) && negb (closed s)) eqn:Hdone;
        [| discriminate];
        injection Hstep as <- ];
      crawl_fields; unfold set_goroutine
  end.

Lemma list_sum_insert (f : Goroutine -> nat) (l : list Goroutine) :
  forall (i : nat) (old new : Goroutine),
    l !! i = Some old ->
    (list_sum (map f (<[i := new]> l)) + f old
     = list_sum (map f l) + f new)%nat.
Proof.
  induction l as [|g l IH]; intros i old new Hi; [discriminate |].
  destruct i as [|i]; simpl in Hi.
  - injection Hi as ->.
    change (<[0%nat := new]> (old :: l)) with (new :: l). simpl. lia.
  - change (<[S i := new]> (g :: l)) with (g :: <[i := new]> l).
    simpl. specialize (IH i old new Hi). lia.
Qed.

Lemma list_sum_snoc (f : Goroutine -> nat) (l : list Goroutine) (g : Goroutine) :
  list_sum (map f (l ++ [g])) = (list_sum (map f l) + f g)%nat.
Proof. rewrite map_app, list_sum_app. simpl. lia. Qed.

(** Every move uses up one of the moves that are left. *)
Lemma step_uses_a_move (cfg : Config) (l : Label) (s s' : Crawl) :
  MaxRetries cfg < max_int64 ->
  attempts_nonneg s ->
  step cfg l s = Some s' ->
  (moves_left cfg s' < moves_left cfg s)%nat /\ attempts_nonneg s'.
Proof.
  unfold moves_left, attempts_nonneg. intros Hmax Hnn Hstep.
  step_cases Hstep.
  - rewrite list_sum_snoc. cbn [steps_left length]. split; [lia |].
    apply Forall_app. split; [exact Hnn | now repeat constructor].
  - pose proof (list_sum_insert (steps_left cfg) _ i _ (Running u 0 None) Hi) as H.
    cbn [steps_left] in H. unfold budget in *. rewrite Z.sub_0_r in H.
    split; [lia |]. apply Forall_insert; [exact Hnn | lia].
  - apply iteration_continue in Hiter. destruct Hiter as (Hle & -> & _).
    assert (Ha : 0 <= a).
    { rewrite Forall_forall in Hnn.
      exact (Hnn _ (list_elem_of_lookup_2 _ _ _ Hi)). }
    unfold add64. rewrite wrap64_small
      by (unfold in_int64, min_int64, max_int64 in *;
          change (2 ^ 63) with 9223372036854775808 in *; lia).
    pose proof (list_sum_insert (steps_left cfg) _ i _ (Running u (a + 1) e') Hi) as H.
    cbn [steps_left] in H.
    split; [lia |]. apply Forall_insert; [exact Hnn | lia].
  - pose proof (list_sum_insert (steps_left cfg) _ i _ (Sent u) Hi) as H.
    cbn [steps_left] in H.
    split; [lia |]. now apply Forall_insert.
  - pose proof (list_sum_insert (steps_left cfg) _ i _ Exited Hi) as H.
    cbn [steps_left] in H.
    split; [lia |]. now apply Forall_insert.
  - apply andb_true_iff in Hdone. destruct Hdone as [_ Hopen].
    apply negb_true_iff in Hopen. rewrite Hopen. split; [lia | exact Hnn].
Qed.

Lemma run_uses_moves (cfg : Config) (ls : list Label) :
  MaxRetries cfg < max_int64 ->
  forall s s',
    attempts_nonneg s ->
    run cfg ls s = Some s' ->
    (length ls + moves_left cfg s' <= moves_left cfg s)%nat.
Proof.
  intros Hmax. induction ls as [|l ls IH]; intros s s' Hnn Hrun; cbn [run] in Hrun.
  - injection Hrun as <-. simpl. lia.
  - destruct (step cfg l s) as [s1|] eqn:Hstep; [| discriminate].
    destruct (step_uses_a_move cfg l s s1 Hmax Hnn Hstep) as [Hlt Hnn1].
    specialize (IH s1 s' Hnn1 Hrun). simpl. lia.
Qed.

(** X2. Every crawl ends: a schedule for [n] targets has at most
    [n * (MaxRetries + 5) + 1] moves (with [MaxRetries + 1] counted as 0
    when it is negative), whatever the fetches return. *)
Theorem crawl_schedules_are_bounded (articleURLs : list string) (cfg : Config)
    (ls : list Label) (s0 s : Crawl) :
  MaxRetries cfg < max_int64 ->
  fetchArticlesConcurrently articleURLs cfg = Some s0 ->
  run cfg ls s0 = Some s ->
  (length ls <= length articleURLs * (Z.to_nat (MaxRetries cfg + 1) + 4) + 1)%nat.
Proof.
  intros Hmax Hinit Hrun.
  unfold fetchArticlesConcurrently in Hinit.
  destruct (FetchConcurrency cfg <? 0); [discriminate |]. injection Hinit as <-.
  assert (Hnn : attempts_nonneg
                  (mkCrawl (FetchConcurrency cfg) 0 articleURLs [] [] false))
    by (unfold attempts_nonneg; constructor).
  pose proof (run_uses_moves cfg ls Hmax _ _ Hnn Hrun) as H.
  unfold moves_left at 2 in H. cbn in H. unfold budget in H. lia.
Qed.


Lemma forallb_lookup (p : Goroutine -> bool) (l : list Goroutine) (i : nat)
    (g : Goroutine) :
  forallb p l = true -> l !! i = Some g -> p g = true.
Proof.
  intros Hall Hi. rewrite forallb_forall in Hall. apply Hall.
  apply list_elem_of_In. eapply list_elem_of_lookup_2. exact Hi.
Qed.

Lemma delivery_ok_init (articleURLs : list string) (cfg : Config) (s0 : Crawl) :
  fetchArticlesConcurrently articleURLs cfg = Some s0 ->
  delivery_ok articleURLs s0.
Proof.
  unfold fetchArticlesConcurrently.
  destruct (FetchConcurrency cfg <? 0); [discriminate |].
  intros H. injection H as <-. unfold delivery_ok. cbn. repeat split; discriminate.
Qed.

Lemma delivery_ok_step (targets : list string) (cfg : Config) (l : Label)
    (s s' : Crawl) :
  delivery_ok targets s -> step cfg l s = Some s' -> delivery_ok targets s'.
Proof.
  unfold delivery_ok. fold (countp has_sent (goroutines s)).
  fold (countp has_sent (goroutines s')).
  intros (Hsent & Hlen & Hclosed) Hstep.
  step_cases Hstep;
    try (fold (countp has_sent (<[i := Running u 0 None]> (goroutines s))));
    try (fold (countp has_sent (<[i := Running u a' e']> (goroutines s))));
    try (fold (countp has_sent (<[i := Sent u]> (goroutines s))));
    try (fold (countp has_sent (<[i := Exited]> (goroutines s))));
    try (fold (countp has_sent (goroutines s ++ [Blocked u])));
    rewrite ?length_insert, ?length_app.
  - rewrite countp_app. change (countp has_sent [Blocked u]) with 0%nat.
    try rewrite Hpend in *. cbn [length] in *. split; [lia |]. split; [lia |].
    intros Hc. destruct (Hclosed Hc) as [H _]. discriminate.
  - pose proof (countp_insert has_sent _ i _ (Running u 0 None) Hi) as H.
    cbn [has_sent] in H. split; [lia |]. split; [lia |].
    intros Hc. destruct (Hclosed Hc) as [_ Hall].
    pose proof (forallb_lookup _ _ _ _ Hall Hi). discriminate.
  - pose proof (countp_insert has_sent _ i _ (Running u a' e') Hi) as H.
    cbn [has_sent] in H. split; [lia |]. split; [lia |].
    intros Hc. destruct (Hclosed Hc) as [_ Hall].
    pose proof (forallb_lookup _ _ _ _ Hall Hi). discriminate.
  - pose proof (countp_insert has_sent _ i _ (Sent u) Hi) as H.
    cbn [has_sent length] in H |- *. split; [lia |]. split; [lia |].
    intros Hc. destruct (Hclosed Hc) as [_ Hall].
    pose proof (forallb_lookup _ _ _ _ Hall Hi). discriminate.
  - pose proof (countp_insert has_sent _ i _ Exited Hi) as H.
    cbn [has_sent] in H. split; [lia |]. split; [lia |].
    intros Hc. destruct (Hclosed Hc) as [_ Hall].
    pose proof (forallb_lookup _ _ _ _ Hall Hi). discriminate.
  - apply andb_true_iff in Hdone. destruct Hdone as [Hall _].
    split; [exact Hsent |]. split; [exact Hlen |]. intros _. now split.
Qed.

Lemma delivery_ok_run (targets : list string) (cfg : Config) (ls : list Label) :
  forall s s', delivery_ok targets s -> run cfg ls s = Some s' ->
               delivery_ok targets s'.
Proof.
  induction ls as [|l ls IH]; intros s s' Hok Hrun; cbn [run] in Hrun.
  - now injection Hrun as <-.
  - destruct (step cfg l s) as [s1|] eqn:Hstep; [| discriminate].
    eapply IH; [| exact Hrun]. eapply delivery_ok_step; eassumption.
Qed.


Lemma stalled_step (cfg : Config) (l : Label) (s s' : Crawl) :
  gate_ok cfg s -> stalled s -> step cfg l s = Some s' -> stalled s'.
Proof.
  unfold stalled. intros (Hcount & _ & _) (Hcap & Hres & Hopen & Hblocked & Hsome) Hstep.
  step_cases Hstep.
  - repeat split; try assumption.
    + apply Forall_app. split; [exact Hblocked | now repeat constructor].
    + right. now destruct (goroutines s).
  - apply Z.ltb_lt in Hroom. lia.
  - rewrite Forall_forall in Hblocked.
    destruct (Hblocked _ (list_elem_of_lookup_2 _ _ _ Hi)).
  - rewrite Forall_forall in Hblocked.
    destruct (Hblocked _ (list_elem_of_lookup_2 _ _ _ Hi)).
  - rewrite Forall_forall in Hblocked.
    destruct (Hblocked _ (list_elem_of_lookup_2 _ _ _ Hi)).
  - apply andb_true_iff in Hdone. destruct Hdone as [Hall _].
    destruct Hsome as [H | H]; [congruence |].
    destruct (goroutines s) as [|g gs]; [congruence |].
    inversion Hblocked; subst. cbn in Hall. destruct g; try contradiction.
    discriminate.
Qed.

Lemma stalled_run (cfg : Config) (ls : list Label) :
  forall s s', gate_ok cfg s -> stalled s -> run cfg ls s = Some s' -> stalled s'.
Proof.
  induction ls as [|l ls IH]; intros s s' Hgate Hst Hrun; cbn [run] in Hrun.
  - now injection Hrun as <-.
  - destruct (step cfg l s) as [s1|] eqn:Hstep; [| discriminate].
    eapply IH; [| | exact Hrun].
    + eapply gate_ok_step; eassumption.
    + eapply stalled_step; eassumption.
Qed.

(** X4. With [FetchConcurrency = 0] the semaphore is an unbuffered channel
    nobody receives from: whatever the schedule, no goroutine gets in
    flight, no result is ever sent and the results channel is never
    closed. *)
Theorem zero_concurrency_never_delivers (articleURLs : list string)
    (cfg : Config) (ls : list Label) (s0 s : Crawl) :
  FetchConcurrency cfg = 0 ->
  articleURLs <> [] ->
  fetchArticlesConcurrently articleURLs cfg = Some s0 ->
  run cfg ls s0 = Some s ->
  in_flight s = 0%nat /\ results s = [] /\ closed s = false.
Proof.
  intros Hzero Hsome Hinit Hrun.
  pose proof (gate_ok_init _ _ _ Hinit) as Hgate0.
  assert (Hst0 : stalled s0).
  { unfold fetchArticlesConcurrently in Hinit. rewrite Hzero in Hinit.
    cbn in Hinit. injection Hinit as <-. unfold stalled. cbn.
    repeat split; [constructor | now left]. }
  destruct (stalled_run cfg ls s0 s Hgate0 Hst0 Hrun) as (Hcap & Hres & Hopen & _).
  destruct (gate_ok_run cfg ls s0 s Hgate0 Hrun) as (Hcount & Hle & _).
  repeat split; try assumption. lia.
Qed.


Lemma onHeaderH3_URL (a : Article) (text : string) : URL (onHeaderH3 a text) = URL a.
Proof.
  unfold onHeaderH3. destruct (is_empty (Title a)); [| reflexivity].
  destruct (negb _); [| reflexivity]. now destruct (first_title_line _).
Qed.

Lemma onTitle_URL (a : Article) (e : string * string) : URL (onTitle a e) = URL a.
Proof.
  destruct e as [style text]. unfold onTitle.
  destruct (is_empty (Title a)); [| reflexivity].
  destruct (negb _); [| reflexivity]. now destruct (_ && _).
Qed.

Lemma onBody_URL (a : Article) (html : option string) : URL (onBody a html) = URL a.
Proof. unfold onBody. destruct (is_empty (Body a)), html; reflexivity. Qed.

Lemma onTime_URL (a : Article) (datetime : string) : URL (onTime a datetime) = URL a.
Proof.
  unfold onTime. destruct (negb _); [| reflexivity].
  now destruct (is_empty (CreatedAt a)).
Qed.

Lemma run_callbacks_URL (p : Page) (a : Article) : URL (run_callbacks p a) = URL a.
Proof.
  unfold run_callbacks.
  rewrite (fold_left_keeps onTime URL onTime_URL).
  rewrite !(fold_left_keeps onBody URL onBody_URL).
  rewrite (fold_left_keeps onTitle URL onTitle_URL).
  now rewrite (fold_left_keeps onHeaderH3 URL onHeaderH3_URL).
Qed.

(** What [scrapeFullArticle] returns as an article: the target's own URL,
    a real title and a body. *)
Lemma scrape_ok_article (url : string) (timeout : Z) (w : World) (a : Article) :
  scrapeFullArticle url timeout w = Ok a ->
  URL a = url
  /\ Title a <> "" /\ Title a <> "How can we help?"
  /\ Title a <> "Knowledge Base" /\ Body a <> "".
Proof.
  unfold scrapeFullArticle.
  destruct (response w) as [e | p [e|]]; try discriminate.
  pose proof (run_callbacks_URL p
                (mkArticle (match find_article_id url with
                            | Some id => id
                            | None => ""
                            end) "" "" url "" "")) as HURL.
  set (art := run_callbacks p _) in *. cbn [URL] in HURL.
  destruct (is_empty (Title art) || denylisted (Title art)) eqn:Ht;
    [discriminate |].
  destruct (is_empty (Body art)) eqn:Hb; [discriminate |].
  intros H. injection H as <-.
  apply orb_false_iff in Ht. destruct Ht as [Hne Hdeny].
  unfold denylisted in Hdeny. apply orb_false_iff in Hdeny.
  destruct Hdeny as [H1 H2].
  assert (HT : forall a0 : Article,
             URL a0 = URL art -> Title a0 = Title art -> Body a0 = Body art ->
             URL a0 = url
             /\ Title a0 <> "" /\ Title a0 <> "How can we help?"
             /\ Title a0 <> "Knowledge Base" /\ Body a0 <> "").
  { intros a0 -> -> ->. split; [exact HURL |].
    split; [now apply is_empty_false |].
    split; [now apply String.eqb_neq |].
    split; [now apply String.eqb_neq | now apply is_empty_false]. }
  destruct (is_empty (CreatedAt art));
    cbn [with_CreatedAt UpdatedAt];
    destruct (is_empty (UpdatedAt art)); apply HT; reflexivity.
Qed.

Lemma results_ok_init (articleURLs : list string) (cfg : Config) (s0 : Crawl) :
  fetchArticlesConcurrently articleURLs cfg = Some s0 ->
  results_ok cfg articleURLs s0.
Proof.
  unfold fetchArticlesConcurrently.
  destruct (FetchConcurrency cfg <? 0); [discriminate |].
  intros H. injection H as <-. unfold results_ok. cbn.
  split; [constructor |]. split; [constructor |].
  apply Forall_forall. intros u Hu. now apply list_elem_of_In.
Qed.

Lemma results_ok_step (targets : list string) (cfg : Config) (l : Label)
    (s s' : Crawl) :
  0 <= MaxRetries cfg < max_int64 ->
  results_ok cfg targets s -> step cfg l s = Some s' -> results_ok cfg targets s'.
Proof.
  unfold results_ok. intros Hrange (Hres & Hgo & Hpending) Hstep.
  assert (Hat : forall i g, goroutines s !! i = Some g -> goroutine_ok cfg targets g).
  { intros i g Hi. rewrite Forall_forall in Hgo.
    exact (Hgo _ (list_elem_of_lookup_2 _ _ _ Hi)). }
  step_cases Hstep.
  - try rewrite Hpend in Hpending. inversion Hpending; subst.
    split; [exact Hres |]. split; [| assumption].
    apply Forall_app. split; [exact Hgo | now repeat constructor].
  - split; [exact Hres |]. split; [| exact Hpending].
    apply Forall_insert; [exact Hgo |].
    pose proof (Hat _ _ Hi) as Hu. cbn in Hu |- *.
    split; [exact Hu |]. split; lia.
  - apply iteration_continue in Hiter.
    destruct Hiter as (Hle & -> & err & -> & _).
    destruct (Hat _ _ Hi) as (Hu & Ha & _).
    split; [exact Hres |]. split; [| exact Hpending].
    apply Forall_insert; [exact Hgo |]. cbn.
    unfold add64. rewrite wrap64_small
      by (unfold in_int64, min_int64, max_int64 in *;
          change (2 ^ 63) with 9223372036854775808 in *; lia).
    split; [exact Hu |]. split; [lia | discriminate].
  - destruct (Hat _ _ Hi) as (Hu & Ha & Herr).
    split; [| split; [| exact Hpending]].
    + apply Forall_app. split; [exact Hres |]. constructor; [| constructor].
      apply iteration_deliver in Hiter.
      destruct Hiter as [(Hle & art & Hok & ->) | (Hgt & ->)]; unfold result_ok; cbn.
      * split; [exact Hu |]. split; [lia |]. split; [reflexivity |].
        now apply scrape_ok_article in Hok.
      * split; [exact Hu |]. split; [lia |]. apply Herr. lia.
    + apply Forall_insert; [exact Hgo | exact Hu].
  - split; [exact Hres |]. split; [| exact Hpending].
    now apply Forall_insert.
  - now repeat split.
Qed.

Lemma results_ok_run (targets : list string) (cfg : Config) (ls : list Label) :
  0 <= MaxRetries cfg < max_int64 ->
  forall s s', results_ok cfg targets s -> run cfg ls s = Some s' ->
               results_ok cfg targets s'.
Proof.
  intros Hrange. induction ls as [|l ls IH]; intros s s' Hok Hrun; cbn [run] in Hrun.
  - now injection Hrun as <-.
  - destruct (step cfg l s) as [s1|] eqn:Hstep; [| discriminate].
    eapply IH; [| exact Hrun]. eapply results_ok_step; eassumption.
Qed.

(** X5. Whatever the schedule and the pages, every result on the channel
    is for one of the targets, has [Retries] between 0 and [MaxRetries],
    and is either a success (an article with that target's URL, a real
    title and a body, and no error) or a failure (no article and an
    error): a consumer that reads [Article] when [Error] is nil never
    meets a nil article. *)
Theorem every_result_is_well_formed (articleURLs : list string) (cfg : Config)
    (ls : list Label) (s0 s : Crawl) (r : FetchResult) :
  0 <= MaxRetries cfg < max_int64 ->
  fetchArticlesConcurrently articleURLs cfg = Some s0 ->
  run cfg ls s0 = Some s ->
  In r (results s) ->
  result_ok cfg articleURLs r.
Proof.
  intros Hrange Hinit Hrun Hr.
  destruct (results_ok_run _ _ ls Hrange _ _ (results_ok_init _ _ _ Hinit) Hrun)
    as (Hres & _).
  rewrite Forall_forall in Hres. apply Hres. now apply list_elem_of_In.
Qed.


Lemma sample_state_reached :
  run two_slots sample_schedule crawl_start = Some sample_state.
Proof. vm_compute. reflexivity. Qed.

Lemma complete_state_reached :
  run two_slots complete_schedule crawl_start = Some complete_state.
Proof. vm_compute. reflexivity. Qed.

Lemma crawl_is_never_stuck_witness :
  exists s', step two_slots (next_move malformed sample_state) sample_state = Some s'.
Proof.
  apply (crawl_is_never_stuck three_targets two_slots sample_schedule
           crawl_start sample_state malformed).
  - reflexivity.
  - exact sample_state_reached.
  - vm_compute. discriminate.
  - reflexivity.
Defined.

Lemma crawl_schedules_are_bounded_witness :
  (length complete_schedule
   <= length three_targets * (Z.to_nat (MaxRetries two_slots + 1) + 4) + 1)%nat.
Proof.
  apply (crawl_schedules_are_bounded three_targets two_slots complete_schedule
           crawl_start complete_state).
  - vm_compute. reflexivity.
  - reflexivity.
  - exact complete_state_reached.
Defined.


Lemma zero_concurrency_never_delivers_witness :
  exists s,
    run no_slots [Spawn; Spawn; Spawn] (mkCrawl 0 0 three_targets [] [] false)
    = Some s
    /\ in_flight s = 0%nat /\ results s = [] /\ closed s = false.
Proof.
  eexists. split; [vm_compute; reflexivity |].
  eapply (zero_concurrency_never_delivers three_targets no_slots
            [Spawn; Spawn; Spawn] (mkCrawl 0 0 three_targets [] [] false)).
  - reflexivity.
  - discriminate.
  - reflexivity.
  - vm_compute. reflexivity.
Defined.

Lemma every_result_is_well_formed_witness :
  result_ok two_slots three_targets
    (mkFetchResult None (Some "error visiting page: invalid URL") "u1" 3).
Proof.
  apply (every_result_is_well_formed three_targets two_slots complete_schedule
           crawl_start complete_state).
  - vm_compute. split; [discriminate | reflexivity].
  - reflexivity.
  - exact complete_state_reached.
  - vm_compute. tauto.
Defined.


End CrawlRuns.

(** ** Which URLs are crawled, and what [main] makes of the results *)

Section FilterAndMain.
Import GoInt GoStrings Crawler Design.

Lemma drop_prefix_app (p s rest : string) :
  drop_prefix p s = Some rest -> s = p +:+ rest.
Proof.
  revert s. induction p as [|c p IH]; intros s; cbn [drop_prefix].
  - intros H. now injection H as ->.
  - destruct s as [|d s]; [discriminate |].
    destruct (Ascii.eqb_spec d c) as [->|]; [| discriminate].
    intros H. rewrite append_cons. f_equal. now apply IH.
Qed.

Lemma drop_prefix_self (p rest : string) : drop_prefix p (p +:+ rest) = Some rest.
Proof.
  induction p as [|c p IH]; [reflexivity |].
  rewrite append_cons. cbn [drop_prefix]. now rewrite Ascii.eqb_refl.
Qed.

Lemma take_drop_digits (s : string) : s = take_digits s +:+ drop_digits s.
Proof.
  induction s as [|c s IH]; [reflexivity |].
  cbn [take_digits drop_digits]. destruct (is_digit c); [| reflexivity].
  rewrite append_cons. now f_equal.
Qed.

Lemma take_digits_all (s : string) : all_digits (take_digits s) = true.
Proof.
  induction s as [|c s IH]; [reflexivity |].
  cbn [take_digits]. destruct (is_digit c) eqn:E; [| reflexivity].
  cbn [all_digits]. now rewrite E.
Qed.

Lemma take_digits_app (d rest : string) :
  all_digits d = true -> d <> "" -> take_digits (d +:+ rest) <> "".
Proof.
  destruct d as [|c d]; [congruence |]. cbn [all_digits].
  rewrite andb_true_iff. intros [Hc _] _. rewrite append_cons.
  cbn [take_digits]. now rewrite Hc.
Qed.

Lemma digits_only (d : string) :
  all_digits d = true -> take_digits d = d /\ drop_digits d = "".
Proof.
  induction d as [|c d IH]; [now split |]. cbn [all_digits].
  rewrite andb_true_iff. intros [Hc Hd]. cbn [take_digits drop_digits].
  rewrite Hc. destruct (IH Hd) as [-> ->]. now split.
Qed.

Lemma matches_somewhere_split (here : string -> bool) (s : string) :
  matches_somewhere here s = true <->
  exists pre t, s = pre +:+ t /\ here t = true.
Proof.
  split.
  - induction s as [|c s IH]; cbn [matches_somewhere].
    + rewrite orb_false_r. intros H. now exists "", "".
    + rewrite orb_true_iff. intros [H | H].
      * now exists "", (String c s).
      * destruct (IH H) as (pre & t & -> & Ht). now exists (String c pre), t.
  - intros (pre & t & -> & Ht). induction pre as [|c pre IH].
    + rewrite append_nil. destruct t; cbn [matches_somewhere]; now rewrite Ht.
    + rewrite append_cons. cbn [matches_somewhere]. rewrite IH. apply orb_true_r.
Qed.

Lemma filterEnglishArticles_In (url : string) (urls : list string) :
  In url (filterEnglishArticles urls) <->
  In url urls /\ articlePattern url = true /\ shouldExclude url = false.
Proof.
  induction urls as [|u urls IH]; cbn [filterEnglishArticles In]; [tauto |].
  destruct (articlePattern u) eqn:Ha; [destruct (shouldExclude u) eqn:He |];
    cbn [negb In]; rewrite IH; intuition (subst; congruence).
Qed.

Lemma filterEnglishArticles_sublist (urls : list string) :
  sublist (filterEnglishArticles urls) urls.
Proof.
  induction urls as [|u urls IH]; cbn [filterEnglishArticles]; [constructor |].
  destruct (articlePattern u); [destruct (shouldExclude u) |]; cbn [negb];
    try (now apply sublist_cons); now apply sublist_skip.
Qed.

(** X6. [filterEnglishArticles] keeps the URLs in their order and keeps
    only URLs that read ... /hc/en-us/articles/ digits - something, that
    mention no section, category or community page and in which no
    /hc/en-us/articles/ digits runs to the very end. *)
Theorem filtered_urls_are_titled_articles (urls : list string) (url : string) :
  In url (filterEnglishArticles urls) ->
  In url urls
  /\ sublist (filterEnglishArticles urls) urls
  /\ (exists pre digits c rest,
         url = pre +:+ "/hc/en-us/articles/" +:+ digits +:+ "-" +:+ String c rest
         /\ digits <> "" /\ all_digits digits = true /\ c <> newline)
  /\ Contains url "/sections/" = false
  /\ Contains url "/categories/" = false
  /\ Contains url "/community/" = false
  /\ ~ (exists pre digits,
           url = pre +:+ "/hc/en-us/articles/" +:+ digits
           /\ digits <> "" /\ all_digits digits = true).
Proof.
  intros Hin. apply filterEnglishArticles_In in Hin.
  destruct Hin as (Hin & Hart & Hexcl).
  split; [exact Hin |]. split; [apply filterEnglishArticles_sublist |].
  unfold shouldExclude, excludePatterns in Hexcl. cbn [existsb] in Hexcl.
  rewrite !orb_false_iff in Hexcl.
  destruct Hexcl as (Huntitled & Hsec & Hcat & Hcom & _).
  split; [| repeat split; try assumption].
  - apply matches_somewhere_split in Hart. destruct Hart as (pre & t & -> & Ht).
    unfold articlePattern_here in Ht.
    destruct (drop_prefix "/hc/en-us/articles/" t) as [rest|] eqn:Hp;
      [| discriminate].
    apply drop_prefix_app in Hp. subst t.
    apply andb_true_iff in Ht. destruct Ht as [Hd Hrest].
    destruct (drop_digits rest) as [|dash [|c rest']] eqn:Hdrop; try discriminate.
    apply andb_true_iff in Hrest. destruct Hrest as [Hdash Hc].
    apply Ascii.eqb_eq in Hdash. subst dash.
    exists pre, (take_digits rest), c, rest'. repeat split.
    + rewrite (take_drop_digits rest) at 1. now rewrite Hdrop.
    + apply negb_true_iff in Hd. intros H. rewrite H in Hd. discriminate.
    + apply take_digits_all.
    + apply negb_true_iff in Hc. intros ->. now rewrite Ascii.eqb_refl in Hc.
  - intros (pre & digits & -> & Hne & Hall).
    assert (H : matches_somewhere untitledPattern_here
                  (pre +:+ "/hc/en-us/articles/" +:+ digits) = true).
    { apply matches_somewhere_split.
      exists pre, ("/hc/en-us/articles/" +:+ digits). split; [reflexivity |].
      unfold untitledPattern_here. rewrite drop_prefix_self.
      destruct (digits_only _ Hall) as [-> ->].
      destruct digits; [congruence | reflexivity]. }
    congruence.
Qed.

Lemma filtered_urls_are_titled_articles_witness :
  In "https://support.talkdesk.com/hc/en-us/articles/7411707908635-Polly"
    sitemap_sample
  /\ sublist (filterEnglishArticles sitemap_sample) sitemap_sample
  /\ (exists pre digits c rest,
         "https://support.talkdesk.com/hc/en-us/articles/7411707908635-Polly"
         = pre +:+ "/hc/en-us/articles/" +:+ digits +:+ "-" +:+ String c rest
         /\ digits <> "" /\ all_digits digits = true /\ c <> newline)
  /\ Contains "https://support.talkdesk.com/hc/en-us/articles/7411707908635-Polly"
       "/sections/" = false
  /\ Contains "https://support.talkdesk.com/hc/en-us/articles/7411707908635-Polly"
       "/categories/" = false
  /\ Contains "https://support.talkdesk.com/hc/en-us/articles/7411707908635-Polly"
       "/community/" = false
  /\ ~ (exists pre digits,
           "https://support.talkdesk.com/hc/en-us/articles/7411707908635-Polly"
           = pre +:+ "/hc/en-us/articles/" +:+ digits
           /\ digits <> "" /\ all_digits digits = true).
Proof.
  apply (filtered_urls_are_titled_articles sitemap_sample).
  vm_compute. tauto.
Defined.

Example filterEnglishArticles_sample :
  filterEnglishArticles sitemap_sample
  = ["https://support.talkdesk.com/hc/en-us/articles/206196766-Release-Notes";
     "https://support.talkdesk.com/hc/en-us/articles/7411707908635-Polly"].
Proof. vm_compute. reflexivity. Qed.














Lemma collectResults_ok (cfg : Config) (targets : list string)
    (rs : list FetchResult) :
  Forall (result_ok cfg targets) rs ->
  forall (arts0 : list Article) (errs0 : list Crawler.error),
  exists arts errs,
    collectResults rs arts0 errs0 = Some (arts0 ++ arts, errs0 ++ errs)
    /\ (length arts + length errs)%nat = length rs
    /\ Forall article_ok arts.
Proof.
  induction 1 as [|r rs Hr _ IH]; intros arts0 errs0; cbn [collectResults].
  - exists [], []. rewrite !app_nil_r. repeat split. constructor.
  - destruct Hr as (_ & _ & Hshape).
    destruct (fr_Article r) as [article|] eqn:Ha.
    + destruct Hshape as (-> & _ & Hok).
      destruct (IH (arts0 ++ [article]) errs0) as (arts & errs & -> & Hlen & Hall).
      exists (article :: arts), errs. rewrite <- app_assoc.
      split; [reflexivity |]. split; [simpl; lia |]. now constructor.
    + destruct (fr_Error r) as [err|]; [| congruence].
      destruct (IH arts0 (errs0 ++ [fetchError r err])) as (arts & errs & -> & Hlen & Hall).
      exists arts, (fetchError r err :: errs). rewrite <- app_assoc.
      split; [reflexivity |]. split; [simpl; lia | exact Hall].
Qed.

Lemma shownErrors_take (errors : list Crawler.error) :
  shownErrors errors = take 10 errors.
Proof.
  unfold shownErrors.
  destruct (0 <? Z.of_nat (length errors)) eqn:H0;
    destruct (Z.of_nat (length errors) <=? 10) eqn:H10; cbn [andb].
  - apply Z.leb_le in H10. symmetry. apply take_ge. lia.
  - apply Z.leb_gt in H10.
    replace (10 <? Z.of_nat (length errors)) with true; [reflexivity |].
    symmetry. apply Z.ltb_lt. lia.
  - apply Z.ltb_ge in H0. destruct errors; [reflexivity | simpl in H0; lia].
  - apply Z.ltb_ge in H0. apply Z.leb_gt in H10. lia.
Qed.

(** X8. When the results channel of a crawl has been closed, [main]'s loop
    over it reads no nil article; the successes and the failures it
    collects add up to the number of targets, every article it collects
    (and hands to the processors) has a real title and a body, and the
    summary prints the first ten failures at most. *)
Theorem main_accounts_for_every_target (articleURLs : list string) (cfg : Config)
    (ls : list Label) (s0 s : Crawl) :
  0 <= MaxRetries cfg < max_int64 ->
  fetchArticlesConcurrently articleURLs cfg = Some s0 ->
  run cfg ls s0 = Some s ->
  closed s = true ->
  exists successfulArticles errors,
    collectResults (results s) [] [] = Some (successfulArticles, errors)
    /\ (length successfulArticles + length errors)%nat = length articleURLs
    /\ Forall article_ok successfulArticles
    /\ shownErrors errors = take 10 errors.
Proof.
  intros Hrange Hinit Hrun Hclosed.
  destruct (results_ok_run _ _ ls Hrange _ _ (results_ok_init _ _ _ Hinit) Hrun)
    as (Hres & _).
  destruct (delivery_ok_run _ _ _ _ _ (delivery_ok_init _ _ _ Hinit) Hrun)
    as (Hsent & Hlen & Hdone).
  destruct (Hdone Hclosed) as [Hpend Hall].
  destruct (collectResults_ok cfg articleURLs (results s) Hres [] [])
    as (arts & errs & Hcollect & Hcount & Hok).
  exists arts, errs. split; [exact Hcollect |].
  split; [| split; [exact Hok | apply shownErrors_take]].
  rewrite Hcount, Hsent. rewrite Hpend in Hlen. cbn [length] in Hlen.
  fold (countp has_sent (goroutines s)). rewrite countp_all; [lia |].
  rewrite forallb_forall in Hall. apply Forall_forall. intros g Hg.
  apply list_elem_of_In in Hg. specialize (Hall g Hg). now destruct g.
Qed.

Lemma main_accounts_for_every_target_witness :
  exists successfulArticles errors,
    collectResults (results complete_state) [] [] = Some (successfulArticles, errors)
    /\ (length successfulArticles + length errors)%nat = length three_targets
    /\ Forall article_ok successfulArticles
    /\ shownErrors errors = take 10 errors.
Proof.
  apply (main_accounts_for_every_target three_targets two_slots complete_schedule
           crawl_start complete_state).
  - vm_compute. split; [discriminate | reflexivity].
  - reflexivity.
  - exact complete_state_reached.
  - reflexivity.
Defined.

Example collectResults_sample :
  collectResults (results complete_state) [] []
  = Some ([mkArticle "" "Release notes" "<p>Body text</p>" "u0"
             "2024-01-01T00:00:00Z" "2024-01-02T00:00:00Z";
           mkArticle "" "Release notes" "<p>Body text</p>" "u2"
             "2024-01-01T00:00:00Z" "2024-01-02T00:00:00Z"],
          ["failed to fetch u1 after 3 retries: error visiting page: invalid URL"]).
Proof. vm_compute. reflexivity. Qed.

(** X11. With a negative [MaxRetries] the loop body never runs: the
    worker fetches nothing and sends a result without article and without
    error, and the loop of [main] that reads the results dereferences its
    nil article. *)
Theorem negative_retries_break_main (cfg : Config) (url : string) (jitter : Z)
    (world : nat -> World) :
  MaxRetries cfg < 0 ->
  worker cfg url jitter world
  = Some [Send (mkFetchResult None None url (MaxRetries cfg))]
  /\ collectResults [mkFetchResult None None url (MaxRetries cfg)] [] [] = None.
Proof.
  intros Hneg. split; [| reflexivity].
  unfold worker. destruct (Z.to_nat (MaxRetries cfg) + 2)%nat eqn:E; [lia |].
  cbn [worker_loop]. unfold iteration.
  replace (0 <=? MaxRetries cfg) with false by (symmetry; apply Z.leb_gt; lia).
  reflexivity.
Qed.

Lemma negative_retries_break_main_witness :
  worker (mkConfig 15 (200 * Millisecond) (-1) (30 * Second)) "u" 0
    (fun _ => good_world)
  = Some [Send (mkFetchResult None None "u" (-1))].
Proof.
  apply (negative_retries_break_main
           (mkConfig 15 (200 * Millisecond) (-1) (30 * Second)) "u" 0
           (fun _ => good_world)).
  cbn [MaxRetries]. lia.
Defined.

End FilterAndMain.

(** ** What the fetch worker selects from a page *)

Section Selection.
Import GoInt GoStrings Crawler Design.

Lemma first_some_app (l1 l2 : list (option string)) :
  first_some (l1 ++ l2)
  = match first_some l1 with Some x => Some x | None => first_some l2 end.
Proof.
  induction l1 as [|[x|] l1 IH]; cbn [app first_some]; [reflexivity | reflexivity | exact IH].
Qed.

(** A field that a callback sets only while it is empty ends up holding
    the first candidate. *)
Lemma fold_left_first {B : Type} (f : Article -> B -> Article)
    (get : Article -> string) (cand : B -> option string) :
  (forall a b, get (f a b)
               = if is_empty (get a) then default "" (cand b) else get a) ->
  (forall b x, cand b = Some x -> x <> "") ->
  forall (l : list B) (a : Article),
    get (fold_left f l a)
    = if is_empty (get a) then default "" (first_some (map cand l)) else get a.
Proof.
  intros Hf Hne l. induction l as [|b l IH]; intros a; cbn [fold_left map first_some].
  - destruct (is_empty (get a)) eqn:E; [| reflexivity]. now apply is_empty_true in E.
  - rewrite IH, Hf. destruct (is_empty (get a)) eqn:E.
    + destruct (cand b) as [x|] eqn:Hb; cbn [default from_option id first_some].
      * apply Hne in Hb. apply is_empty_false in Hb. now rewrite Hb.
      * destruct (is_empty "") eqn:E0; [reflexivity | discriminate].
    + now rewrite E.
Qed.

Lemma title_line_ok_denylisted (line : string) :
  title_line_ok line = true -> line <> "" /\ denylisted line = false.
Proof.
  unfold title_line_ok, denylisted. rewrite !andb_true_iff, !negb_true_iff.
  intros (((((H1 & _) & _) & _) & H2) & H3). split.
  - now apply is_empty_false.
  - now rewrite H2, H3.
Qed.

Lemma first_title_line_ok (lines : list string) (line : string) :
  first_title_line lines = Some line -> title_line_ok line = true.
Proof.
  induction lines as [|l lines IH]; [discriminate |]. cbn [first_title_line].
  destruct (title_line_ok (TrimSpace l)) eqn:E; [| exact IH].
  intros H. now injection H as <-.
Qed.

Lemma header_candidate_ok (text x : string) :
  header_candidate text = Some x -> x <> "" /\ denylisted x = false.
Proof.
  unfold header_candidate. destruct (negb _); [| discriminate].
  intros H. apply first_title_line_ok in H. now apply title_line_ok_denylisted.
Qed.

Lemma title_candidate_ok (e : string * string) (x : string) :
  title_candidate e = Some x -> x <> "" /\ denylisted x = false.
Proof.
  unfold title_candidate. destruct (negb (Contains _ _)); [| discriminate].
  destruct (negb (is_empty _) && negb (denylisted _)) eqn:E; [| discriminate].
  intros H. injection H as <-. apply andb_true_iff in E. destruct E as [H1 H2].
  apply negb_true_iff in H1, H2. split; [now apply is_empty_false | exact H2].
Qed.

Lemma body_candidate_ok (html : option string) (x : string) :
  body_candidate html = Some x -> x <> "".
Proof.
  unfold body_candidate. destruct html as [h|]; [| discriminate].
  destruct (is_empty (cleanHTML h)) eqn:E; [discriminate |].
  intros H. injection H as <-. now apply is_empty_false.
Qed.

Lemma first_some_In (l : list (option string)) (x : string) :
  first_some l = Some x -> In (Some x) l.
Proof.
  induction l as [|[y|] l IH]; cbn [first_some]; [discriminate | |].
  - intros H. injection H as ->. now left.
  - intros H. right. now apply IH.
Qed.

Lemma onHeaderH3_Title (a : Article) (text : string) :
  Title (onHeaderH3 a text)
  = if is_empty (Title a) then default "" (header_candidate text) else Title a.
Proof.
  unfold onHeaderH3, header_candidate.
  destruct (is_empty (Title a)) eqn:E; [| reflexivity].
  destruct (negb (is_empty (TrimSpace text))); cbn [default from_option id].
  - destruct (first_title_line _); [reflexivity |]. now apply is_empty_true in E.
  - now apply is_empty_true in E.
Qed.

Lemma onTitle_Title (a : Article) (e : string * string) :
  Title (onTitle a e)
  = if is_empty (Title a) then default "" (title_candidate e) else Title a.
Proof.
  destruct e as [style text]. unfold onTitle, title_candidate, denylisted. cbn [fst snd].
  destruct (is_empty (Title a)) eqn:E; [| reflexivity].
  apply is_empty_true in E.
  destruct (negb (Contains style "display: none")); [| exact E].
  rewrite negb_orb, andb_assoc.
  now destruct (_ && _).
Qed.

Lemma onBody_Body (a : Article) (html : option string) :
  Body (onBody a html)
  = if is_empty (Body a) then default "" (body_candidate html) else Body a.
Proof.
  unfold onBody, body_candidate. destruct (is_empty (Body a)) eqn:E; [| reflexivity].
  apply is_empty_true in E. destruct html as [h|]; [| exact E].
  cbn [with_Body Body]. destruct (is_empty (cleanHTML h)) eqn:Hh; [| reflexivity].
  now apply is_empty_true in Hh.
Qed.

Lemma onHeaderH3_Body (a : Article) (text : string) : Body (onHeaderH3 a text) = Body a.
Proof.
  unfold onHeaderH3. destruct (is_empty (Title a)); [| reflexivity].
  destruct (negb _); [| reflexivity]. now destruct (first_title_line _).
Qed.

Lemma onTitle_Body (a : Article) (e : string * string) : Body (onTitle a e) = Body a.
Proof.
  destruct e as [style text]. unfold onTitle.
  destruct (is_empty (Title a)); [| reflexivity].
  destruct (negb _); [| reflexivity]. now destruct (_ && _).
Qed.

Lemma onTime_Body (a : Article) (datetime : string) : Body (onTime a datetime) = Body a.
Proof.
  unfold onTime. destruct (negb _); [| reflexivity].
  now destruct (is_empty (CreatedAt a)).
Qed.

Lemma run_callbacks_Title (p : Page) (a : Article) :
  Title a = "" -> Title (run_callbacks p a) = default "" (title_of p).
Proof.
  intros H0. unfold run_callbacks, title_of.
  rewrite (fold_left_keeps onTime Title onTime_Title).
  rewrite !(fold_left_keeps onBody Title onBody_Title).
  rewrite (fold_left_first onTitle Title title_candidate onTitle_Title
             (fun e x H => proj1 (title_candidate_ok e x H))).
  rewrite (fold_left_first onHeaderH3 Title header_candidate onHeaderH3_Title
             (fun t x H => proj1 (header_candidate_ok t x H))).
  rewrite H0. change (is_empty "") with true. cbv iota. rewrite first_some_app.
  destruct (first_some (map header_candidate (header_h3 p))) as [x|] eqn:E;
    cbn [default from_option id]; [| reflexivity].
  apply first_some_In in E. apply in_map_iff in E. destruct E as (t & Ht & _).
  apply header_candidate_ok in Ht. destruct Ht as [Hne _].
  apply is_empty_false in Hne. now rewrite Hne.
Qed.

Lemma run_callbacks_Body (p : Page) (a : Article) :
  Body a = "" -> Body (run_callbacks p a) = default "" (body_of p).
Proof.
  intros H0. unfold run_callbacks, body_of.
  rewrite (fold_left_keeps onTime Body onTime_Body).
  rewrite <- fold_left_app.
  rewrite (fold_left_first onBody Body body_candidate onBody_Body body_candidate_ok).
  rewrite (fold_left_keeps onTitle Body onTitle_Body).
  rewrite (fold_left_keeps onHeaderH3 Body onHeaderH3_Body).
  now rewrite H0.
Qed.

Lemma title_of_ok (p : Page) (x : string) :
  title_of p = Some x -> x <> "" /\ denylisted x = false.
Proof.
  unfold title_of. intros H. apply first_some_In in H. apply in_app_iff in H.
  destruct H as [H | H]; apply in_map_iff in H; destruct H as (t & Ht & _).
  - now apply header_candidate_ok in Ht.
  - now apply title_candidate_ok in Ht.
Qed.

Lemma body_of_ok (p : Page) (x : string) : body_of p = Some x -> x <> "".
Proof.
  unfold body_of. intros H. apply first_some_In in H. apply in_map_iff in H.
  destruct H as (t & Ht & _). now apply body_candidate_ok in Ht.
Qed.

(** X9. On a page that was fetched without error, [scrapeFullArticle]
    takes as title the first candidate that qualifies, the headers before
    the fallback elements, and as body the first element whose cleaned
    HTML is not empty, the main selector before the fallbacks. It fails
    with the title error exactly when no title candidate qualifies, and
    with the content error exactly when a title but no body is found. *)
Theorem scrape_selects_first_candidates (articleURL : string) (timeout : Z)
    (w : World) (p : Page) :
  response w = Visited p None ->
  match title_of p, body_of p with
  | None, _ =>
      scrapeFullArticle articleURL timeout w
      = Err "no meaningful title found on page"
  | Some _, None =>
      scrapeFullArticle articleURL timeout w = Err "no content found on page"
  | Some title, Some body =>
      exists a, scrapeFullArticle articleURL timeout w = Ok a
                /\ Title a = title /\ Body a = body
  end.
Proof.
  intros Hresp. unfold scrapeFullArticle. rewrite Hresp.
  set (a0 := mkArticle _ "" "" articleURL "" "").
  pose proof (run_callbacks_Title p a0 eq_refl) as HT.
  pose proof (run_callbacks_Body p a0 eq_refl) as HB.
  set (art := run_callbacks p a0) in *.
  destruct (title_of p) as [title|] eqn:Et; cbn [default from_option id] in HT.
  - destruct (title_of_ok p title Et) as [Hne Hdeny].
    rewrite HT. apply is_empty_false in Hne. rewrite Hne, Hdeny. cbn [orb].
    destruct (body_of p) as [body|] eqn:Eb; cbn [default from_option id] in HB; rewrite HB.
    + pose proof (body_of_ok p body Eb) as Hb. apply is_empty_false in Hb.
      rewrite Hb. eexists. split; [reflexivity |].
      destruct (is_empty (CreatedAt art)); cbn [with_CreatedAt UpdatedAt];
        destruct (is_empty (UpdatedAt art)); cbn; now split.
    + reflexivity.
  - rewrite HT. reflexivity.
Qed.

Lemma scrape_selects_first_candidates_witness :
  exists a,
    scrapeFullArticle "https://x/hc/en-us/articles/12-a" 0
      (mkWorld (Visited busy_page None) "now1" "now2") = Ok a
    /\ Title a = "Release 12" /\ Body a = "<p>First body</p>".
Proof.
  apply (scrape_selects_first_candidates "https://x/hc/en-us/articles/12-a" 0
           (mkWorld (Visited busy_page None) "now1" "now2") busy_page eq_refl).
Defined.

Lemma last_cons (x d : string) (l : list string) : List.last (x :: l) d = List.last l x.
Proof.
  revert x d. induction l as [|y l IH]; intros x d; [reflexivity |].
  change (List.last (x :: y :: l) d) with (List.last (y :: l) d).
  now rewrite !IH.
Qed.

Lemma onTime_stamps (a : Article) (d : string) :
  CreatedAt (onTime a d)
  = (if nonempty d && is_empty (CreatedAt a) then d else CreatedAt a)
  /\ UpdatedAt (onTime a d) = (if nonempty d then d else UpdatedAt a).
Proof.
  unfold onTime, nonempty. destruct (negb (is_empty d)); [| now split].
  destruct (is_empty (CreatedAt a)); now split.
Qed.

Lemma fold_onTime (l : list string) :
  forall a,
    CreatedAt (fold_left onTime l a)
    = (if is_empty (CreatedAt a) then hd "" (List.filter nonempty l)
       else CreatedAt a)
    /\ UpdatedAt (fold_left onTime l a) = List.last (List.filter nonempty l) (UpdatedAt a).
Proof.
  induction l as [|d l IH]; intros a; cbn [fold_left List.filter].
  - split; [| reflexivity].
    destruct (is_empty (CreatedAt a)) eqn:E; [| reflexivity].
    now apply is_empty_true in E.
  - destruct (IH (onTime a d)) as [-> ->].
    destruct (onTime_stamps a d) as [-> ->].
    destruct (nonempty d) eqn:Hd; cbn [andb hd].
    + rewrite last_cons. split; [| reflexivity].
      destruct (is_empty (CreatedAt a)) eqn:E; [| now rewrite E].
      unfold nonempty in Hd. apply negb_true_iff in Hd. now rewrite Hd.
    + now split.
Qed.

Lemma stamps_kept {B : Type} (f : Article -> B -> Article) :
  (forall a b, CreatedAt (f a b) = CreatedAt a /\ UpdatedAt (f a b) = UpdatedAt a) ->
  forall l a, CreatedAt (fold_left f l a) = CreatedAt a
              /\ UpdatedAt (fold_left f l a) = UpdatedAt a.
Proof.
  intros Hf l. induction l as [|b l IH]; intros a; [now split |].
  cbn [fold_left]. destruct (IH (f a b)) as [-> ->]. apply Hf.
Qed.

Lemma onHeaderH3_stamps (a : Article) (text : string) :
  CreatedAt (onHeaderH3 a text) = CreatedAt a
  /\ UpdatedAt (onHeaderH3 a text) = UpdatedAt a.
Proof.
  unfold onHeaderH3. destruct (is_empty (Title a)); [| now split].
  destruct (negb _); [| now split]. now destruct (first_title_line _).
Qed.

Lemma onTitle_stamps (a : Article) (e : string * string) :
  CreatedAt (onTitle a e) = CreatedAt a /\ UpdatedAt (onTitle a e) = UpdatedAt a.
Proof.
  destruct e as [style text]. unfold onTitle.
  destruct (is_empty (Title a)); [| now split].
  destruct (negb _); [| now split]. now destruct (_ && _).
Qed.

Lemma onBody_stamps (a : Article) (html : option string) :
  CreatedAt (onBody a html) = CreatedAt a /\ UpdatedAt (onBody a html) = UpdatedAt a.
Proof. unfold onBody. destruct (is_empty (Body a)), html; now split. Qed.

Lemma filter_nonempty_hd (l : list string) :
  is_empty (hd "" (List.filter nonempty l)) = true -> List.filter nonempty l = [].
Proof.
  induction l as [|d l IH]; [reflexivity |]. cbn [List.filter].
  destruct (nonempty d) eqn:Hd; [| exact IH]. cbn [hd]. intros H.
  unfold nonempty in Hd. rewrite H in Hd. discriminate.
Qed.

Lemma filter_nonempty_last (l : list string) :
  is_empty (List.last (List.filter nonempty l) "") = true -> List.filter nonempty l = [].
Proof.
  intros H. destruct (List.filter nonempty l) as [|d fl] eqn:E; [reflexivity |].
  exfalso.
  assert (Hin : In (List.last (d :: fl) "") (List.filter nonempty l)).
  { rewrite E. destruct (exists_last (l := d :: fl) ltac:(discriminate))
      as (l' & x & Hx).
    rewrite Hx, List.last_last. apply in_or_app. right. now left. }
  apply filter_In in Hin. destruct Hin as [_ Hne].
  unfold nonempty in Hne. rewrite H in Hne. discriminate.
Qed.

(** X10. The timestamps of a scraped article: [CreatedAt] is the first
    non-empty datetime attribute of the page and [UpdatedAt] the last one;
    only when the page has none are they the clock readings taken at the
    end. *)
Theorem scrape_timestamps (articleURL : string) (timeout : Z) (w : World)
    (p : Page) (err : option Crawler.error) (a : Article) :
  response w = Visited p err ->
  scrapeFullArticle articleURL timeout w = Ok a ->
  match List.filter nonempty (time_elems p) with
  | [] => CreatedAt a = nowCreated w /\ UpdatedAt a = nowUpdated w
  | first :: rest =>
      CreatedAt a = first /\ UpdatedAt a = List.last rest first
  end.
Proof.
  intros Hresp. unfold scrapeFullArticle. rewrite Hresp.
  destruct err as [e|]; [discriminate |].
  set (a0 := mkArticle _ "" "" articleURL "" "").
  assert (Hstamps :
    CreatedAt (run_callbacks p a0) = hd "" (List.filter nonempty (time_elems p))
    /\ UpdatedAt (run_callbacks p a0) = List.last (List.filter nonempty (time_elems p)) "").
  { unfold run_callbacks. destruct (fold_onTime (time_elems p)
      (fold_left onBody (fallback_body_elems p)
         (fold_left onBody (body_elems p)
            (fold_left onTitle (title_elems p)
               (fold_left onHeaderH3 (header_h3 p) a0))))) as [-> ->].
    destruct (stamps_kept onBody onBody_stamps (fallback_body_elems p)
      (fold_left onBody (body_elems p)
         (fold_left onTitle (title_elems p)
            (fold_left onHeaderH3 (header_h3 p) a0)))) as [-> ->].
    destruct (stamps_kept onBody onBody_stamps (body_elems p)
      (fold_left onTitle (title_elems p)
         (fold_left onHeaderH3 (header_h3 p) a0))) as [-> ->].
    destruct (stamps_kept onTitle onTitle_stamps (title_elems p)
      (fold_left onHeaderH3 (header_h3 p) a0)) as [-> ->].
    destruct (stamps_kept onHeaderH3 onHeaderH3_stamps (header_h3 p) a0) as [-> ->].
    now split. }
  set (art := run_callbacks p a0) in *. destruct Hstamps as [Hc Hu].
  destruct (_ || _); [discriminate |].
  destruct (is_empty (Body art)); [discriminate |].
  intros H. injection H as <-.
  destruct (is_empty (CreatedAt art)) eqn:Ec.
  - rewrite Hc in Ec. apply filter_nonempty_hd in Ec. rewrite Ec in *.
    cbn [with_CreatedAt UpdatedAt]. cbn [List.last] in Hu. rewrite Hu.
    change (is_empty "") with true. cbv iota. now split.
  - destruct (is_empty (UpdatedAt art)) eqn:Eu.
    + rewrite Hu in Eu. apply filter_nonempty_last in Eu. rewrite Eu in Hc.
      cbn [hd] in Hc. rewrite Hc in Ec. discriminate.
    + destruct (List.filter nonempty (time_elems p)) as [|first rest].
      * cbn [hd] in Hc. rewrite Hc in Ec. discriminate.
      * cbn [hd] in Hc. rewrite last_cons in Hu. now split.
Qed.

Lemma scrape_timestamps_witness :
  CreatedAt (mkArticle "12" "Release 12" "<p>First body</p>"
               "https://x/hc/en-us/articles/12-a"
               "2024-05-01T10:00:00Z" "2024-06-01T10:00:00Z")
  = "2024-05-01T10:00:00Z"
  /\ UpdatedAt (mkArticle "12" "Release 12" "<p>First body</p>"
                  "https://x/hc/en-us/articles/12-a"
                  "2024-05-01T10:00:00Z" "2024-06-01T10:00:00Z")
     = List.last ["2024-06-01T10:00:00Z"] "2024-05-01T10:00:00Z".
Proof.
  apply (scrape_timestamps "https://x/hc/en-us/articles/12-a" 0
           (mkWorld (Visited busy_page None) "now1" "now2") busy_page None).
  - reflexivity.
  - vm_compute. reflexivity.
Defined.

End Selection.

(** ** More on the result cache and the search facade *)

Section CacheUse.
Import GoInt GoStrings Search Design.

(** A lookup touches no key but its own: it is a hit exactly when the
    cache holds an entry for the key that is not older than the TTL, it
    then returns that entry's result and leaves the cache as it is; a miss
    on an absent key also leaves the cache as it is, and a miss on an
    expired entry removes that entry and nothing else. *)
Lemma lookup_is_lazy_and_local (now : Z) (key : string) (cache : Cache) :
  (snd (fst (getCachedResult now key cache)) = true <->
   exists entry, cache !! key = Some entry /\ now - Timestamp entry <= TTL)
  /\ (forall entry, cache !! key = Some entry -> now - Timestamp entry <= TTL ->
                    getCachedResult now key cache = ((Result entry, true), cache))
  /\ (cache !! key = None ->
      getCachedResult now key cache = ((zeroSearchResult, false), cache))
  /\ (forall entry, cache !! key = Some entry -> TTL < now - Timestamp entry ->
                    getCachedResult now key cache
                    = ((zeroSearchResult, false), delete key cache))
  /\ (forall k, k <> key -> snd (getCachedResult now key cache) !! k = cache !! k).
Proof.
  unfold getCachedResult. repeat split.
  - destruct (cache !! key) as [entry|]; [| discriminate].
    destruct (expired now entry) eqn:E; [discriminate |].
    intros _. exists entry. split; [reflexivity | now apply expired_false].
  - intros (entry & -> & Hfresh). apply expired_false in Hfresh. now rewrite Hfresh.
  - intros entry -> Hfresh. apply expired_false in Hfresh. now rewrite Hfresh.
  - now intros ->.
  - intros entry -> Hold. apply expired_true in Hold. now rewrite Hold.
  - intros k Hk. destruct (cache !! key) as [entry|]; [| reflexivity].
    destruct (expired now entry); [| reflexivity].
    cbn [snd]. apply lookup_delete_ne. congruence.
Qed.

(** While the cache holds at most 1000 entries a store evicts
    nothing, not even entries older than the TTL: every other key keeps
    its entry. *)
Lemma small_cache_is_never_swept (clock : string -> Z) (now : Z) (key : string)
    (result : SearchResult) (cache : Cache) :
  Z.of_nat (size cache) <= 1000 ->
  cacheResult clock now key result cache = <[key := mkCacheEntry result now]> cache
  /\ (forall k, k <> key ->
                cacheResult clock now key result cache !! k = cache !! k)
  /\ (size cache <= size (cacheResult clock now key result cache))%nat.
Proof.
  intros Hsmall. unfold cacheResult.
  replace (1000 <? Z.of_nat (size cache)) with false
    by (symmetry; apply Z.ltb_ge; lia).
  split; [reflexivity |]. split.
  - intros k Hk. apply lookup_insert_ne. congruence.
  - rewrite map_size_insert. destruct (cache !! key); simpl; lia.
Qed.

Lemma store_fresh_grows (clock : string -> Z) (now : Z) (key : string)
    (result : SearchResult) (cache : Cache) :
  (forall k entry, cache !! k = Some entry -> clock k - Timestamp entry <= TTL) ->
  cacheResult clock now key result cache = <[key := mkCacheEntry result now]> cache.
Proof.
  intros Hfresh. unfold cacheResult.
  destruct (1000 <? Z.of_nat (size cache)); [| reflexivity].
  f_equal. apply map_eq. intros k. rewrite sweep_lookup.
  destruct (cache !! k) as [entry|] eqn:E; [| reflexivity].
  specialize (Hfresh k entry E). apply expired_false in Hfresh. now rewrite Hfresh.
Qed.

Lemma store_all_spec (now : Z) (r : SearchResult) (keys : list string) :
  forall cache,
    (forall k entry, cache !! k = Some entry -> now - Timestamp entry <= TTL) ->
    store_all now r keys cache
    = fold_left (fun c k => <[k := mkCacheEntry r now]> c) keys cache.
Proof.
  unfold store_all. induction keys as [|key keys IH]; intros cache Hfresh;
    [reflexivity |].
  cbn [fold_left]. rewrite (store_fresh_grows _ now key r cache Hfresh).
  apply IH. intros k entry. rewrite lookup_insert. destruct (decide (key = k)).
  - intros H. injection H as <-. cbn [Timestamp]. unfold TTL, Minute, Second, Millisecond. lia.
  - apply Hfresh.
Qed.

Lemma fold_insert_size (now : Z) (r : SearchResult) (keys : list string) :
  forall cache : Cache,
    NoDup keys -> (forall k, In k keys -> cache !! k = None) ->
    size (fold_left (fun c k => <[k := mkCacheEntry r now]> c) keys cache)
    = (size cache + length keys)%nat.
Proof.
  induction keys as [|key keys IH]; intros cache Hnd Hnew; cbn [fold_left length].
  - lia.
  - apply NoDup_cons in Hnd. destruct Hnd as [Hnotin Hnd].
    rewrite IH; [| exact Hnd |].
    + rewrite map_size_insert_None by (apply Hnew; now left). lia.
    + intros k Hk. rewrite lookup_insert_ne.
      * apply Hnew. now right.
      * intros ->. apply Hnotin. now apply list_elem_of_In.
Qed.

(** X13. The cache has no size limit: results stored under [n] distinct
    keys within the TTL leave [n] entries, whatever [n] is; the sweep at
    1000 entries finds nothing to remove. *)
Theorem cache_growth_is_unbounded (now : Z) (r : SearchResult) (keys : list string) :
  NoDup keys ->
  size (store_all now r keys ∅) = length keys.
Proof.
  intros Hnd. rewrite store_all_spec.
  - rewrite fold_insert_size; [| exact Hnd |].
    + now rewrite map_size_empty.
    + intros k _. apply lookup_empty.
  - intros k entry. now rewrite lookup_empty.
Qed.

Lemma cache_growth_is_unbounded_witness :
  size (store_all 0 zeroSearchResult (map pretty (seq 0 1500)) ∅) = 1500%nat.
Proof.
  rewrite (cache_growth_is_unbounded 0 zeroSearchResult (map pretty (seq 0 1500))).
  - now rewrite length_map, length_seq.
  - apply NoDup_fmap_2; [apply _ | apply NoDup_seq].
Defined.
(** X14. A store under one key does not change what a later lookup of
    another key returns: the sweep only removes entries that the later
    lookup would have treated as expired anyway. *)
Theorem store_is_invisible_to_other_keys (clock : string -> Z) (now t : Z)
    (key other : string) (result : SearchResult) (cache : Cache) :
  other <> key ->
  clock other <= t ->
  fst (getCachedResult t other (cacheResult clock now key result cache))
  = fst (getCachedResult t other cache).
Proof.
  intros Hother Hclock. unfold getCachedResult, cacheResult.
  destruct (1000 <? Z.of_nat (size cache)).
  - rewrite lookup_insert_ne by congruence. rewrite sweep_lookup.
    destruct (cache !! other) as [entry|]; [| reflexivity].
    destruct (expired (clock other) entry) eqn:Eold.
    + apply expired_true in Eold.
      assert (Hlater : expired t entry = true) by (apply expired_true; lia).
      now rewrite Hlater.
    + now destruct (expired t entry).
  - rewrite lookup_insert_ne by congruence.
    destruct (cache !! other) as [entry|]; [| reflexivity].
    now destruct (expired t entry).
Qed.

Lemma store_is_invisible_to_other_keys_witness :
  fst (getCachedResult (TTL + 2) "7"
         (cacheResult (fun _ => TTL + 1) (TTL + 1) "new" zeroSearchResult full_cache))
  = fst (getCachedResult (TTL + 2) "7" full_cache).
Proof.
  apply (store_is_invisible_to_other_keys (fun _ => TTL + 1) (TTL + 1) (TTL + 2)
           "new" "7" zeroSearchResult full_cache);
    [discriminate | vm_compute; discriminate].
Defined.

(** X15. A search that misses the cache and gets a decodable reply stores
    it, and the same search repeated within the TTL is answered from the
    cache: it returns the same articles and total, leaves the cache as it
    is, and does not depend on the engine, which may have failed since. *)
Theorem repeated_search_is_served_from_cache
    (cacheKeyOf : string -> Z -> Z -> string) (engine engine' : json -> EngineReply)
    (query : string) (from size tLookup : Z) (tSweep tSweep' : string -> Z)
    (tStore t tStore' : Z) (cache : Cache) (status : Z) (searchResp : SearchResponse) :
  snd (fst (getCachedResult tLookup (cacheKeyOf query from size) cache)) = false ->
  engine (buildEnhancedQuery query from size) = Responded status (DecodedOk searchResp) ->
  t - tStore <= TTL ->
  let first :=
    searchElasticsearch cacheKeyOf engine query from size tLookup tSweep tStore cache in
  fst first = (map Source (Hits searchResp), TotalValue searchResp, None)
  /\ searchElasticsearch cacheKeyOf engine' query from size t tSweep' tStore' (snd first)
     = first.
Proof.
  intros Hmiss Hreply Hfresh first. subst first. unfold searchElasticsearch.
  destruct (getCachedResult tLookup (cacheKeyOf query from size) cache)
    as [[cached found] cache1].
  cbn [fst snd] in Hmiss. subst found. rewrite Hreply. cbn [fst snd].
  split; [reflexivity |].
  unfold getCachedResult at 1.
  rewrite cacheResult_lookup_key.
  assert (Hx : expired t
                 (mkCacheEntry
                    (mkSearchResult (map Source (Hits searchResp)) (TotalValue searchResp)
                       "" 0 0 false false 0 0 0 [] "") tStore) = false)
    by (apply expired_false; exact Hfresh).
  rewrite Hx. reflexivity.
Qed.

Lemma repeated_search_is_served_from_cache_witness :
  searchElasticsearch sample_key broken_engine "release" 0 10 60 (fun _ => 60) 60
    (snd (searchElasticsearch sample_key working_engine "release" 0 10 0 (fun _ => 0) 0 ∅))
  = searchElasticsearch sample_key working_engine "release" 0 10 0 (fun _ => 0) 0 ∅.
Proof.
  apply (repeated_search_is_served_from_cache sample_key working_engine broken_engine
           "release" 0 10 0 (fun _ => 0) (fun _ => 60) 0 60 60 ∅ 200 sample_hits);
    [reflexivity | reflexivity | vm_compute; discriminate].
Defined.

(** X16. A search that misses the cache and whose request fails, or
    whose reply does not decode, returns that error with no articles, and
    afterwards the cache holds no entry for the search; every other key
    keeps what it had. *)
Theorem failed_search_leaves_no_entry
    (cacheKeyOf : string -> Z -> Z -> string) (engine : json -> EngineReply)
    (query : string) (from size tLookup : Z) (tSweep : string -> Z) (tStore : Z)
    (cache : Cache) (err : error) :
  snd (fst (getCachedResult tLookup (cacheKeyOf query from size) cache)) = false ->
  (engine (buildEnhancedQuery query from size) = PostError err
   \/ exists status,
       engine (buildEnhancedQuery query from size)
       = Responded status (DecodeError err)) ->
  let out :=
    searchElasticsearch cacheKeyOf engine query from size tLookup tSweep tStore cache in
  fst out = ([], 0, Some err)
  /\ snd out !! cacheKeyOf query from size = None
  /\ forall k, k <> cacheKeyOf query from size -> snd out !! k = cache !! k.
Proof.
  intros Hmiss Hreply out. subst out. unfold searchElasticsearch.
  assert (Hcache : snd (getCachedResult tLookup (cacheKeyOf query from size) cache)
                   !! cacheKeyOf query from size = None
                   /\ forall k, k <> cacheKeyOf query from size ->
                        snd (getCachedResult tLookup (cacheKeyOf query from size) cache)
                        !! k = cache !! k).
  { revert Hmiss. unfold getCachedResult.
    destruct (cache !! cacheKeyOf query from size) as [entry|] eqn:E.
    - destruct (expired tLookup entry); [| discriminate].
      intros _. cbn [snd]. split; [apply lookup_delete_eq |].
      intros k Hk. apply lookup_delete_ne. congruence.
    - intros _. cbn [snd]. split; [exact E | reflexivity]. }
  destruct (getCachedResult tLookup (cacheKeyOf query from size) cache)
    as [[cached found] cache1].
  cbn [fst snd] in Hmiss, Hcache. subst found.
  destruct Hreply as [-> | [status ->]]; cbn [fst snd]; tauto.
Qed.

Lemma failed_search_leaves_no_entry_witness :
  fst (searchElasticsearch sample_key broken_engine "release" 0 10
         (TTL + 1) (fun _ => TTL + 1) (TTL + 1)
         {[ sample_key "release" 0 10 := mkCacheEntry zeroSearchResult 0 ]})
  = ([], 0, Some "connection refused").
Proof.
  apply (failed_search_leaves_no_entry sample_key broken_engine "release" 0 10
           (TTL + 1) (fun _ => TTL + 1) (TTL + 1)
           {[ sample_key "release" 0 10 := mkCacheEntry zeroSearchResult 0 ]}
           "connection refused");
    [reflexivity | left; reflexivity].
Defined.

End CacheUse.

(** ** The search handlers *)

Section Handlers.
Import GoInt GoStrings Search Design.

Lemma Atoi_range (s : string) (v : Z) : Atoi s = Some v -> in_int64 v.
Proof.
  unfold Atoi.
  destruct (match s with
            | String "-" rest => (true, rest)
            | String "+" rest => (false, rest)
            | _ => (false, s)
            end) as [neg digits].
  destruct digits as [|c digits]; [discriminate |].
  destruct (decimal 0 (String c digits)) as [n|]; [| discriminate].
  destruct ((min_int64 <=? (if neg then - n else n))
            && ((if neg then - n else n) <=? max_int64)) eqn:E; [| discriminate].
  intros H. injection H as <-.
  apply andb_true_iff in E. destruct E as [E1 E2].
  apply Z.leb_le in E1, E2. split; assumption.
Qed.

Lemma page_range (pageStr : string) :
  1 <= match pageStr with
       | EmptyString => 1
       | _ => match Atoi pageStr with
              | Some p => if 0 <? p then p else 1
              | None => 1
              end
       end <= max_int64.
Proof.
  assert (Hmax : 1 <= max_int64) by (unfold max_int64; lia).
  destruct pageStr as [|c rest]; [lia |].
  destruct (Atoi (String c rest)) as [p|] eqn:E; [| lia].
  apply Atoi_range in E. destruct E as [_ E].
  destruct (0 <? p) eqn:Hp; [| lia].
  apply Z.ltb_lt in Hp. lia.
Qed.

Lemma pages_needed (total size : Z) :
  1 <= size -> 0 <= total -> total + size <= max_int64 ->
  let pages := Z.quot (add64 (add64 total size) (-1)) size in
  total <= size * pages < total + size
  /\ forall page, page < pages <-> size * page < total.
Proof.
  intros Hsize Htotal Hmax pages. subst pages.
  assert (Hmin : min_int64 <= 0) by (unfold min_int64; lia).
  unfold add64. rewrite (wrap64_small (total + size)) by (unfold in_int64; lia).
  rewrite wrap64_small by (unfold in_int64; lia).
  rewrite Z.quot_div_nonneg by lia.
  pose proof (Z.div_mod (total + size + -1) size ltac:(lia)) as Hdiv.
  pose proof (Z.mod_pos_bound (total + size + -1) size ltac:(lia)) as Hmod.
  set (pages := (total + size + -1) / size) in *.
  split; [lia |].
  intros page. split; intros H.
  - assert (size * (page + 1) <= size * pages) by (apply Z.mul_le_mono_nonneg_l; lia).
    lia.
  - apply Z.nle_gt. intros Hle.
    assert (size * pages <= size * page) by (apply Z.mul_le_mono_nonneg_l; lia).
    lia.
Qed.

(** X17. A query that is blank once trimmed is answered with an empty
    page (no articles, total 0, no neighbouring pages) without a search:
    the engine is not asked and the cache is left as it is. *)
Theorem blank_query_is_not_searched (q pageStr : string) :
  TrimSpace q = "" ->
  exists page,
    1 <= page
    /\ forall cacheKeyOf engine tLookup tSweep tStore cache,
         searchHandler cacheKeyOf engine q pageStr tLookup tSweep tStore cache
         = (Rendered (mkSearchResult [] 0 "" page 0 false false 0 0 10 [] ""), cache).
Proof.
  intros Hblank. eexists. split; [apply (page_range pageStr) |].
  intros. unfold searchHandler. rewrite Hblank. reflexivity.
Qed.

Lemma blank_query_is_not_searched_witness :
  exists page,
    1 <= page
    /\ forall cacheKeyOf engine tLookup tSweep tStore cache,
         searchHandler cacheKeyOf engine (String (byte 32) (String (byte 9) "")) "3"
           tLookup tSweep tStore cache
         = (Rendered (mkSearchResult [] 0 "" page 0 false false 0 0 10 [] ""), cache).
Proof.
  apply (blank_query_is_not_searched (String (byte 32) (String (byte 9) "")) "3").
  reflexivity.
Defined.

(** X18. The page the handler renders for a query that is not blank:
    the current page is at least 1 with 10 results per page; for a total
    the engine can report, the number of pages is the total divided by 10
    and rounded up, there is a next page exactly when results remain
    beyond the current one, and a previous page exactly when the current
    page is not the first. *)
Theorem rendered_page_is_consistent (cacheKeyOf : string -> Z -> Z -> string)
    (engine : json -> EngineReply) (q pageStr : string)
    (tLookup : Z) (tSweep : string -> Z) (tStore : Z) (cache cache' : Cache)
    (r : SearchResult) :
  TrimSpace q <> "" ->
  searchHandler cacheKeyOf engine q pageStr tLookup tSweep tStore cache
  = (Rendered r, cache') ->
  Query r = TrimSpace q
  /\ 1 <= CurrentPage r
  /\ ResultsPerPage r = 10
  /\ PrevPage r = CurrentPage r - 1
  /\ (HasPrev r = true <-> 1 < CurrentPage r)
  /\ (0 <= Total r <= max_int64 - 10 ->
      Total r <= 10 * TotalPages r < Total r + 10
      /\ (HasNext r = true <-> 10 * CurrentPage r < Total r)).
Proof.
  intros Hquery. unfold searchHandler.
  pose proof (page_range pageStr) as Hpage.
  set (page := match pageStr with
               | EmptyString => 1
               | _ => match Atoi pageStr with
                      | Some p => if 0 <? p then p else 1
                      | None => 1
                      end
               end) in *.
  destruct (TrimSpace q) as [|c query] eqn:Eq; [congruence |].
  destruct (searchElasticsearch cacheKeyOf engine (String c query)
              (mul64 (add64 page (-1)) 10) 10 tLookup tSweep tStore cache)
    as [[[articles total] [err|]] cache1]; [discriminate |].
  intros H. injection H as <- <-.
  cbn [Query CurrentPage ResultsPerPage PrevPage HasPrev HasNext Total TotalPages].
  assert (Hmin : min_int64 <= 0) by (unfold min_int64; lia).
  split; [reflexivity |]. split; [lia |]. split; [reflexivity |].
  split; [unfold add64; rewrite wrap64_small by (unfold in_int64; lia); lia |].
  split; [rewrite Z.ltb_lt; reflexivity |].
  intros Htotal.
  destruct (pages_needed total 10 ltac:(lia) ltac:(lia) ltac:(lia)) as [Hpages Hnext].
  split; [exact Hpages |].
  rewrite Z.ltb_lt. apply Hnext.
Qed.

Lemma rendered_page_is_consistent_witness :
  let r := mkSearchResult (map Source (Hits sample_hits)) 12 "release" 2 2
             true false 1 3 10 [] "" in
  1 <= CurrentPage r
  /\ (HasPrev r = true <-> 1 < CurrentPage r)
  /\ (HasNext r = true <-> 10 * CurrentPage r < Total r).
Proof.
  intros r.
  destruct (rendered_page_is_consistent sample_key working_engine "release" "2"
              0 (fun _ => 0) 0 ∅
              (snd (searchHandler sample_key working_engine "release" "2"
                      0 (fun _ => 0) 0 ∅))
              r ltac:(discriminate) ltac:(reflexivity))
    as (_ & Hpage & _ & _ & Hprev & Hnext).
  split; [exact Hpage |]. split; [exact Hprev |].
  apply Hnext. vm_compute. split; discriminate.
Defined.

(** X19. When the request to the engine fails and the cache has nothing
    fresh to serve, the handler answers 500 with the engine's error in the
    message, and the cache gains no entry. *)
Theorem engine_failure_is_reported (cacheKeyOf : string -> Z -> Z -> string)
    (engine : json -> EngineReply) (q pageStr : string)
    (tLookup : Z) (tSweep : string -> Z) (tStore : Z) (cache : Cache) (err : error) :
  TrimSpace q <> "" ->
  (forall key, snd (fst (getCachedResult tLookup key cache)) = false) ->
  (forall esQuery, engine esQuery = PostError err) ->
  exists cache',
    searchHandler cacheKeyOf engine q pageStr tLookup tSweep tStore cache
    = (InternalServerError ("Search error: " +:+ err), cache')
    /\ cache' ⊆ cache.
Proof.
  intros Hquery Hmiss Hfail. unfold searchHandler.
  set (page := match pageStr with
               | EmptyString => 1
               | _ => match Atoi pageStr with
                      | Some p => if 0 <? p then p else 1
                      | None => 1
                      end
               end).
  destruct (TrimSpace q) as [|c query] eqn:Eq; [congruence |].
  destruct (search_failure_is_not_cached cacheKeyOf engine (String c query)
              (mul64 (add64 page (-1)) 10) 10 tLookup tSweep tStore cache err
              (Hmiss _) (or_introl (Hfail _))) as (cache' & -> & Hsub).
  exists cache'. split; [reflexivity | exact Hsub].
Qed.

Lemma engine_failure_is_reported_witness :
  exists cache',
    searchHandler sample_key broken_engine "release" "" 0 (fun _ => 0) 0 ∅
    = (InternalServerError "Search error: connection refused", cache')
    /\ cache' ⊆ ∅.
Proof.
  apply (engine_failure_is_reported sample_key broken_engine "release" ""
           0 (fun _ => 0) 0 ∅ "connection refused");
    [discriminate | reflexivity | reflexivity].
Defined.

(** X20. The JSON API asks the search only for windows within its
    limits: a query that is not empty, an offset that is not negative and
    a size from 1 to 50. Two searches that agree on such windows make the
    handler answer alike. *)
Theorem api_searches_only_within_limits {Store : Type}
    (search1 search2 :
       string -> Z -> Z -> Store
       -> (list Search.Article * Z * option SearchAPI.error) * Store)
    (bound : SearchAPI.Binding) (searchTime : string) (st : Store) :
  (forall q from size st,
      q <> "" -> 0 <= from -> 1 <= size <= 50 ->
      search1 q from size st = search2 q from size st) ->
  SearchAPI.searchHandler search1 bound searchTime st
  = SearchAPI.searchHandler search2 bound searchTime st.
Proof.
  intros Hagree. unfold SearchAPI.searchHandler.
  destruct bound as [details | req]; [reflexivity |].
  destruct (SearchAPI.ReqQuery req) as [|c query] eqn:Eq; [reflexivity |].
  rewrite Hagree; [reflexivity | discriminate | |].
  - destruct (SearchAPI.From req <? 0) eqn:E; [lia | apply Z.ltb_ge in E; lia].
  - destruct (SearchAPI.Size req <=? 0) eqn:E1; cbn [orb]; [lia |].
    destruct (50 <? SearchAPI.Size req) eqn:E2; [lia |].
    apply Z.leb_gt in E1. apply Z.ltb_ge in E2. lia.
Qed.

Lemma api_searches_only_within_limits_witness :
  SearchAPI.searchHandler strict_search oversized_request "0.10ms" tt
  = SearchAPI.searchHandler lenient_search oversized_request "0.10ms" tt.
Proof.
  apply (api_searches_only_within_limits strict_search lenient_search
           oversized_request "0.10ms" tt).
  intros q from size [] _ Hfrom Hsize. unfold strict_search, lenient_search.
  replace (0 <=? from) with true by (symmetry; apply Z.leb_le; lia).
  replace (1 <=? size) with true by (symmetry; apply Z.leb_le; lia).
  replace (size <=? 50) with true by (symmetry; apply Z.leb_le; lia).
  reflexivity.
Defined.

(** X21. A response of the JSON API: the page size is from 1 to 50 and
    the current page at least 1, whatever the request asked for; for an
    offset below the largest [int] and a total the engine can report,
    the current page is the one that holds the offset, there is at least
    one page in total, a next page exactly when results remain beyond the
    current one, and a previous page exactly when the offset is at least
    one page size. *)
Theorem api_response_is_consistent {Store : Type}
    (search :
       string -> Z -> Z -> Store
       -> (list Search.Article * Z * option SearchAPI.error) * Store)
    (bound : SearchAPI.Binding) (searchTime : string) (st st' : Store)
    (resp : SearchAPI.SearchAPIResponse) :
  SearchAPI.searchHandler search bound searchTime st = (SearchAPI.OK resp, st') ->
  exists req,
    bound = SearchAPI.Bound req
    /\ SearchAPI.Query resp = SearchAPI.ReqQuery req
    /\ SearchAPI.Query resp <> ""
    /\ 1 <= SearchAPI.ResultsPerPage resp <= 50
    /\ 1 <= SearchAPI.CurrentPage resp
    /\ (SearchAPI.From req < max_int64 ->
        0 <= SearchAPI.Total resp <= max_int64 - 50 ->
        let from := Z.max 0 (SearchAPI.From req) in
        let size := SearchAPI.ResultsPerPage resp in
        size * (SearchAPI.CurrentPage resp - 1) <= from
                                                < size * SearchAPI.CurrentPage resp
        /\ 1 <= SearchAPI.TotalPages resp
        /\ SearchAPI.Total resp <= size * SearchAPI.TotalPages resp
        /\ (SearchAPI.HasNext resp = true
            <-> size * SearchAPI.CurrentPage resp < SearchAPI.Total resp)
        /\ (SearchAPI.HasPrev resp = true <-> size <= from)).
Proof.
  unfold SearchAPI.searchHandler.
  destruct bound as [details | req]; [discriminate |].
  destruct (SearchAPI.ReqQuery req) as [|c query] eqn:Eq; [discriminate |].
  set (size := if (SearchAPI.Size req <=? 0) || (50 <? SearchAPI.Size req)
               then 10 else SearchAPI.Size req).
  set (from := if SearchAPI.From req <? 0 then 0 else SearchAPI.From req).
  assert (Hsize : 1 <= size <= 50).
  { subst size. destruct (SearchAPI.Size req <=? 0) eqn:E1; cbn [orb]; [lia |].
    destruct (50 <? SearchAPI.Size req) eqn:E2; [lia |].
    apply Z.leb_gt in E1. apply Z.ltb_ge in E2. lia. }
  assert (Hfrom : from = Z.max 0 (SearchAPI.From req)).
  { subst from. destruct (SearchAPI.From req <? 0) eqn:E;
      [apply Z.ltb_lt in E | apply Z.ltb_ge in E]; lia. }
  destruct (search (String c query) from size st)
    as [[[articles total] [err|]] st1]; [discriminate |].
  intros H. injection H as <- <-.
  cbn [SearchAPI.Query SearchAPI.ResultsPerPage SearchAPI.CurrentPage
       SearchAPI.Total SearchAPI.TotalPages SearchAPI.HasNext SearchAPI.HasPrev].
  exists req. split; [reflexivity |]. split; [now rewrite Eq |].
  split; [discriminate |]. split; [exact Hsize |].
  split.
  { destruct (add64 (from ÷ size) 1 <=? 0) eqn:E; [lia | apply Z.leb_gt in E; lia]. }
  intros Hbig Htotal. rewrite <- Hfrom.
  assert (Hmin : min_int64 <= 0) by (unfold min_int64; lia).
  assert (Hmaxv : max_int64 = 9223372036854775807) by reflexivity.
  assert (Hfrom0 : 0 <= from < max_int64) by lia.
  pose proof (Z.div_mod from size ltac:(lia)) as Hdiv.
  pose proof (Z.mod_pos_bound from size ltac:(lia)) as Hmod.
  assert (Hq : 0 <= from / size <= from).
  { split; [apply Z.div_pos; lia |].
    apply Z.div_le_upper_bound; [lia |].
    assert (1 * from <= size * from) by (apply Z.mul_le_mono_nonneg_r; lia). lia. }
  assert (Hpg : add64 (from ÷ size) 1 = from / size + 1).
  { rewrite Z.quot_div_nonneg by lia. unfold add64.
    apply wrap64_small. unfold in_int64. lia. }
  rewrite !Hpg.
  replace (from / size + 1 <=? 0) with false by (symmetry; apply Z.leb_gt; lia).
  destruct (pages_needed total size ltac:(lia) ltac:(lia) ltac:(lia))
    as [Hpages Hnext].
  set (pages := Z.quot (add64 (add64 total size) (-1)) size) in *.
  assert (Hp0 : 0 <= pages).
  { apply Z.nlt_ge. intros Hneg.
    assert (size * pages <= size * (-1)) by (apply Z.mul_le_mono_nonneg_l; lia).
    lia. }
  split.
  { replace (size * (from / size + 1 - 1)) with (size * (from / size)) by (f_equal; lia).
    lia. }
  destruct (pages =? 0) eqn:Ez.
  - apply Z.eqb_eq in Ez.
    assert (Ht : total = 0) by lia.
    split; [lia |]. split; [lia |]. split.
    + rewrite Z.ltb_lt. split; [lia |]. intros Hlt. exfalso.
      assert (0 <= size * (from / size + 1)) by (apply Z.mul_nonneg_nonneg; lia).
      lia.
    + rewrite Z.ltb_lt. split; intros Hx.
      * assert (1 <= from / size) by lia.
        assert (size * 1 <= size * (from / size)) by (apply Z.mul_le_mono_nonneg_l; lia).
        lia.
      * assert (1 <= from / size) by (apply Z.div_le_lower_bound; lia). lia.
  - apply Z.eqb_neq in Ez.
    split; [lia |]. split; [lia |]. split.
    + rewrite Z.ltb_lt. apply Hnext.
    + rewrite Z.ltb_lt. split; intros Hx.
      * assert (1 <= from / size) by lia.
        assert (size * 1 <= size * (from / size)) by (apply Z.mul_le_mono_nonneg_l; lia).
        lia.
      * assert (1 <= from / size) by (apply Z.div_le_lower_bound; lia). lia.
Qed.

Lemma api_response_is_consistent_witness :
  let resp := SearchAPI.mkSearchAPIResponse [] 12 "release" 2 3 true true 1 3 5
                "0.10ms" in
  1 <= SearchAPI.ResultsPerPage resp <= 50
  /\ 1 <= SearchAPI.CurrentPage resp
  /\ 1 <= SearchAPI.TotalPages resp
  /\ (SearchAPI.HasNext resp = true <-> 5 * SearchAPI.CurrentPage resp < 12).
Proof.
  intros resp.
  destruct (api_response_is_consistent lenient_search second_page_request
              "0.10ms" tt tt resp ltac:(reflexivity))
    as (req & Hreq & _ & _ & Hsize & Hpage & Hrest).
  injection Hreq as <-.
  destruct (Hrest ltac:(vm_compute; reflexivity)
              ltac:(vm_compute; split; discriminate))
    as (_ & Hpages & _ & Hnext & _).
  split; [exact Hsize |]. split; [exact Hpage |]. split; [exact Hpages |].
  exact Hnext.
Defined.

End Handlers.

(** ** The text shown for a hit *)

Section Snippets.
Import GoStrings Search Design.

Local Ltac sapp := rewrite ?append_cons, ?append_nil in *.

(** *** Reversal and trimming *)

Lemma rev_onto_app (s acc : string) : rev_onto s acc = reverse s +:+ acc.
Proof.
  unfold reverse. revert acc. induction s as [|c s IH]; intros acc; cbn [rev_onto].
  - reflexivity.
  - rewrite (IH (String c acc)), (IH (String c "")).
    rewrite app_assoc_s. reflexivity.
Qed.

Lemma reverse_cons (c : ascii) (s : string) :
  reverse (String c s) = reverse s +:+ String c "".
Proof. unfold reverse at 1. cbn [rev_onto]. apply rev_onto_app. Qed.

Lemma reverse_app (a b : string) : reverse (a +:+ b) = reverse b +:+ reverse a.
Proof.
  induction a as [|c a IH]; sapp.
  - change (reverse "") with EmptyString. now rewrite app_empty_r.
  - rewrite !reverse_cons, IH. apply app_assoc_s.
Qed.

Lemma reverse_involutive (s : string) : reverse (reverse s) = s.
Proof.
  induction s as [|c s IH]; [reflexivity |].
  rewrite reverse_cons, reverse_app, IH. reflexivity.
Qed.

Lemma trimLeftSpace_suffix (s : string) : exists p, s = p +:+ trimLeftSpace s.
Proof.
  assert (H : forall n s, (String.length s <= n)%nat ->
                          exists p, s = p +:+ trimLeftSpace s).
  { clear s. induction n as [|n IH]; intros s Hlen.
    - destruct s; [now exists EmptyString | simpl in Hlen; lia].
    - destruct s as [|a s1]; [now exists EmptyString |]. cbn [trimLeftSpace].
      destruct (asciiSpace a).
      { destruct (IH s1) as [p Hp]; [simpl in Hlen; lia |].
        exists (String a p). sapp. congruence. }
      destruct s1 as [|b s2]; [now exists EmptyString |].
      destruct (space2 a b).
      { destruct (IH s2) as [p Hp]; [simpl in Hlen; lia |].
        exists (String a (String b p)). sapp. congruence. }
      destruct s2 as [|c s3]; [now exists EmptyString |].
      destruct (space3 a b c); [| now exists EmptyString].
      destruct (IH s3) as [p Hp]; [simpl in Hlen; lia |].
      exists (String a (String b (String c p))). sapp. congruence. }
  apply (H (String.length s)). lia.
Qed.

Lemma trimLeftSpaceRev_suffix (s : string) : exists p, s = p +:+ trimLeftSpaceRev s.
Proof.
  assert (H : forall n s, (String.length s <= n)%nat ->
                          exists p, s = p +:+ trimLeftSpaceRev s).
  { clear s. induction n as [|n IH]; intros s Hlen.
    - destruct s; [now exists EmptyString | simpl in Hlen; lia].
    - destruct s as [|a s1]; [now exists EmptyString |]. cbn [trimLeftSpaceRev].
      destruct (asciiSpace a).
      { destruct (IH s1) as [p Hp]; [simpl in Hlen; lia |].
        exists (String a p). sapp. congruence. }
      destruct s1 as [|b s2]; [now exists EmptyString |].
      destruct (space2 b a).
      { destruct (IH s2) as [p Hp]; [simpl in Hlen; lia |].
        exists (String a (String b p)). sapp. congruence. }
      destruct s2 as [|c s3]; [now exists EmptyString |].
      destruct (space3 c b a); [| now exists EmptyString].
      destruct (IH s3) as [p Hp]; [simpl in Hlen; lia |].
      exists (String a (String b (String c p))). sapp. congruence. }
  apply (H (String.length s)). lia.
Qed.

(** [TrimSpace] cuts a piece out of the string. *)
Lemma TrimSpace_infix (s : string) : exists p q, s = p +:+ TrimSpace s +:+ q.
Proof.
  unfold TrimSpace.
  destruct (trimLeftSpace_suffix s) as [p Hp].
  destruct (trimLeftSpaceRev_suffix (reverse (trimLeftSpace s))) as [q Hq].
  exists p, (reverse q).
  rewrite <- reverse_app, <- Hq, reverse_involutive. exact Hp.
Qed.

(** *** Bytes that stay out *)

Section Bytes.
Variable P : ascii -> bool.

Lemma all_bytes_app (a b : string) :
  all_bytes P (a +:+ b) = all_bytes P a && all_bytes P b.
Proof.
  induction a as [|c a IH]; sapp; cbn [all_bytes]; [reflexivity |].
  now rewrite IH, andb_assoc.
Qed.

Lemma all_bytes_reverse (s : string) : all_bytes P (reverse s) = all_bytes P s.
Proof.
  induction s as [|c s IH]; [reflexivity |].
  rewrite reverse_cons, all_bytes_app, IH. cbn [all_bytes].
  rewrite andb_true_r. apply andb_comm.
Qed.

Lemma all_bytes_TrimSpace (s : string) :
  all_bytes P s = true -> all_bytes P (TrimSpace s) = true.
Proof.
  destruct (TrimSpace_infix s) as (p & q & Hs). rewrite Hs at 1.
  rewrite !all_bytes_app, !andb_true_iff. tauto.
Qed.

Lemma all_bytes_replace_from (old new s : string) :
  all_bytes P new = true ->
  forall skip,
    all_bytes P s = true -> all_bytes P (replace_from old new skip s) = true.
Proof.
  intros Hnew. induction s as [|c s IH]; intros skip; [reflexivity |].
  cbn [all_bytes replace_from]. rewrite andb_true_iff. intros [Hc Hs].
  destruct skip as [|k]; [| now apply IH].
  destruct (HasPrefix (String c s) old).
  - rewrite all_bytes_app, Hnew. now apply IH.
  - cbn [all_bytes]. rewrite Hc. now apply IH.
Qed.

Lemma all_bytes_ReplaceAll (s old new : string) :
  all_bytes P new = true -> all_bytes P s = true ->
  all_bytes P (ReplaceAll s old new) = true.
Proof. intros Hnew Hs. now apply all_bytes_replace_from. Qed.

Lemma all_bytes_replace_while (old new : string) (fuel : nat) :
  all_bytes P new = true ->
  forall text,
    all_bytes P text = true -> all_bytes P (replace_while fuel text old new) = true.
Proof.
  intros Hnew. induction fuel as [|fuel IH]; intros text Ht; cbn [replace_while];
    [exact Ht |].
  destruct (Contains text old); [| exact Ht].
  apply IH. now apply all_bytes_ReplaceAll.
Qed.

Lemma all_bytes_split_from (sep : string) (s : string) :
  forall skip cur,
    all_bytes P cur = true -> all_bytes P s = true ->
    Forall (fun piece => all_bytes P piece = true) (split_from sep skip cur s).
Proof.
  induction s as [|c s IH]; intros skip cur Hcur Hs; cbn [split_from].
  - constructor; [| constructor]. now rewrite all_bytes_reverse.
  - cbn [all_bytes] in Hs. apply andb_true_iff in Hs. destruct Hs as [Hc Hs].
    destruct skip as [|k]; [| now apply IH].
    destruct (HasPrefix (String c s) sep).
    + constructor; [now rewrite all_bytes_reverse | now apply IH].
    + apply IH; [| exact Hs]. cbn [all_bytes]. now rewrite Hc.
Qed.

Lemma all_bytes_Join (sep : string) (elems : list string) :
  all_bytes P sep = true ->
  Forall (fun piece => all_bytes P piece = true) elems ->
  all_bytes P (Join elems sep) = true.
Proof.
  intros Hsep. induction 1 as [|e rest He Hrest IH]; [reflexivity |].
  cbn [Join]. destruct rest as [|e' rest']; [exact He |].
  rewrite !all_bytes_app, He, Hsep. exact IH.
Qed.

Lemma all_bytes_slice_to (n : nat) (s : string) :
  all_bytes P s = true -> all_bytes P (slice_to n s) = true.
Proof.
  revert s. induction n as [|n IH]; intros [|c s]; try reflexivity.
  cbn [all_bytes slice_to]. rewrite !andb_true_iff. intros [Hc Hs].
  split; [exact Hc | now apply IH].
Qed.

Lemma all_bytes_cleanLines (text : string) :
  P newline = true ->
  all_bytes P text = true -> all_bytes P (cleanLines text) = true.
Proof.
  intros Hnl Ht. unfold cleanLines. apply all_bytes_Join.
  - cbn [nl all_bytes]. now rewrite Hnl.
  - apply Forall_forall. intros line Hline. apply list_elem_of_In in Hline.
    apply filter_In in Hline. destruct Hline as [Hline _].
    apply in_map_iff in Hline. destruct Hline as (piece & <- & Hpiece).
    apply all_bytes_TrimSpace.
    pose proof (all_bytes_split_from nl text O EmptyString eq_refl Ht) as Hall.
    rewrite Forall_forall in Hall. apply Hall. now apply list_elem_of_In.
Qed.

End Bytes.
(** *** Tags *)

Lemma high_not_angle (c : ascii) : high c = true -> negb (angle c) = true.
Proof.
  unfold angle. intros H.
  destruct (Ascii.eqb_spec c "<") as [-> | _]; [discriminate |].
  destruct (Ascii.eqb_spec c ">") as [-> | _]; [discriminate | reflexivity].
Qed.

Lemma between_high (lo hi : nat) (c : ascii) :
  (128 <= lo)%nat -> between lo hi c = true -> high c = true.
Proof.
  unfold between, high. intros Hlo H. apply andb_true_iff in H.
  destruct H as [H _]. apply Nat.leb_le in H. apply Nat.leb_le. lia.
Qed.

Lemma leadByte_second (c : ascii) (size lo hi : nat) :
  leadByte c = Some (size, lo, hi) -> (128 <= lo)%nat.
Proof.
  unfold leadByte.
  repeat match goal with
         | |- context [if ?b then _ else _] => destruct b
         end;
    intros H; inversion H; lia.
Qed.

(** The bytes after the first of a sequence of several bytes are not
    ASCII. *)
Lemma runeLen_tail (c : ascii) (s : string) (k : nat) :
  runeLen (String c s) = S k -> all_bytes high (slice_to k s) = true.
Proof.
  unfold runeLen.
  destruct (between 0 127 c); [intros H; injection H as <-; reflexivity |].
  destruct (leadByte c) as [[[size lo] hi]|] eqn:L; [| discriminate].
  apply leadByte_second in L.
  destruct s as [|c1 s2]; [discriminate |].
  destruct (between lo hi c1) eqn:B1; [| discriminate].
  apply (between_high _ _ _ L) in B1.
  destruct (size =? 2)%nat.
  { intros H. injection H as <-. cbn [slice_to all_bytes]. now rewrite B1. }
  destruct s2 as [|c2 s3]; [discriminate |].
  destruct (between 128 191 c2) eqn:B2; [| discriminate].
  apply (between_high 128 191 c2 (Nat.le_refl _)) in B2.
  destruct (size =? 3)%nat.
  { intros H. injection H as <-. cbn [slice_to all_bytes]. now rewrite B1, B2. }
  destruct s3 as [|c3 s4]; [discriminate |].
  destruct (between 128 191 c3) eqn:B3; [| discriminate].
  apply (between_high 128 191 c3 (Nat.le_refl _)) in B3.
  intros H. injection H as <-. cbn [slice_to all_bytes]. now rewrite B1, B2, B3.
Qed.

Lemma removeTags_no_angle (text : string) :
  forall skip inTag,
    all_bytes high (slice_to skip text) = true ->
    no_angle (removeTags skip inTag text) = true.
Proof.
  unfold no_angle.
  induction text as [|c text IH]; intros skip inTag Hskip; [reflexivity |].
  cbn [removeTags]. destruct skip as [|k].
  - destruct (runeLen (String c text)) as [|k] eqn:E.
    + rewrite all_bytes_app. rewrite (IH O inTag eq_refl).
      now destruct inTag.
    + destruct (Ascii.eqb c "<") eqn:Elt; [now apply IH |].
      destruct (Ascii.eqb c ">") eqn:Egt; [now apply IH |].
      rewrite all_bytes_app.
      rewrite (IH k inTag (runeLen_tail c text k E)).
      destruct inTag; [reflexivity |].
      cbn [all_bytes]. unfold angle. now rewrite Elt, Egt.
  - cbn [slice_to all_bytes] in Hskip. apply andb_true_iff in Hskip.
    destruct Hskip as [Hc Hk].
    rewrite all_bytes_app, (IH k inTag Hk).
    destruct inTag; [reflexivity |].
    cbn [all_bytes]. now rewrite (high_not_angle c Hc).
Qed.

Lemma removeHTMLTags_no_angle (text : string) :
  no_angle (removeHTMLTags text) = true.
Proof. now apply removeTags_no_angle. Qed.

(** Text without tags, with its newlines made [<br>]. *)
Lemma breaks_only (t : string) :
  no_angle t = true -> only_breaks O (ReplaceAll t nl "<br>") = true.
Proof.
  unfold no_angle, ReplaceAll. induction t as [|c t IH]; [reflexivity |].
  cbn [all_bytes]. rewrite andb_true_iff. intros [Hc Ht].
  cbn [replace_from]. cbn [nl HasPrefix]. rewrite andb_true_r.
  destruct (Ascii.eqb c newline) eqn:E.
  - change (String.length (String newline "") - 1)%nat with O.
    sapp. cbn [only_breaks HasPrefix Ascii.eqb Bool.eqb andb]. now apply IH.
  - cbn [only_breaks HasPrefix].
    assert (Hlt : Ascii.eqb c "<" = false).
    { unfold angle in Hc. now destruct (Ascii.eqb c "<"). }
    rewrite Hlt. cbn [andb]. rewrite Hc. now apply IH.
Qed.

(** *** Blank lines *)

Lemma no_blank_line_suffix (p s : string) :
  no_blank_line (p +:+ s) = true -> no_blank_line s = true.
Proof.
  induction p as [|c p IH]; sapp; [trivial |].
  cbn [no_blank_line]. rewrite andb_true_iff. intros [_ H]. now apply IH.
Qed.

Lemma starts_with_newline_app (a b : string) :
  a <> EmptyString -> starts_with_newline (a +:+ b) = starts_with_newline a.
Proof. destruct a; [congruence | reflexivity]. Qed.

Lemma no_blank_line_prefix (a b : string) :
  no_blank_line (a +:+ b) = true -> no_blank_line a = true.
Proof.
  induction a as [|c a IH]; sapp; [reflexivity |].
  cbn [no_blank_line]. rewrite !andb_true_iff. intros [Hc H].
  split; [| now apply IH].
  destruct a as [|d a]; [| exact Hc].
  cbn [starts_with_newline]. now rewrite andb_false_r.
Qed.

Lemma no_blank_line_TrimSpace (s : string) :
  no_blank_line s = true -> no_blank_line (TrimSpace s) = true.
Proof.
  destruct (TrimSpace_infix s) as (p & q & Hs). rewrite Hs at 1.
  intros H. apply no_blank_line_suffix in H. now apply no_blank_line_prefix in H.
Qed.

Lemma no_blank_line_slice_to (n : nat) (s : string) :
  no_blank_line s = true -> no_blank_line (slice_to n s) = true.
Proof.
  assert (Hs : s = slice_to n s +:+ slice_from n s).
  { revert s. induction n as [|n IH]; intros [|c s]; try reflexivity.
    cbn [slice_to slice_from]. sapp. now rewrite <- IH. }
  rewrite Hs at 1. apply no_blank_line_prefix.
Qed.

Lemma no_blank_line_dots (s : string) :
  no_blank_line s = true -> no_blank_line (s +:+ "...") = true.
Proof.
  induction s as [|c s IH]; sapp; [reflexivity |].
  cbn [no_blank_line]. rewrite !andb_true_iff. intros [Hc H].
  split; [| now apply IH].
  destruct s as [|d s]; [| exact Hc].
  sapp. cbn [starts_with_newline]. change (Ascii.eqb "." newline) with false.
  now rewrite andb_false_r.
Qed.

(** A line without newline, then a newline, then text that does not
    begin with one. *)
Lemma no_blank_line_line (e rest : string) :
  e <> EmptyString ->
  all_bytes not_newline e = true ->
  starts_with_newline rest = false ->
  no_blank_line rest = true ->
  no_blank_line (e +:+ nl +:+ rest) = true.
Proof.
  intros He Hall Hstart Hrest. induction e as [|c e IH]; [congruence |].
  cbn [all_bytes] in Hall. apply andb_true_iff in Hall. destruct Hall as [Hc Hall].
  unfold not_newline in Hc. apply negb_true_iff in Hc.
  sapp. cbn [no_blank_line]. rewrite Hc. cbn [andb negb].
  destruct e as [|d e].
  - sapp. unfold nl. sapp. cbn [no_blank_line]. rewrite Hstart, andb_false_r. exact Hrest.
  - apply IH; [discriminate | exact Hall].
Qed.

Lemma Join_lines (lines : list string) :
  Forall (fun line => line <> EmptyString /\ all_bytes not_newline line = true) lines ->
  no_blank_line (Join lines nl) = true
  /\ starts_with_newline (Join lines nl) = false.
Proof.
  induction 1 as [|e rest [He Hall] Hrest [IH1 IH2]]; [now split |].
  assert (Hself : no_blank_line e = true /\ starts_with_newline e = false).
  { clear -He Hall. split.
    - induction e as [|c e IH]; [reflexivity |].
      cbn [all_bytes] in Hall. apply andb_true_iff in Hall. destruct Hall as [Hc Hall].
      unfold not_newline in Hc. apply negb_true_iff in Hc.
      cbn [no_blank_line]. rewrite Hc. cbn [andb negb].
      destruct e; [reflexivity | apply IH; [discriminate | exact Hall]].
    - destruct e as [|c e]; [congruence |].
      cbn [all_bytes] in Hall. apply andb_true_iff in Hall. destruct Hall as [Hc _].
      unfold not_newline in Hc. now apply negb_true_iff in Hc. }
  cbn [Join]. destruct rest as [|e' rest']; [exact Hself |].
  split.
  - now apply no_blank_line_line.
  - rewrite starts_with_newline_app by exact He. apply Hself.
Qed.

Lemma split_from_newline (s : string) :
  forall cur,
    all_bytes not_newline cur = true ->
    Forall (fun piece => all_bytes not_newline piece = true) (split_from nl O cur s).
Proof.
  induction s as [|c s IH]; intros cur Hcur; cbn [split_from].
  - constructor; [| constructor]. now rewrite all_bytes_reverse.
  - cbn [nl HasPrefix]. rewrite andb_true_r.
    destruct (Ascii.eqb c newline) eqn:E.
    + change (String.length (String newline "") - 1)%nat with O.
      constructor; [now rewrite all_bytes_reverse | now apply IH].
    + apply IH. cbn [all_bytes]. unfold not_newline at 1. now rewrite E.
Qed.

Lemma cleanLines_no_blank_line (text : string) :
  no_blank_line (cleanLines text) = true.
Proof.
  unfold cleanLines. apply Join_lines.
  apply Forall_forall. intros line Hline. apply list_elem_of_In in Hline.
  apply filter_In in Hline. destruct Hline as [Hline Hne].
  split.
  - intros ->. discriminate.
  - apply in_map_iff in Hline. destruct Hline as (piece & <- & Hpiece).
    apply all_bytes_TrimSpace.
    pose proof (split_from_newline text EmptyString eq_refl) as Hall.
    rewrite Forall_forall in Hall. apply Hall. now apply list_elem_of_In.
Qed.

Lemma no_blank_line_nl3 (s : string) :
  no_blank_line s = true -> Contains s nl3 = false.
Proof.
  induction s as [|c s IH]; [reflexivity |].
  cbn [no_blank_line]. rewrite andb_true_iff. intros [Hc Hs].
  cbn [Contains]. rewrite (IH Hs), orb_false_r.
  change nl3 with (String newline (String newline (String newline ""))).
  cbn [HasPrefix].
  destruct (Ascii.eqb c newline); [| reflexivity].
  destruct s as [|d s]; [reflexivity |].
  cbn [starts_with_newline andb negb] in Hc. apply negb_true_iff in Hc.
  now rewrite Hc.
Qed.

Lemma replace_while_idle (fuel : nat) (text old new : string) :
  Contains text old = false -> replace_while fuel text old new = text.
Proof. intros H. destruct fuel; cbn [replace_while]; [reflexivity | now rewrite H]. Qed.

Lemma contains_after_break (r : string) :
  Contains ("<br>" +:+ r) "<br><br>" = HasPrefix r "<br>" || Contains r "<br><br>".
Proof. reflexivity. Qed.

(** Text without tags and without blank lines, with its newlines made
    [<br>]. *)
Lemma breaks_apart (t : string) :
  no_angle t = true -> no_blank_line t = true ->
  Contains (ReplaceAll t nl "<br>") "<br><br>" = false
  /\ (HasPrefix (ReplaceAll t nl "<br>") "<br>" = true -> starts_with_newline t = true).
Proof.
  unfold no_angle, ReplaceAll. induction t as [|c t IH]; [now split |].
  cbn [all_bytes no_blank_line]. rewrite !andb_true_iff.
  intros [Hc Ht] [Hb Hbl]. destruct (IH Ht Hbl) as [IH1 IH2].
  assert (Hlt : Ascii.eqb c "<" = false).
  { unfold angle in Hc. now destruct (Ascii.eqb c "<"). }
  cbn [replace_from].
  assert (Hnl : HasPrefix (String c t) nl = Ascii.eqb c newline)
    by (cbn [nl HasPrefix]; apply andb_true_r).
  rewrite Hnl. change (String.length nl - 1)%nat with O.
  cbn [starts_with_newline].
  destruct (Ascii.eqb c newline) eqn:E.
  - split; [| reflexivity].
    rewrite contains_after_break, IH1, orb_false_r.
    destruct (HasPrefix (replace_from nl "<br>" 0 t) "<br>") eqn:Hp;
      [| reflexivity].
    rewrite (IH2 eq_refl) in Hb. discriminate.
  - split.
    + cbn [Contains HasPrefix]. rewrite Hlt. cbn [andb orb]. exact IH1.
    + cbn [HasPrefix]. rewrite Hlt. discriminate.
Qed.

(** *** Style attributes *)

Lemma Index_bound (substr s : string) (i : nat) :
  Index s substr = Some i -> (i + String.length substr <= String.length s)%nat.
Proof.
  revert i. induction s as [|c s IH]; intros i; cbn [Index].
  - destruct (HasPrefix "" substr) eqn:E; [| discriminate].
    intros H. injection H as <-. now apply HasPrefix_length in E.
  - destruct (HasPrefix (String c s) substr) eqn:E.
    + intros H. injection H as <-. now apply HasPrefix_length in E.
    + destruct (Index s substr) as [j|]; [| discriminate].
      intros H. injection H as <-. specialize (IH j eq_refl). simpl. lia.
Qed.

Lemma length_slice_to (n : nat) (s : string) :
  String.length (slice_to n s) = Nat.min n (String.length s).
Proof.
  revert s. induction n as [|n IH]; intros [|c s]; try reflexivity.
  cbn [slice_to String.length]. now rewrite IH.
Qed.

Lemma length_slice_from (n : nat) (s : string) :
  String.length (slice_from n s) = (String.length s - n)%nat.
Proof.
  revert s. induction n as [|n IH]; intros [|c s]; try reflexivity.
  cbn [slice_from String.length]. now rewrite IH.
Qed.

Lemma removeStyle_spec (fuel : nat) :
  forall text,
    (String.length text <= fuel)%nat ->
    no_closed_style (removeStyle fuel text)
    /\ (String.length (removeStyle fuel text) <= String.length text)%nat.
Proof.
  induction fuel as [|fuel IH]; intros text Hlen.
  - destruct text; [| simpl in Hlen; lia]. split; [exact I | reflexivity].
  - cbn [removeStyle]. unfold no_closed_style.
    destruct (Index text styleAttr) as [start|] eqn:Es.
    + destruct (Index (slice_from (start + 8) text) (String dquote ""))
        as [e|] eqn:Ee.
      * apply Index_bound in Es. apply Index_bound in Ee.
        rewrite length_slice_from in Ee.
        change (String.length styleAttr) with 8%nat in Es.
        change (String.length (String dquote "")) with 1%nat in Ee.
        assert (Hshort : (String.length
                            (slice_to start text
                             +:+ slice_from (start + 8 + e + 1) text)
                          < String.length text)%nat).
        { rewrite length_append, length_slice_to, length_slice_from. lia. }
        destruct (IH (slice_to start text +:+ slice_from (start + 8 + e + 1) text)
                    ltac:(lia)) as [Hdone Hle].
        split; [exact Hdone | lia].
      * rewrite Es. split; [exact Ee | reflexivity].
    + rewrite Es. split; [exact I | reflexivity].
Qed.

(** *** The snippet *)

(** The clean-up both servers apply once the tags are gone. *)
Lemma tidy_text (t : string) :
  no_angle t = true ->
  no_angle (TrimSpace (replace_while (String.length (cleanLines t)) (cleanLines t)
                         nl3 nl2)) = true
  /\ no_blank_line (TrimSpace (replace_while (String.length (cleanLines t))
                                 (cleanLines t) nl3 nl2)) = true
  /\ replace_while (String.length (cleanLines t)) (cleanLines t) nl3 nl2
     = cleanLines t.
Proof.
  intros Ht.
  assert (Hidle : replace_while (String.length (cleanLines t)) (cleanLines t) nl3 nl2
                  = cleanLines t).
  { apply replace_while_idle, no_blank_line_nl3, cleanLines_no_blank_line. }
  rewrite Hidle. split; [| split; [| reflexivity]].
  - apply all_bytes_TrimSpace. apply all_bytes_cleanLines; [reflexivity | exact Ht].
  - apply no_blank_line_TrimSpace, cleanLines_no_blank_line.
Qed.

Lemma cut_text (n : nat) (t : string) :
  let cut := if (n <? String.length t)%nat then slice_to n t +:+ "..." else t in
  (no_angle t = true -> no_angle cut = true)
  /\ (no_blank_line t = true -> no_blank_line cut = true)
  /\ (String.length cut <= n + 3)%nat.
Proof.
  intros cut. subst cut. destruct (n <? String.length t)%nat eqn:E.
  - split; [| split].
    + intros H. unfold no_angle. rewrite all_bytes_app.
      now rewrite (all_bytes_slice_to _ n t H).
    + intros H. now apply no_blank_line_dots, no_blank_line_slice_to.
    + rewrite length_append, length_slice_to. simpl. lia.
  - apply Nat.ltb_ge in E. split; [trivial | split; [trivial | lia]].
Qed.

Lemma truncated_ok (text : string) :
  no_angle (truncated text) = true
  /\ no_blank_line (truncated text) = true
  /\ (String.length (truncated text) <= 803)%nat.
Proof.
  unfold truncated.
  destruct (tidy_text (removeHTMLTags (removeStyleAttributes
                                         (replaceEach replacements text)))
              (removeHTMLTags_no_angle _)) as (Ha & Hb & _).
  set (t := TrimSpace _) in *.
  destruct (cut_text 800 t) as (Hca & Hcb & Hlen).
  split; [now apply Hca | split; [now apply Hcb | exact Hlen]].
Qed.

Lemma length_breaks (t : string) :
  (String.length (ReplaceAll t nl "<br>") <= 4 * String.length t)%nat.
Proof.
  unfold ReplaceAll. induction t as [|c t IH]; [simpl; lia |].
  cbn [replace_from].
  change (String.length nl - 1)%nat with O.
  destruct (HasPrefix (String c t) nl).
  - rewrite length_append. simpl String.length. lia.
  - simpl String.length. lia.
Qed.

(** X22. Whatever the body of an article holds, the snippet the result
    page shows is text with line breaks and nothing else: every [<] in it
    opens a [<br>] and every [>] closes one, so that no tag of the
    article reaches the page; and it is at most 3212 bytes long. *)
Theorem snippet_has_no_markup (text : string) :
  only_breaks O (truncateHTML text) = true
  /\ (String.length (truncateHTML text) <= 3212)%nat.
Proof.
  destruct (truncated_ok text) as (Ha & _ & Hlen). unfold truncateHTML. split.
  - now apply breaks_only.
  - pose proof (length_breaks (truncated text)). lia.
Qed.

(** X23. The snippet has no empty line: once the blank lines are
    dropped no two newlines are adjacent, the loop that shortens runs of
    three newlines finds nothing to do, and the snippet never holds two
    [<br>] in a row. *)
Theorem snippet_has_no_blank_line (text : string) :
  Contains (cleanLines text) nl3 = false
  /\ Contains (truncateHTML text) "<br><br>" = false.
Proof.
  split.
  - apply no_blank_line_nl3, cleanLines_no_blank_line.
  - destruct (truncated_ok text) as (Ha & Hb & _). unfold truncateHTML.
    now apply breaks_apart.
Qed.

(** X24. [removeStyleAttributes] stops because no style attribute with
    a closing quote is left, it never makes the text longer, and it
    leaves a text without style attribute as it is. *)
Theorem style_attributes_are_removed (text : string) :
  no_closed_style (removeStyleAttributes text)
  /\ (String.length (removeStyleAttributes text) <= String.length text)%nat
  /\ (Index text styleAttr = None -> removeStyleAttributes text = text).
Proof.
  unfold removeStyleAttributes.
  destruct (removeStyle_spec (String.length text) text (Nat.le_refl _)) as [H1 H2].
  split; [exact H1 | split; [exact H2 |]].
  intros Hnone. destruct (String.length text); cbn [removeStyle]; [reflexivity |].
  now rewrite Hnone.
Qed.

Lemma style_attributes_are_removed_witness :
  removeStyleAttributes "<p>no attribute</p>" = "<p>no attribute</p>".
Proof.
  destruct (style_attributes_are_removed "<p>no attribute</p>") as (_ & _ & H).
  apply H. reflexivity.
Defined.

(** X25. The text of a Slack attachment holds no [<] and no [>], no
    two newlines in a row, and at most 303 bytes. *)
Theorem slack_text_is_plain (body : string) :
  no_angle (SearchAPI.attachmentText body) = true
  /\ no_blank_line (SearchAPI.attachmentText body) = true
  /\ (String.length (SearchAPI.attachmentText body) <= 303)%nat.
Proof.
  unfold SearchAPI.attachmentText, SearchAPI.cleanTextForSlack.
  destruct (tidy_text (removeHTMLTags (replaceEach SearchAPI.entities body))
              (removeHTMLTags_no_angle _)) as (Ha & Hb & _).
  set (t := TrimSpace _) in *.
  destruct (cut_text 300 t) as (Hca & Hcb & Hlen).
  split; [now apply Hca | split; [now apply Hcb | exact Hlen]].
Qed.

Example truncateHTML_sample :
  truncateHTML
    ("<div class=" +:+ String dquote "x" +:+ String dquote ""
     +:+ " style=" +:+ String dquote "color:red" +:+ String dquote ""
     +:+ "><p>Hello &amp; <b>welcome</b></p><p></p><ul><li>one</li></ul></div>")
  = "Hello & welcome<br>" +:+ bullet +:+ " one".
Proof. vm_compute. reflexivity. Qed.

End Snippets.

(** ** What [cleanHTML] leaves *)

Section CleanedHTML.
Import GoStrings Crawler Design.

Local Ltac sapp := rewrite ?append_cons, ?append_nil in *.

Lemma HasPrefix_app (x m q : string) :
  HasPrefix m x = true -> HasPrefix (m +:+ q) x = true.
Proof.
  revert m. induction x as [|d x IH]; intros m; [reflexivity |].
  destruct m as [|c m]; [discriminate |]. sapp. cbn [HasPrefix].
  rewrite !andb_true_iff. intros [Hc H]. split; [exact Hc | now apply IH].
Qed.

Lemma Contains_app_r (x m q : string) :
  Contains m x = true -> Contains (m +:+ q) x = true.
Proof.
  induction m as [|c m IH].
  - cbn [Contains]. rewrite orb_false_r. intros H.
    destruct x; [| discriminate]. now destruct q.
  - sapp. cbn [Contains]. rewrite !orb_true_iff. intros [H | H].
    + left. now apply (HasPrefix_app x (String c m) q).
    + right. now apply IH.
Qed.

Lemma Contains_app_l (x p s : string) :
  Contains s x = true -> Contains (p +:+ s) x = true.
Proof.
  intros H. induction p as [|c p IH]; sapp; [exact H |].
  cbn [Contains]. rewrite IH. apply orb_true_r.
Qed.

Lemma Contains_TrimSpace (x s : string) :
  Contains s x = false -> Contains (TrimSpace s) x = false.
Proof.
  intros H. destruct (Contains (TrimSpace s) x) eqn:E; [| reflexivity].
  destruct (TrimSpace_infix s) as (p & q & Hs).
  rewrite Hs in H. rewrite <- H. symmetry.
  now apply Contains_app_l, Contains_app_r.
Qed.

(** Squeezing two spaces into one puts no two bytes side by side that
    were apart, unless a space stays between them. *)
Lemma squeeze_step (c : ascii) (s : string) :
  replace_from "  " " " O (String c s)
  = if HasPrefix (String c s) "  "
    then String " " (replace_from "  " " " O (slice_from 1 s))
    else String c (replace_from "  " " " O s).
Proof.
  cbn [replace_from]. destruct (HasPrefix (String c s) "  ") eqn:E; [| reflexivity].
  change (String.length "  " - 1)%nat with 1%nat. sapp.
  destruct s as [|d s]; [| reflexivity].
  cbn [HasPrefix] in E. rewrite andb_false_r in E. discriminate.
Qed.

Lemma squeeze_prefix (x : string) :
  all_bytes not_space x = true ->
  forall s,
    HasPrefix (replace_from "  " " " O s) x = true -> HasPrefix s x = true.
Proof.
  intros Hx. induction x as [|d x IH]; intros s; [reflexivity |].
  cbn [all_bytes] in Hx. apply andb_true_iff in Hx. destruct Hx as [Hd Hx].
  unfold not_space in Hd. apply negb_true_iff in Hd.
  destruct s as [|c s]; [discriminate |].
  rewrite squeeze_step. destruct (HasPrefix (String c s) "  ").
  - cbn [HasPrefix]. rewrite Ascii.eqb_sym, Hd. discriminate.
  - cbn [HasPrefix]. rewrite !andb_true_iff. intros [Hc H].
    split; [exact Hc | now apply IH].
Qed.

Lemma squeeze_contains (x : string) :
  x <> EmptyString -> all_bytes not_space x = true ->
  forall s,
    Contains s x = false -> Contains (ReplaceAll s "  " " ") x = false.
Proof.
  intros Hne Hx.
  assert (H : forall n s, (String.length s <= n)%nat ->
                          Contains (replace_from "  " " " O s) x = true ->
                          Contains s x = true).
  { induction n as [|n IH]; intros s Hlen.
    - destruct s; [trivial | simpl in Hlen; lia].
    - destruct s as [|c s]; [trivial |].
      rewrite squeeze_step. destruct (HasPrefix (String c s) "  ") eqn:E.
      + destruct s as [|d s];
          [cbn [HasPrefix] in E; rewrite andb_false_r in E; discriminate |].
        cbn [slice_from].
        cbn [Contains]. rewrite !orb_true_iff. intros [H | H].
        * destruct x as [|e x]; [congruence |].
          cbn [all_bytes] in Hx. apply andb_true_iff in Hx. destruct Hx as [He _].
          unfold not_space in He. apply negb_true_iff in He.
          cbn [HasPrefix] in H. rewrite Ascii.eqb_sym, He in H. discriminate.
        * right. right. apply IH; [simpl in Hlen; lia | exact H].
      + cbn [Contains]. rewrite !orb_true_iff. intros [H | H].
        * left. apply (squeeze_prefix x Hx (String c s)).
          rewrite squeeze_step, E. exact H.
        * right. apply IH; [simpl in Hlen; lia | exact H]. }
  intros s Hs. destruct (Contains (ReplaceAll s "  " " ") x) eqn:E; [| reflexivity].
  rewrite <- Hs. symmetry. apply (H (String.length s)); [lia | exact E].
Qed.

Lemma squeeze_while (x : string) (fuel : nat) :
  x <> EmptyString -> all_bytes not_space x = true ->
  forall s,
    Contains s x = false -> Contains (replace_while fuel s "  " " ") x = false.
Proof.
  intros Hne Hx. induction fuel as [|fuel IH]; intros s Hs; cbn [replace_while];
    [exact Hs |].
  destruct (Contains s "  "); [| exact Hs].
  apply IH. now apply squeeze_contains.
Qed.

(** X12. The HTML [cleanHTML] returns has no two spaces in a row and no
    three newlines in a row: each of its two loops runs until nothing is
    left to replace, and the second does not undo the first. *)
Theorem cleaned_html_is_tidy (html : string) :
  Contains (cleanHTML html) "  " = false
  /\ Contains (cleanHTML html) nl3 = false.
Proof.
  unfold cleanHTML.
  set (h := ReplaceAll (ReplaceAll (ReplaceAll (ReplaceAll (ReplaceAll
              (ReplaceAll html "<div></div>" "") "<div> </div>" "") "<p></p>" "")
              "<p> </p>" "") "<span></span>" "") "<span> </span>" "").
  set (h1 := replace_while (String.length h) h nl3 nl2).
  assert (H1 : Contains h1 nl3 = false).
  { subst h1. apply replace_while_done; [simpl; lia | lia]. }
  split; apply Contains_TrimSpace.
  - apply replace_while_done; [simpl; lia | lia].
  - apply squeeze_while; [discriminate | reflexivity | exact H1].
Qed.
End CleanedHTML.

(** ** The two one-off programs *)

Section Links.
Import GoStrings ReleaseNotes Design.

Lemma seen_In (href : string) (articleURLs : list string) :
  existsb (String.eqb href) articleURLs = true <-> In href articleURLs.
Proof.
  rewrite existsb_exists. split.
  - intros (x & Hx & E). apply String.eqb_eq in E. now subst x.
  - intros H. exists href. split; [exact H | apply String.eqb_refl].
Qed.

Lemma onLink_spec (articleURLs : list string) (href : string) :
  NoDup articleURLs ->
  NoDup (onLink articleURLs href)
  /\ (forall url, In url (onLink articleURLs href)
                  <-> In url articleURLs \/ url = absolute href)
  /\ exists more, onLink articleURLs href = articleURLs ++ more.
Proof.
  intros Hnd. unfold onLink.
  destruct (existsb (String.eqb (absolute href)) articleURLs) eqn:E.
  - apply seen_In in E. split; [exact Hnd |]. split.
    + intros url. split; [now left | intros [H | ->]; assumption].
    + exists []. now rewrite app_nil_r.
  - assert (Hnew : ~ In (absolute href) articleURLs).
    { intros H. apply seen_In in H. congruence. }
    split; [| split].
    + apply NoDup_app. split; [exact Hnd |]. split; [| apply NoDup_singleton].
      intros x Hx Hin. apply list_elem_of_In in Hx. apply list_elem_of_In in Hin.
      destruct Hin as [<- | []]. contradiction.
    + intros url. rewrite in_app_iff. cbn [In]. split.
      * intros [H | [<- | []]]; [now left | now right].
      * intros [H | ->]; [now left | right; now left].
    + now exists [absolute href].
Qed.

Lemma collect_from (hrefs : list string) :
  forall articleURLs,
    NoDup articleURLs ->
    NoDup (fold_left onLink hrefs articleURLs)
    /\ forall url,
         In url (fold_left onLink hrefs articleURLs)
         <-> In url articleURLs \/ exists href, In href hrefs /\ url = absolute href.
Proof.
  induction hrefs as [|href hrefs IH]; intros articleURLs Hnd; cbn [fold_left].
  - split; [exact Hnd |]. intros url. split; [now left |].
    intros [H | (href & [] & _)]. exact H.
  - destruct (onLink_spec articleURLs href Hnd) as (Hnd1 & Hin1 & _).
    destruct (IH _ Hnd1) as [Hnd2 Hin2]. split; [exact Hnd2 |].
    intros url. rewrite Hin2, Hin1. cbn [In]. split.
    + intros [[H | ->] | (h & Hh & ->)].
      * now left.
      * right. exists href. split; [now left | reflexivity].
      * right. exists h. split; [now right | reflexivity].
    + intros [H | (h & [<- | Hh] & ->)].
      * left. now left.
      * left. now right.
      * right. now exists h.
Qed.

(** X26. Whatever links the release-notes pages hold, and however often
    a link is repeated, as a relative or as an absolute one, the list of
    article URLs holds each URL once: every link is there in its absolute
    form, nothing else is, and no URL is fetched twice. *)
Theorem links_are_collected_once (hrefs : list string) :
  NoDup (collect hrefs)
  /\ forall url,
       In url (collect hrefs) <-> exists href, In href hrefs /\ url = absolute href.
Proof.
  destruct (collect_from hrefs [] (@NoDup_nil_2 string)) as [Hnd Hin].
  split; [exact Hnd |]. intros url. unfold collect. rewrite Hin. cbn [In]. tauto.
Qed.

Example collect_sample :
  collect sample_links
  = ["https://support.talkdesk.com/hc/en-us/articles/1-A";
     "https://support.talkdesk.com/hc/en-us/articles/2-B"].
Proof. vm_compute. reflexivity. Qed.

End Links.

Section Batches.
Import Transfer Design.

Context {Hit : Type}.
Variable processBatch : list Hit -> option error.

Lemma batch_and_rest (i : nat) (allArticles : list Hit) :
  (i < length allArticles)%nat ->
  let end_ := if (length allArticles <? i + batchSize)%nat
              then length allArticles else (i + batchSize)%nat in
  firstn (end_ - i) (skipn i allArticles) ++ skipn (i + batchSize) allArticles
  = skipn i allArticles
  /\ (1 <= length (firstn (end_ - i) (skipn i allArticles)) <= 50)%nat
  /\ (length (firstn (end_ - i) (skipn i allArticles)) + (length allArticles - (i + batchSize))
      = length allArticles - i)%nat.
Proof.
  intros Hi end_. subst end_. unfold batchSize.
  replace (i + 50)%nat with (50 + i)%nat by lia.
  rewrite <- (skipn_skipn 50 i allArticles).
  pose proof (length_skipn i allArticles) as Hlen.
  set (rest := skipn i allArticles) in *.
  destruct (length allArticles <? 50 + i)%nat eqn:E.
  - apply Nat.ltb_lt in E.
    replace (length allArticles - i)%nat with (length rest) by lia.
    rewrite firstn_all. rewrite skipn_all2 by lia. rewrite app_nil_r.
    split; [reflexivity | lia].
  - apply Nat.ltb_ge in E.
    replace (50 + i - i)%nat with 50%nat by lia.
    split; [apply firstn_skipn |]. rewrite length_firstn. lia.
Qed.

Lemma batchLoop_spec (allArticles : list Hit) (fuel : nat) :
  forall i successCount errorCount,
    (length allArticles - i <= fuel)%nat ->
    let out := batchLoop processBatch fuel i allArticles successCount errorCount in
    concat (fst (fst out)) = skipn i allArticles
    /\ Forall (fun batch => (1 <= length batch <= 50)%nat) (fst (fst out))
    /\ snd (fst out) + snd out
       = successCount + errorCount + Z.of_nat (length (fst (fst out)))
    /\ snd (fst out) - successCount
       = Z.of_nat (length (List.filter (fun batch =>
                                           match processBatch batch with
                                           | None => true
                                           | Some _ => false
                                           end) (fst (fst out)))).
Proof.
  induction fuel as [|fuel IH]; intros i successCount errorCount Hfuel out; subst out.
  - cbn [batchLoop fst snd concat length List.filter].
    rewrite skipn_all2 by lia. split; [reflexivity |].
    split; [constructor |]. split; lia.
  - cbn [batchLoop]. destruct (i <? length allArticles)%nat eqn:Ei.
    + apply Nat.ltb_lt in Ei.
      destruct (batch_and_rest i allArticles Ei) as (Hcat & Hsize & Hleft).
      set (batch := firstn _ (skipn i allArticles)) in *.
      destruct (processBatch batch) as [err|] eqn:Ep.
      * specialize (IH (i + batchSize)%nat successCount (errorCount + 1)
                      ltac:(unfold batchSize; lia)).
        destruct (batchLoop processBatch fuel (i + batchSize) allArticles
                    successCount (errorCount + 1)) as [[batches s] e].
        cbn [fst snd] in IH |- *. destruct IH as (H1 & H2 & H3 & H4).
        cbn [concat length List.filter]. rewrite Ep, H1.
        split; [exact Hcat |]. split; [now constructor |]. split; lia.
      * specialize (IH (i + batchSize)%nat (successCount + 1) errorCount
                      ltac:(unfold batchSize; lia)).
        destruct (batchLoop processBatch fuel (i + batchSize) allArticles
                    (successCount + 1) errorCount) as [[batches s] e].
        cbn [fst snd] in IH |- *. destruct IH as (H1 & H2 & H3 & H4).
        cbn [concat length List.filter]. rewrite Ep, H1. cbn [length].
        split; [exact Hcat |]. split; [now constructor |]. split; lia.
    + apply Nat.ltb_ge in Ei.
      cbn [fst snd concat length List.filter].
      rewrite skipn_all2 by lia. split; [reflexivity |].
      split; [constructor |]. split; lia.
Qed.

(** X27. The transfer hands every article to [processBatch] exactly
    once and in order: the batches put end to end are the list of
    articles, each batch holds from 1 to 50 of them, the count of
    successful batches is the number of batches [processBatch] accepted,
    and the two counts add up to the number of batches. *)
Theorem transfer_batches_partition (allArticles : list Hit) :
  let out := transfer processBatch allArticles in
  concat (fst (fst out)) = allArticles
  /\ Forall (fun batch => (1 <= length batch <= 50)%nat) (fst (fst out))
  /\ snd (fst out) + snd out = Z.of_nat (length (fst (fst out)))
  /\ snd (fst out)
     = Z.of_nat (length (List.filter (fun batch =>
                                         match processBatch batch with
                                         | None => true
                                         | Some _ => false
                                         end) (fst (fst out)))).
Proof.
  intros out. subst out. unfold transfer.
  destruct (batchLoop_spec allArticles (length allArticles) O 0 0 ltac:(lia))
    as (H1 & H2 & H3 & H4).
  cbn [skipn] in H1. split; [exact H1 |]. split; [exact H2 |]. split; lia.
Qed.

End Batches.

Example transfer_sample :
  let out := Transfer.transfer Design.picky_batch (seq 0 120) in
  map (@length nat) (fst (fst out)) = [50; 50; 20]%nat
  /\ snd (fst out) = 2 /\ snd out = 1.
Proof. vm_compute. repeat split. Qed.
